(** * synth-lab: the analysis-and-matching core

    A shallow embedding of the two classes that carry the core of the
    repository:

    - [AudioEngine] (the Tone.js engine): [configure], [applyParams],
      [estimateSynthSpectrum], [calculateEnergy], [runSimulatedAnnealing];
    - [Analyzer]: [linearToDb], [dbToLinear], [checkSilence],
      [normalizeBuffer], [detectPitch], [analyze].

    JavaScript numbers are IEEE 754 binary64 values, so they are modelled by
    Rocq's primitive [float]; [Float32Array] stores go through [Math_fround].
    The transcendental functions of [Math] (pow, exp, log, log10, log2) are
    implementation-approximated in ECMAScript: they are a record of unknown
    functions, [MathLib].  [Math.random] is a stream of draws that the
    optimizer consumes one by one (explicit state passing).  Exceptions are
    an [outcome] monad.

    The second half of the file covers the rest of the two classes that
    can be stated without the FFT: the feature routines of the analyzer
    ([measureRelease], [get90thPercentileAmplitude], [computeGatekeepers],
    the sample blocks of [getDualSnapshots]) and the calls of the engine
    that set its nodes ([configure], [applyParams], [setVibe]).
    [AnalyzerObject] carries the state of the analyzer ([audioContext],
    [results]) through [initialize], [normalizeBuffer] and [analyze]. *)

From Stdlib Require Import ZArith List Bool Lia String Floats.
From Stdlib Require Uint63.
Import ListNotations.
Set Warnings "-inexact-float".

(* ================================================================== *)
(** * JavaScript values *)
(* ================================================================== *)

Module Js.

Local Open Scope float_scope.

(** [n] as a JavaScript number (array lengths, loop counters). *)
Definition of_nat (n : nat) : float :=
  of_uint63 (Uint63.of_Z (Z.of_nat n)).

(** An integer as a number, rounded to nearest. *)
Definition of_Z (z : Z) : float :=
  SF2Prim (binary_normalize prec emax z 0%Z false).

(** [Math.min] and [Math.max] of two numbers: NaN if either is NaN, and
    -0 is smaller than +0. *)
Definition Math_min (a b : float) : float :=
  if is_nan a || is_nan b then nan
  else if a <? b then a
  else if b <? a then b
  else if get_sign a then a else b.

Definition Math_max (a b : float) : float :=
  if is_nan a || is_nan b then nan
  else if a <? b then b
  else if b <? a then a
  else if get_sign a then b else a.

Definition Math_abs (x : float) : float := abs x.

(** [Math.sqrt]: every engine returns the correctly rounded root. *)
Definition Math_sqrt (x : float) : float := sqrt x.

(** [Math.floor]: NaN, the infinities and the zeros are returned as they
    are; a finite [m * 2^e] with [e < 0] is shifted right, which rounds
    towards minus infinity. *)
Definition Math_floor (x : float) : float :=
  match Prim2SF x with
  | S754_finite s m e =>
      if (e <? 0)%Z then of_Z (Z.shiftl (cond_Zopp s (Zpos m)) e) else x
  | _ => x
  end.

(** [Math.fround], the value a [Float32Array] element holds after a store:
    the number rounded to binary32 (24 bits of precision, emax 128). *)
Definition Math_fround (x : float) : float :=
  match Prim2SF x with
  | S754_finite s m e =>
      SF2Prim (binary_normalize 24 128 (cond_Zopp s (Zpos m)) e s)
  | _ => x
  end.

(** The array index a number denotes when it is used as a property key:
    a non-negative integer (and -0, whose key is "0").  Any other number
    names no element: a read yields [undefined], a typed-array write does
    nothing. *)
Definition array_index (x : float) : option Z :=
  match Prim2SF x with
  | S754_zero _ => Some 0%Z
  | S754_finite false m e =>
      if (0 <=? e)%Z then Some (Z.shiftl (Zpos m) e)
      else if (Z.land (Zpos m) (Z.ones (- e)) =? 0)%Z
           then Some (Z.shiftl (Zpos m) e)
           else None
  | _ => None
  end.

(** Reading element [i] of an array of numbers inside an arithmetic
    expression or a comparison: [undefined] converts to NaN there. *)
Definition get (l : list float) (i : nat) : float := nth i l nan.

(** [l[i] = v] on an array that has element [i]. *)
Fixpoint set_nth (l : list float) (i : nat) (v : float) : list float :=
  match l, i with
  | [], _ => []
  | _ :: t, O => v :: t
  | h :: t, S j => h :: set_nth t j v
  end.

(** [a[k] += v] on a [Float32Array]: the sum is stored rounded to
    binary32; a key that is not an index of the array is ignored. *)
Definition f32_add_at (a : list float) (k : float) (v : float)
  : list float :=
  match array_index k with
  | Some z =>
      if (z <? Z.of_nat (List.length a))%Z
      then set_nth a (Z.to_nat z) (Math_fround (get a (Z.to_nat z) + v))
      else a
  | None => a
  end.

(** Truthiness of a number: 0, -0 and NaN are falsy. *)
Definition truthy (x : float) : bool := negb ((x =? 0) || is_nan x).

(** The implementation-approximated part of [Math]. *)
Record MathLib : Type := {
  Math_pow : float -> float -> float;
  Math_exp : float -> float;
  Math_log : float -> float;
  Math_log10 : float -> float;
  Math_log2 : float -> float
}.

(** Classes of numbers, on their IEEE 754 decomposition: finite (a zero
    or a finite non-zero number), and finite non-zero. *)
Definition finite_sf (a : spec_float) : Prop :=
  match a with
  | S754_zero _ | S754_finite _ _ _ => True
  | _ => False
  end.

Definition nonzero_sf (a : spec_float) : Prop :=
  match a with
  | S754_finite _ _ _ => True
  | _ => False
  end.

(** Errors a call can throw. *)
Inductive JsError : Type :=
| TypeError                (* property access on null or undefined *)
| IndexSizeError           (* getChannelData on a channel that is absent *)
| Error (message : string).

Inductive outcome (A : Type) : Type :=
| Return (a : A)
| Throw (e : JsError).
Arguments Return {A} a.
Arguments Throw {A} e.

Definition bind {A B} (c : outcome A) (k : A -> outcome B) : outcome B :=
  match c with
  | Return a => k a
  | Throw e => Throw e
  end.

End Js.

Import Js.

Notation "x <- c ;; k" := (bind c (fun x => k))
  (at level 61, c at next level, right associativity).

(* ================================================================== *)
(** * AudioEngine (the Tone.js engine) *)
(* ================================================================== *)

Module AudioEngine.

Local Open Scope float_scope.

(** The parameter object [currentParams]: one string and nine numbers. *)
Record SynthParams : Type := {
  oscillatorType : string;
  filterFreq : float;
  filterQ : float;
  distortionAmount : float;
  chorusWet : float;
  attack : float;
  decay : float;
  sustain : float;
  release : float;
  vibeDepth : float
}.

(** The settings of the Tone nodes that the engine writes after
    [initialize]: the synth's oscillator and envelope, the filter, the
    distortion, the chorus and the LFO. *)
Record AudioGraph : Type := {
  synth_oscillator : string;
  env_attack : float;
  env_decay : float;
  env_sustain : float;
  env_release : float;
  filter_frequency : float;
  filter_Q : float;
  distortion_amount : float;
  distortion_wet : float;
  chorus_wet : float;
  lfo_amplitude : float;
  lfo_frequency : float
}.

(** The engine object.  The nodes are [null] until [initialize] builds
    them; [lockedFrequency] is [null] until [configure] stores a pitch. *)
Record Engine : Type := {
  graph : option AudioGraph;
  isInitialized : bool;
  lockedFrequency : option float;
  currentParams : SynthParams
}.

(** [constructor]. *)
Definition constructor : Engine := {|
  graph := None;
  isInitialized := false;
  lockedFrequency := None;
  currentParams := {|
    oscillatorType := "sawtooth";
    filterFreq := 2000;
    filterQ := 1;
    distortionAmount := 0;
    chorusWet := 0;
    attack := 0.01;
    decay := 0.2;
    sustain := 0.5;
    release := 0.5;
    vibeDepth := 0 |}
|}.

(** [initialize]: builds the node graph with its defaults, once. *)
Definition initialize (this : Engine) : Engine :=
  if isInitialized this then this
  else {|
    graph := Some {|
      synth_oscillator := "sawtooth";
      env_attack := 0.01;
      env_decay := 0.2;
      env_sustain := 0.5;
      env_release := 0.5;
      filter_frequency := 2000;
      filter_Q := 1;
      distortion_amount := 0;
      distortion_wet := 0;
      chorus_wet := 0;
      lfo_amplitude := 0;
      lfo_frequency := 5 |};
    isInitialized := true;
    lockedFrequency := lockedFrequency this;
    currentParams := currentParams this
  |}.

Definition dispose (this : Engine) : Engine := {|
  graph := graph this;
  isInitialized := false;
  lockedFrequency := lockedFrequency this;
  currentParams := currentParams this
|}.

(** A node of the graph, or the [TypeError] of reading a property of
    [null]. *)
Definition nodes (this : Engine) : outcome AudioGraph :=
  match graph this with
  | Some g => Return g
  | None => Throw TypeError
  end.

Definition with_release (p : SynthParams) (v : float) : SynthParams := {|
  oscillatorType := oscillatorType p; filterFreq := filterFreq p;
  filterQ := filterQ p; distortionAmount := distortionAmount p;
  chorusWet := chorusWet p; attack := attack p; decay := decay p;
  sustain := sustain p; release := v; vibeDepth := vibeDepth p |}.

Definition with_chorusWet (p : SynthParams) (v : float) : SynthParams := {|
  oscillatorType := oscillatorType p; filterFreq := filterFreq p;
  filterQ := filterQ p; distortionAmount := distortionAmount p;
  chorusWet := v; attack := attack p; decay := decay p;
  sustain := sustain p; release := release p; vibeDepth := vibeDepth p |}.

(** The fields of an analysis result that [configure] reads. *)
Record AnalysisResults : Type := {
  detectedRelease : float;
  isWide : bool;
  pitchHz : option float
}.

(** [configure(analysisResults)]. *)
Definition configure (this : Engine) (analysisResults : AnalysisResults)
  : outcome Engine :=
  if negb (isInitialized this) then Return this
  else
    let p1 := with_release (currentParams this)
                (detectedRelease analysisResults) in
    g <- nodes this ;;
    let g1 := {|
      synth_oscillator := synth_oscillator g;
      env_attack := env_attack g; env_decay := env_decay g;
      env_sustain := env_sustain g;
      env_release := detectedRelease analysisResults;
      filter_frequency := filter_frequency g; filter_Q := filter_Q g;
      distortion_amount := distortion_amount g;
      distortion_wet := distortion_wet g;
      chorus_wet := if isWide analysisResults then 0.5 else chorus_wet g;
      lfo_amplitude := lfo_amplitude g;
      lfo_frequency := lfo_frequency g |} in
    let p2 := if isWide analysisResults then with_chorusWet p1 0.5 else p1 in
    Return {|
      graph := Some g1;
      isInitialized := isInitialized this;
      lockedFrequency := pitchHz analysisResults;
      currentParams := p2 |}.

(** [applyParams(params)], for a [params] that carries every key, as the
    copies of [currentParams] that the optimizer passes do: the merge
    [{...this.currentParams, ...params}] is then [params], no key is
    [undefined], and [??] keeps the left operand. *)
Definition applyParams (this : Engine) (params : SynthParams)
  : outcome Engine :=
  g <- nodes this ;;
  Return {|
    graph := Some {|
      synth_oscillator :=
        if String.eqb (oscillatorType params) EmptyString
        then synth_oscillator g else oscillatorType params;
      env_attack := attack params;
      env_decay := decay params;
      env_sustain := sustain params;
      env_release := release params;
      filter_frequency := filterFreq params;
      filter_Q := filterQ params;
      distortion_amount := distortionAmount params;
      distortion_wet := if 0 <? distortionAmount params then 1 else 0;
      chorus_wet := chorusWet params;
      lfo_amplitude := lfo_amplitude g;
      lfo_frequency := lfo_frequency g |};
    isInitialized := isInitialized this;
    lockedFrequency := lockedFrequency this;
    currentParams := params |}.

(** [setVibe(vibeType)]. *)
Definition setVibe (this : Engine) (vibeType : string) : outcome Engine :=
  g <- nodes this ;;
  let p := currentParams this in
  let upd (amp freq dist wet : float) := {|
    synth_oscillator := synth_oscillator g;
    env_attack := env_attack g; env_decay := env_decay g;
    env_sustain := env_sustain g; env_release := env_release g;
    filter_frequency := filter_frequency g; filter_Q := filter_Q g;
    distortion_amount := dist;
    distortion_wet := distortion_wet g;
    chorus_wet := wet;
    lfo_amplitude := amp;
    lfo_frequency := freq |} in
  let g1 :=
    if String.eqb vibeType "modern" then
      upd 0.3 6 (Math_min 0.3 (distortionAmount p + 0.1)) (chorus_wet g)
    else if String.eqb vibeType "vintage" then
      upd 0.5 4 (distortion_amount g) (Math_min 0.7 (chorusWet p + 0.2))
    else
      upd 0 (lfo_frequency g) (distortionAmount p) (chorusWet p) in
  Return {|
    graph := Some g1;
    isInitialized := isInitialized this;
    lockedFrequency := lockedFrequency this;
    currentParams := p |}.

(** A spectrum as the analyzer produces it. *)
Record Spectrum : Type := {
  magnitudes : list float;
  frequencies : list float;
  sampleRate : float;
  fftSize : nat
}.

(** ** The spectral model *)

(** [this.lockedFrequency || 440]. *)
Definition fundamental (this : Engine) : float :=
  match lockedFrequency this with
  | Some f => if truthy f then f else 440
  | None => 440
  end.

(** The [switch] on [params.oscillatorType] for harmonic [i]. *)
Definition oscillatorAmplitude (osc : string) (i : nat) : float :=
  if String.eqb osc "sawtooth" then 1 / of_nat i
  else if String.eqb osc "square" then
    if Nat.odd i then 1 / of_nat i else 0
  else if String.eqb osc "triangle" then
    if Nat.odd i then 1 / (of_nat i * of_nat i) else 0
  else
    if Nat.eqb i 1 then 1 else 0.

(** What harmonic [i] adds to its bin: the amplitude law, boosted near the
    cutoff, times the rolloff above the cutoff. *)
Definition harmonicTerm (M : MathLib) (params : SynthParams)
    (freq : float) (i : nat) : float :=
  let amplitude := oscillatorAmplitude (oscillatorType params) i in
  let filterRolloff :=
    if filterFreq params <? freq
    then Math_pow M (filterFreq params / freq) 2
    else 1 in
  let amplitude :=
    if (filterFreq params * 0.9 <? freq) && (freq <? filterFreq params * 1.1)
    then amplitude * (1 + filterQ params * 0.5)
    else amplitude in
  amplitude * filterRolloff.

(** The body of the harmonic loop, for harmonic [i]. *)
Definition harmonicStep (M : MathLib) (params : SynthParams)
    (fundamental : float) (spectrum : list float) (i : nat) : list float :=
  let freq := fundamental * of_nat i in
  let bin := Math_floor (freq / 172) in
  if bin <? of_nat (List.length spectrum)
  then f32_add_at spectrum bin (harmonicTerm M params freq i)
  else spectrum.

(** [estimateSynthSpectrum(params)]. *)
Definition estimateSynthSpectrum (M : MathLib) (this : Engine)
    (params : SynthParams) : list float :=
  let spectrum := repeat 0 128 in
  let fundamental := fundamental this in
  let spectrum :=
    fold_left (harmonicStep M params fundamental) (seq 1 16) spectrum in
  if 0 <? distortionAmount params
  then map (fun s => Math_fround (s + s * distortionAmount params * 0.3))
           spectrum
  else spectrum.

(** [calculateEnergy(params, targetSpectrum)]; a [null] target is [None]. *)
Definition calculateEnergy (M : MathLib) (this : Engine)
    (params : SynthParams) (targetSpectrum : option Spectrum) : float :=
  match targetSpectrum with
  | None => 1
  | Some target =>
      let synthResponse := estimateSynthSpectrum M this params in
      let targetMags := magnitudes target in
      let compareLength :=
        Nat.min (Nat.min (List.length synthResponse)
                         (List.length targetMags)) 64 in
      let energy :=
        fold_left
          (fun energy i =>
             let diff := Math_log M (get synthResponse i + 1)
                         - Math_log M (get targetMags i + 1) in
             energy + diff * diff)
          (seq 0 compareLength) 0 in
      energy / of_nat compareLength
  end.

(** ** The annealing optimizer *)

(** The keys of [paramRanges], in insertion order. *)
Inductive ParamKey : Type :=
| K_filterFreq | K_filterQ | K_distortionAmount
| K_attack | K_decay | K_sustain.

Record Range : Type := { range_min : float; range_max : float }.

Definition paramRanges (key : ParamKey) : Range :=
  match key with
  | K_filterFreq => {| range_min := 200; range_max := 8000 |}
  | K_filterQ => {| range_min := 0.5; range_max := 10 |}
  | K_distortionAmount => {| range_min := 0; range_max := 0.8 |}
  | K_attack => {| range_min := 0.001; range_max := 0.5 |}
  | K_decay => {| range_min := 0.01; range_max := 1 |}
  | K_sustain => {| range_min := 0.1; range_max := 1 |}
  end.

(** [Object.keys(paramRanges)]. *)
Definition paramKeys : list ParamKey :=
  [K_filterFreq; K_filterQ; K_distortionAmount; K_attack; K_decay; K_sustain].

(** [params[key]] and [params[key] = v]. *)
Definition get_param (key : ParamKey) (p : SynthParams) : float :=
  match key with
  | K_filterFreq => filterFreq p
  | K_filterQ => filterQ p
  | K_distortionAmount => distortionAmount p
  | K_attack => attack p
  | K_decay => decay p
  | K_sustain => sustain p
  end.

Definition key_eqb (a b : ParamKey) : bool :=
  match a, b with
  | K_filterFreq, K_filterFreq
  | K_filterQ, K_filterQ
  | K_distortionAmount, K_distortionAmount
  | K_attack, K_attack
  | K_decay, K_decay
  | K_sustain, K_sustain => true
  | _, _ => false
  end.

Definition set_param (key : ParamKey) (v : float) (p : SynthParams)
  : SynthParams :=
  let pick k := if key_eqb key k then v else get_param k p in
  {| oscillatorType := oscillatorType p;
     filterFreq := pick K_filterFreq;
     filterQ := pick K_filterQ;
     distortionAmount := pick K_distortionAmount;
     chorusWet := chorusWet p;
     attack := pick K_attack;
     decay := pick K_decay;
     sustain := pick K_sustain;
     release := release p;
     vibeDepth := vibeDepth p |}.

(** [paramKeys[Math.floor(r * paramKeys.length)]] for a draw [r];
    [None] is [undefined]. *)
Definition keyToMutate (r : float) : option ParamKey :=
  match array_index (Math_floor (r * of_nat (List.length paramKeys))) with
  | Some z =>
      if (z <? Z.of_nat (List.length paramKeys))%Z
      then nth_error paramKeys (Z.to_nat z)
      else None
  | None => None
  end.

Definition startTemp : float := 1.0.
Definition endTemp : float := 0.01.

(** The temperature of step [step] of [steps]. *)
Definition temperature (M : MathLib) (steps step : nat) : float :=
  startTemp * Math_pow M (endTemp / startTemp) (of_nat step / of_nat steps).

(** The clamped new value of [key]: draw [r] perturbs the current value. *)
Definition mutate (key : ParamKey) (r temp current : float) : float :=
  let range := paramRanges key in
  let mutation :=
    (r - 0.5) * (range_max range - range_min range) * 0.2 * temp in
  Math_max (range_min range) (Math_min (range_max range) (current + mutation)).

(** The variables of the loop, and the number of draws of [Math.random]
    consumed so far. *)
Record AnnealState : Type := {
  st_currentParams : SynthParams;
  st_currentEnergy : float;
  st_bestParams : SynthParams;
  st_bestEnergy : float;
  st_draws : nat
}.

(** The object passed to [onProgress]. *)
Record ProgressEvent : Type := {
  ev_step : nat;
  ev_totalSteps : nat;
  ev_energy : float;
  ev_params : SynthParams
}.

Section Annealing.

Variable M : MathLib.
(** [random n] is what the [n]-th call of [Math.random] returns. *)
Variable random : nat -> float.
Variable this : Engine.
Variable targetSpectrum : option Spectrum.
Variable steps : nat.

(** One iteration of the loop, up to the progress call.  An [undefined]
    key makes [range.max] throw. *)
Definition annealStep (step : nat) (st : AnnealState) : outcome AnnealState :=
  let temp := temperature M steps step in
  let n := st_draws st in
  match keyToMutate (random n) with
  | None => Throw TypeError
  | Some key =>
      let newParams :=
        set_param key
          (mutate key (random (S n)) temp
             (get_param key (st_currentParams st)))
          (st_currentParams st) in
      let newEnergy := calculateEnergy M this newParams targetSpectrum in
      let delta := newEnergy - st_currentEnergy st in
      let '(accept, n') :=
        if delta <? 0 then (true, S (S n))
        else (random (S (S n)) <? Math_exp M (- delta / temp), S (S (S n))) in
      Return
        (if accept then
           if newEnergy <? st_bestEnergy st
           then {| st_currentParams := newParams;
                   st_currentEnergy := newEnergy;
                   st_bestParams := newParams;
                   st_bestEnergy := newEnergy;
                   st_draws := n' |}
           else {| st_currentParams := newParams;
                   st_currentEnergy := newEnergy;
                   st_bestParams := st_bestParams st;
                   st_bestEnergy := st_bestEnergy st;
                   st_draws := n' |}
         else {| st_currentParams := st_currentParams st;
                 st_currentEnergy := st_currentEnergy st;
                 st_bestParams := st_bestParams st;
                 st_bestEnergy := st_bestEnergy st;
                 st_draws := n' |})
  end.

(** What [onProgress] receives after step [step]. *)
Definition progressEvent (step : nat) (st : AnnealState) : ProgressEvent :=
  {| ev_step := step; ev_totalSteps := steps;
     ev_energy := st_bestEnergy st; ev_params := st_bestParams st |}.

(** The loop from step [step] on, with [todo] iterations left; the calls
    of [onProgress] (when one was passed) are appended to [calls]. *)
Fixpoint annealLoop (onProgress : bool) (todo step : nat) (st : AnnealState)
    (calls : list ProgressEvent)
  : outcome (AnnealState * list ProgressEvent) :=
  match todo with
  | O => Return (st, calls)
  | S todo' =>
      st' <- annealStep step st ;;
      annealLoop onProgress todo' (S step) st'
        (if onProgress then calls ++ [progressEvent step st'] else calls)
  end.

(** The state before the first iteration. *)
Definition initialState : AnnealState :=
  let currentEnergy :=
    calculateEnergy M this (currentParams this) targetSpectrum in
  {| st_currentParams := currentParams this;
     st_currentEnergy := currentEnergy;
     st_bestParams := currentParams this;
     st_bestEnergy := currentEnergy;
     st_draws := 0 |}.

(** What a call of [runSimulatedAnnealing] leaves behind: the value it
    returns ([None] is [null]), the engine afterwards, and the calls
    [onProgress] received, in order. *)
Record AnnealResult : Type := {
  returned : option SynthParams;
  engine_after : Engine;
  progress : list ProgressEvent
}.

(** [runSimulatedAnnealing(targetSpectrum, steps, onProgress)];
    [onProgress] tells whether a callback was passed. *)
Definition runSimulatedAnnealing (onProgress : bool) : outcome AnnealResult :=
  if negb (isInitialized this) then
    Return {| returned := None; engine_after := this; progress := [] |}
  else
    r <- annealLoop onProgress steps 0 initialState [] ;;
    let '(st, calls) := r in
    this' <- applyParams this (st_bestParams st) ;;
    Return {| returned := Some (st_bestParams st);
              engine_after := this';
              progress := calls |}.

(** The loop variables after 0, 1, ..., [todo] iterations from [st]: the
    states the search goes through. *)
Fixpoint trajectory (todo step : nat) (st : AnnealState)
  : outcome (list AnnealState) :=
  match todo with
  | O => Return [st]
  | S todo' =>
      st' <- annealStep step st ;;
      rest <- trajectory todo' (S step) st' ;;
      Return (st :: rest)
  end.

End Annealing.

End AudioEngine.

(* ================================================================== *)
(** * Analyzer *)
(* ================================================================== *)

Module Analyzer.

Import AudioEngine.
Local Open Scope float_scope.

Definition MAX_FILE_SIZE : N := (10 * 1024 * 1024)%N.
Definition SILENCE_THRESHOLD_DB : float := -60.
Definition NORMALIZE_TARGET_DB : float := -3.

(** A decoded buffer: the sample arrays of its channels (each a
    [Float32Array] of [length] samples), and the sample rate. *)
Record AudioBuffer : Type := {
  channels : list (list float);
  buf_sampleRate : float
}.

Definition numberOfChannels (b : AudioBuffer) : nat :=
  List.length (channels b).

(** [audioBuffer.getChannelData(c)]. *)
Definition getChannelData (b : AudioBuffer) (c : nat) : outcome (list float) :=
  match nth_error (channels b) c with
  | Some data => Return data
  | None => Throw IndexSizeError
  end.

Definition dbToLinear (M : MathLib) (db : float) : float :=
  Math_pow M 10 (db / 20).

Definition linearToDb (M : MathLib) (linear : float) : float :=
  20 * Math_log10 M (Math_max linear 1e-10).

(** The level [checkSilence] computes for a channel. *)
Definition rmsLevel (channelData : list float) : float :=
  let rms := fold_left (fun rms x => rms + x * x) channelData 0 in
  Math_sqrt (rms / of_nat (List.length channelData)).

Definition tooQuiet : JsError :=
  Error "Audio file is too quiet (below -60dB)".
Definition appearsSilent : JsError :=
  Error "Audio file appears to be silent".
Definition tooLarge : JsError :=
  Error "File too large. Max size is 10MB".

(** [checkSilence(audioBuffer)]. *)
Definition checkSilence (M : MathLib) (audioBuffer : AudioBuffer)
  : outcome float :=
  channelData <- getChannelData audioBuffer 0 ;;
  let dbLevel := linearToDb M (rmsLevel channelData) in
  if dbLevel <? SILENCE_THRESHOLD_DB then Throw tooQuiet
  else Return dbLevel.

(** The largest absolute sample over all channels. *)
Definition peakAmplitude (chans : list (list float)) : float :=
  fold_left
    (fun maxAmplitude channelData =>
       fold_left (fun m x => Math_max m (Math_abs x))
                 channelData maxAmplitude)
    chans 0.

(** [normalizeBuffer(audioBuffer, targetDb)] on an analyzer that has its
    [audioContext], as [analyze] calls it after [initialize];
    [AnalyzerObject.normalizeBuffer] is the method with the state of the
    object. *)
Definition normalizeBuffer (M : MathLib) (audioBuffer : AudioBuffer)
    (targetDb : float) : outcome AudioBuffer :=
  let maxAmplitude := peakAmplitude (channels audioBuffer) in
  if maxAmplitude =? 0 then Throw appearsSilent
  else
    let targetLinear := dbToLinear M targetDb in
    let gain := targetLinear / maxAmplitude in
    Return {|
      channels :=
        map (map (fun x => Math_fround (x * gain))) (channels audioBuffer);
      buf_sampleRate := buf_sampleRate audioBuffer |}.

(** [detectPitch(spectrum)].  [frequencies[peakIdx]] of an empty array is
    [undefined], here NaN. *)
Definition detectPitch (spectrum : Spectrum) : float :=
  let mags := magnitudes spectrum in
  let freqs := frequencies spectrum in
  let '(maxMag, peakIdx) :=
    fold_left
      (fun '(maxMag, peakIdx) i =>
         if (50 <? get freqs i) && (get freqs i <? 2000) then
           if maxMag <? get mags i then (get mags i, i)
           else (maxMag, peakIdx)
         else (maxMag, peakIdx))
      (seq 1 (List.length mags - 2)) (0, O) in
  if ((0 <? peakIdx) && (peakIdx <? List.length mags - 1))%nat then
    let y0 := get mags (peakIdx - 1) in
    let y1 := get mags peakIdx in
    let y2 := get mags (peakIdx + 1) in
    let delta := (y0 - y2) / (2 * (y0 - 2 * y1 + y2)) in
    get freqs peakIdx + delta * (get freqs 1 - get freqs 0)
  else get freqs peakIdx.

Definition frequencyToOctave (M : MathLib) (frequency : float) : float :=
  if frequency <=? 0 then 2
  else
    let noteNumber := 12 * Math_log2 M (frequency / 440) + 69 in
    Math_floor (noteNumber / 12) - 1.

(** The two spectra of a snapshot position. *)
Record Snapshot : Type := { pitch : Spectrum; texture : Spectrum }.
Record Snapshots : Type := { early : Snapshot; late : Snapshot }.

(** The remaining feature routines, which no error can leave: the FFT
    snapshots, the release measurement, the amplitude percentile and the
    gatekeeper flags. *)
Record FeatureRoutines : Type := {
  getDualSnapshots : AudioBuffer -> Snapshots;
  measureRelease : AudioBuffer -> float;
  get90thPercentileAmplitude : AudioBuffer -> float;
  computeGatekeepers : Snapshots -> bool * bool * bool
}.

(** [this.results]. *)
Record Descriptor : Type := {
  d_pitchHz : float;
  d_detectedOctave : float;
  d_detectedRelease : float;
  d_amplitude : float;
  d_isFM : bool;
  d_isOrganic : bool;
  d_isWide : bool;
  d_snapshots : Snapshots;
  d_audioBuffer : AudioBuffer
}.

(** A file: its size in bytes, and what [decodeAudioData] makes of its
    bytes. *)
Record File : Type := {
  size : N;
  decoded : outcome AudioBuffer
}.

Definition validateFile (file : File) : outcome bool :=
  if (MAX_FILE_SIZE <? size file)%N then Throw tooLarge else Return true.

(** [analyze(file)]. *)
Definition analyze (M : MathLib) (F : FeatureRoutines) (file : File)
  : outcome Descriptor :=
  _ <- validateFile file ;;
  audioBuffer <- decoded file ;;
  _ <- checkSilence M audioBuffer ;;
  audioBuffer <- normalizeBuffer M audioBuffer NORMALIZE_TARGET_DB ;;
  let snapshots := getDualSnapshots F audioBuffer in
  let pitchHz := detectPitch (pitch (early snapshots)) in
  let '(isFM, isOrganic, isWide) := computeGatekeepers F snapshots in
  Return {|
    d_pitchHz := pitchHz;
    d_detectedOctave := frequencyToOctave M pitchHz;
    d_detectedRelease := measureRelease F audioBuffer;
    d_amplitude := get90thPercentileAmplitude F audioBuffer;
    d_isFM := isFM;
    d_isOrganic := isOrganic;
    d_isWide := isWide;
    d_snapshots := snapshots;
    d_audioBuffer := audioBuffer |}.

End Analyzer.

(* ================================================================== *)
(** * Inputs *)
(* ================================================================== *)

Module Inputs.

Import AudioEngine Analyzer.
Local Open Scope float_scope.

(** A [Math] that answers only where ECMAScript fixes the result exactly
    ([pow(x, 0) = 1], [exp(0) = 1], [log(1) = log10(1) = log2(1) = 0]) and,
    for [log10], at the floor [1e-10] of [linearToDb], where engines return
    -10.  Elsewhere it answers NaN. *)
Definition tableMath : MathLib := {|
  Math_pow := fun _ x => if x =? 0 then 1 else nan;
  Math_exp := fun x => if x =? 0 then 1 else nan;
  Math_log := fun x => if x =? 1 then 0 else nan;
  Math_log10 := fun x => if x =? 1 then 0 else if x =? 1e-10 then -10 else nan;
  Math_log2 := fun x => if x =? 1 then 0 else nan
|}.

(** One implementation of the approximated functions, by argument
    reduction and power series (accurate to about 1e-15), exact where
    ECMAScript fixes the result: it lets the optimizer run on examples. *)
Definition ln2 : float := 0.6931471805599453.
Definition ln10 : float := 2.302585092994046.

(** [1/k + t2/(k+2) + t2^2/(k+4) + ...], [n] terms. *)
Fixpoint atanhSeries (n : nat) (t2 k : float) : float :=
  match n with
  | O => 0
  | S n' => 1 / k + t2 * atanhSeries n' t2 (k + 2)
  end.

Definition logSeries (x : float) : float :=
  if is_nan x || (x <? 0) then nan
  else if x =? 0 then neg_infinity
  else if x =? 1 then 0
  else if is_infinity x then infinity
  else
    let (m, e) := Z.frexp x in
    let t := (m - 1) / (m + 1) in
    Js.of_Z e * ln2 + 2 * t * atanhSeries 30 (t * t) 1.

(** [1 + r/k (1 + r/(k+1) (1 + ...))], [n] terms. *)
Fixpoint expTerms (n : nat) (r k : float) : float :=
  match n with
  | O => 1
  | S n' => 1 + r / k * expTerms n' r (k + 1)
  end.

(** The integer a finite integral number denotes. *)
Definition integerOf (x : float) : Z :=
  match Prim2SF x with
  | S754_finite s m e => cond_Zopp s (Z.shiftl (Zpos m) e)
  | _ => 0%Z
  end.

Definition expSeries (x : float) : float :=
  if is_nan x then nan
  else if 709 <? x then infinity
  else if x <? -745 then 0
  else
    let k := Math_floor (x / ln2 + 0.5) in
    Z.ldexp (expTerms 25 (x - k * ln2) 1) (integerOf k).

Definition sampleMath : MathLib := {|
  Math_pow := fun b x => if x =? 0 then 1 else expSeries (x * logSeries b);
  Math_exp := expSeries;
  Math_log := logSeries;
  Math_log10 := fun x => logSeries x / ln10;
  Math_log2 := fun x => logSeries x / ln2
|}.

(** A stream of draws: the thousandths [k/1000], visited with stride
    7919 from 13. *)
Definition drawTable : list float :=
  map (fun k => of_nat k / 1000) (seq 0 1000).

Definition sampleDraws (n : nat) : float :=
  nth (Z.to_nat ((Z.of_nat n * 7919 + 13) mod 1000)) drawTable 0.5.

(** A draw of [Math.random] that selects a key. *)
Definition validDraw (r : float) : bool :=
  match keyToMutate r with Some _ => true | None => false end.

(** A draw in [0, 1). *)
Definition unitDraw (r : float) : bool := (0 <=? r) && (r <? 1).

(** An engine after [initialize]. *)
Definition ready (this : Engine) : bool :=
  isInitialized this && match graph this with Some _ => true | None => false end.

(** The engine as [initialize] leaves a new one. *)
Definition freshEngine : Engine := initialize constructor.

(** A temperature in (0, 1], as the cooling schedule yields. *)
Definition tempOK (t : float) : bool := (0 <? t) && (t <=? 1).

(** The engine after [initialize] and [setVibe('vintage')]. *)
Definition vintageEngine : Engine :=
  match setVibe freshEngine "vintage" with
  | Return e => e
  | Throw _ => freshEngine
  end.

(** The engine with [f] stored as its locked frequency. *)
Definition lock (this : Engine) (f : float) : Engine := {|
  graph := graph this;
  isInitialized := isInitialized this;
  lockedFrequency := Some f;
  currentParams := currentParams this |}.

(** A locked frequency that is unset, [null] or zero. *)
Definition unlocked (l : option float) : bool :=
  match l with
  | None => true
  | Some f => is_zero f
  end.

(** A target: the spectrum the model gives for a brighter, distorted
    patch, as a spectrum of 128 bins of 172 Hz. *)
Definition sampleTarget : Spectrum := {|
  magnitudes :=
    estimateSynthSpectrum sampleMath freshEngine
      (set_param K_distortionAmount 0.6
         (set_param K_filterFreq 5000 (currentParams freshEngine)));
  frequencies := map (fun i => of_nat i * 172) (seq 0 128);
  sampleRate := 44032;
  fftSize := 256 |}.

(** The default parameters with the cutoff at the top of its range. *)
Definition brightSaw : SynthParams :=
  set_param K_filterFreq 8000 (currentParams constructor).

(** A spectrum of [n] bins of an FFT of size [2n] at 48 kHz (bin width
    11.71875 Hz, exact in binary32) with the magnitudes [mags]. *)
Definition spectrum48k (mags : list float) : Spectrum := {|
  magnitudes := mags;
  frequencies := map (fun i => of_nat i * 11.71875) (seq 0 (List.length mags));
  sampleRate := 48000;
  fftSize := 2 * List.length mags |}.

(** A flat spectrum: what the FFT of an impulse is. *)
Definition flatSpectrum : Spectrum := spectrum48k (repeat 1 2048).

(** A spectrum that falls off linearly from a peak below 50 Hz: bins 4, 5
    and 6 (46.9, 58.6 and 70.3 Hz) hold 3, 2 and 1. *)
Definition rumbleSpectrum : Spectrum :=
  spectrum48k ([0; 0; 0; 0; 3; 2; 1] ++ repeat 0 2041).

(** A buffer whose channel 0 has at least one sample (and fewer than
    2^53, as every array has). *)
Definition wellFormed (b : AudioBuffer) : bool :=
  match channels b with
  | channelData :: _ =>
      (1 <=? List.length channelData)%nat
      && (Z.of_nat (List.length channelData) <? 2 ^ 53)%Z
  | [] => false
  end.

(** A mono buffer of four zero samples, and a file that decodes to it. *)
Definition silentBuffer : AudioBuffer :=
  {| channels := [[0; 0; 0; 0]]; buf_sampleRate := 48000 |}.
Definition silentFile : File :=
  {| size := 52; decoded := Return silentBuffer |}.

(** Feature routines that return fixed values. *)
Definition constantFeatures : FeatureRoutines :=
  let s := {| pitch := flatSpectrum; texture := flatSpectrum |} in
  {| getDualSnapshots := fun _ => {| early := s; late := s |};
     measureRelease := fun _ => 0.5;
     get90thPercentileAmplitude := fun _ => 0.5;
     computeGatekeepers := fun _ => (false, false, false) |}.

End Inputs.

(* ================================================================== *)
(** * The statements of the specification *)
(* ================================================================== *)

Module Spec.

Import AudioEngine Analyzer Inputs.
Local Open Scope float_scope.

(** ** 4.3, the reference definition of the spectral model

    The amplitude law per oscillator type, for harmonic [h]. *)
Definition amplitudeLaw (osc : string) (h : nat) : float :=
  if String.eqb osc "sawtooth" then 1 / of_nat h
  else if String.eqb osc "square" then
    if Nat.odd h then 1 / of_nat h else 0
  else if String.eqb osc "triangle" then
    if Nat.odd h then 1 / (of_nat h * of_nat h) else 0
  else if Nat.eqb h 1 then 1 else 0.

(** The lowpass rolloff of a harmonic at [harmonicFreq]. *)
Definition rolloff (M : MathLib) (params : SynthParams)
    (harmonicFreq : float) : float :=
  if filterFreq params <? harmonicFreq
  then Math_pow M (filterFreq params / harmonicFreq) 2
  else 1.

(** Whether the harmonic lies within 10% of the cutoff. *)
Definition nearCutoff (params : SynthParams) (harmonicFreq : float) : bool :=
  (filterFreq params * 0.9 <? harmonicFreq)
  && (harmonicFreq <? filterFreq params * 1.1).

(** Amplitude law, resonance boost and rolloff of harmonic [h].  Over the
    reals the order of the factors is immaterial; here the boost is
    applied before the rolloff. *)
Definition contribution (M : MathLib) (params : SynthParams)
    (fundamentalHz : float) (h : nat) : float :=
  let harmonicFreq := fundamentalHz * of_nat h in
  let boosted :=
    if nearCutoff params harmonicFreq
    then amplitudeLaw (oscillatorType params) h * (1 + filterQ params * 0.5)
    else amplitudeLaw (oscillatorType params) h in
  boosted * rolloff M params harmonicFreq.

(** Harmonic [h] is accumulated into bin [b] when
    [floor (freq / binWidth) = b], a bin of the 128. *)
Definition landsIn (binWidth fundamentalHz : float) (h b : nat) : bool :=
  let bin := Math_floor (fundamentalHz * of_nat h / binWidth) in
  (bin <? of_nat 128)
  && match array_index bin with
     | Some z => (z =? Z.of_nat b)%Z
     | None => false
     end.

(** Bin [b]: the contributions of harmonics 1..16 that land in it, summed
    in binary32 in the order of the harmonics. *)
Definition binMagnitude (M : MathLib) (binWidth : float)
    (params : SynthParams) (fundamentalHz : float) (b : nat) : float :=
  fold_left
    (fun acc h =>
       if landsIn binWidth fundamentalHz h b
       then Math_fround (acc + contribution M params fundamentalHz h)
       else acc)
    (seq 1 16) 0.

(** The distortion boost of a bin. *)
Definition distort (params : SynthParams) (m : float) : float :=
  if 0 <? distortionAmount params
  then Math_fround (m + m * distortionAmount params * 0.3)
  else m.

(** The 128 bins for a bin width. *)
Definition spectrumOfWidth (M : MathLib) (binWidth : float)
    (params : SynthParams) (fundamentalHz : float) : list float :=
  map (fun b => distort params (binMagnitude M binWidth params fundamentalHz b))
      (seq 0 128).

(** [estimateSpectrum(params, fundamentalHz)] as 4.3 words it: the bin
    width is [sampleRate/2/128]. *)
Definition estimateSpectrum (M : MathLib) (sampleRateHz : float)
    (params : SynthParams) (fundamentalHz : float) : list float :=
  spectrumOfWidth M (sampleRateHz / 2 / 128) params fundamentalHz.

(** ** 4.4, the energy function

    Mean squared error of [log(mag+1)] over the first
    [min(64, len(estimated), len(target))] bins. *)
Definition logSquaredError (M : MathLib) (a b : float) : float :=
  let d := Math_log M (a + 1) - Math_log M (b + 1) in d * d.

Definition meanLogSquaredError (M : MathLib) (estimated target : list float)
  : float :=
  let n := Nat.min 64 (Nat.min (List.length estimated) (List.length target)) in
  let errors :=
    map (fun ab => logSquaredError M (fst ab) (snd ab))
        (combine (firstn n estimated) (firstn n target)) in
  fold_left add errors 0 / of_nat n.

(** ** Best-seen state

    [e] and [p] are the energy and the parameters of one of the states
    [seen], and no state of [seen] has an energy below [e]. *)
Definition BestSeen (seen : list AnnealState) (e : float) (p : SynthParams)
  : Prop :=
  (exists s, In s seen /\ st_currentParams s = p /\ st_currentEnergy s = e)
  /\ (forall s, In s seen -> (st_currentEnergy s <? e) = false).

(** ** 4.4, the best tracker *)

Section Tracking.

Variable M : MathLib.
Variable random : nat -> float.
Variable this : Engine.
Variable target : option Spectrum.
Variable steps : nat.

(** The calls of [onProgress] for the states after steps [step],
    [step + 1], ... *)
Fixpoint eventsFrom (step : nat) (states : list AnnealState)
  : list ProgressEvent :=
  match states with
  | [] => []
  | st :: rest => progressEvent steps step st :: eventsFrom (S step) rest
  end.

(** What one iteration does to the loop variables: the trial is rejected,
    accepted without beating the best, or accepted as the new best. *)
Inductive StepOutcome (step : nat) (st st' : AnnealState) : Prop :=
| Rejected :
    st_currentParams st' = st_currentParams st ->
    st_currentEnergy st' = st_currentEnergy st ->
    st_bestParams st' = st_bestParams st ->
    st_bestEnergy st' = st_bestEnergy st ->
    StepOutcome step st st'
| Accepted (key : ParamKey) (newParams : SynthParams) :
    keyToMutate (random (st_draws st)) = Some key ->
    newParams = set_param key
                  (mutate key (random (S (st_draws st)))
                     (temperature M steps step)
                     (get_param key (st_currentParams st)))
                  (st_currentParams st) ->
    st_currentParams st' = newParams ->
    st_currentEnergy st' = calculateEnergy M this newParams target ->
    (calculateEnergy M this newParams target <? st_bestEnergy st) = false ->
    st_bestParams st' = st_bestParams st ->
    st_bestEnergy st' = st_bestEnergy st ->
    StepOutcome step st st'
| Improved (key : ParamKey) (newParams : SynthParams) :
    keyToMutate (random (st_draws st)) = Some key ->
    newParams = set_param key
                  (mutate key (random (S (st_draws st)))
                     (temperature M steps step)
                     (get_param key (st_currentParams st)))
                  (st_currentParams st) ->
    st_currentParams st' = newParams ->
    st_currentEnergy st' = calculateEnergy M this newParams target ->
    (calculateEnergy M this newParams target <? st_bestEnergy st) = true ->
    st_bestParams st' = newParams ->
    st_bestEnergy st' = calculateEnergy M this newParams target ->
    StepOutcome step st st'.

(** The invariant of the best tracker: the state is among those seen, its
    energies are the energies of its parameter sets, and its best pair is
    the best of the states seen. *)
Definition Tracked (seen : list AnnealState) (st : AnnealState) : Prop :=
  In st seen
  /\ st_currentEnergy st = calculateEnergy M this (st_currentParams st) target
  /\ st_bestEnergy st = calculateEnergy M this (st_bestParams st) target
  /\ BestSeen seen (st_bestEnergy st) (st_bestParams st).

(** The best tracker is correct on a run with a callback: the run goes
    through [steps + 1] states and makes [steps] calls; call [i] carries
    the step, the energy of the parameters it reports, and the best pair
    of the states up to step [i]; the reported energies never increase;
    and the value returned is the best pair of the whole run, the one the
    last call reported. *)
Definition BestTrackerCorrect : Prop :=
  exists (traj : list AnnealState) (r : AnnealResult),
    trajectory M random this target steps steps 0 (initialState M this target)
    = Return traj
    /\ runSimulatedAnnealing M random this target steps true = Return r
    /\ List.length traj = S steps
    /\ List.length (progress r) = steps
    /\ (forall i ev, nth_error (progress r) i = Some ev ->
          ev_step ev = i /\ ev_totalSteps ev = steps
          /\ ev_energy ev = calculateEnergy M this (ev_params ev) target
          /\ BestSeen (firstn (S (S i)) traj) (ev_energy ev) (ev_params ev))
    /\ (forall i a b,
          nth_error (progress r) i = Some a ->
          nth_error (progress r) (S i) = Some b ->
          (ev_energy b = ev_energy a /\ ev_params b = ev_params a)
          \/ (ev_energy b <? ev_energy a) = true)
    /\ (exists ev,
          nth_error (progress r) (steps - 1) = Some ev
          /\ returned r = Some (ev_params ev)
          /\ BestSeen traj (ev_energy ev) (ev_params ev)).

End Tracking.

(** ** 4.4, what a run leaves of the engine

    The engine after [applyParams(params)], on the graph [g]. *)
Definition applied (this : Engine) (g : AudioGraph) (params : SynthParams)
  : Engine := {|
  graph := Some {|
    synth_oscillator :=
      if String.eqb (oscillatorType params) EmptyString
      then synth_oscillator g else oscillatorType params;
    env_attack := attack params;
    env_decay := decay params;
    env_sustain := sustain params;
    env_release := release params;
    filter_frequency := filterFreq params;
    filter_Q := filterQ params;
    distortion_amount := distortionAmount params;
    distortion_wet := if 0 <? distortionAmount params then 1 else 0;
    chorus_wet := chorusWet params;
    lfo_amplitude := lfo_amplitude g;
    lfo_frequency := lfo_frequency g |};
  isInitialized := isInitialized this;
  lockedFrequency := lockedFrequency this;
  currentParams := params |}.

(** ** 4.4, the parameter bounds

    filterFreq [200, 8000] Hz, filterQ [0.5, 10], distortionAmount
    [0, 0.8], attack [0.001, 0.5] s, decay [0.01, 1] s, sustain [0.1, 1]. *)
Definition declaredBounds (key : ParamKey) : float * float :=
  match key with
  | K_filterFreq => (200, 8000)
  | K_filterQ => (0.5, 10)
  | K_distortionAmount => (0, 0.8)
  | K_attack => (0.001, 0.5)
  | K_decay => (0.01, 1)
  | K_sustain => (0.1, 1)
  end.

Definition inBounds (key : ParamKey) (v : float) : bool :=
  (fst (declaredBounds key) <=? v) && (v <=? snd (declaredBounds key)).

(** ** 8, annealing boundedness *)

(** [p] comes from [init] by mutations within bounds: every mutable key
    still has its initial value or lies within its declared bounds, and
    the keys outside the mutable set are those of [init]. *)
Definition Bounded (init p : SynthParams) : Prop :=
  (forall key, get_param key p = get_param key init
               \/ inBounds key (get_param key p) = true)
  /\ oscillatorType p = oscillatorType init
  /\ chorusWet p = chorusWet init
  /\ release p = release init
  /\ vibeDepth p = vibeDepth init.

Definition AnnealingBounded (M : MathLib) (random : nat -> float)
    (this : Engine) (target : option Spectrum) (steps : nat) (cb : bool)
  : Prop :=
  exists r best,
    runSimulatedAnnealing M random this target steps cb = Return r
    /\ returned r = Some best
    /\ Bounded (currentParams this) best
    /\ ((forall key,
           inBounds key (get_param key (currentParams this)) = true) ->
        forall key, inBounds key (get_param key best) = true).

(** ** 4.4 and 4.3, side effects and the fundamental *)

(** What a run leaves behind, as the code has it: nothing before
    [initialize]; after it, the best parameters applied to the engine. *)
Definition AppliesBest (M : MathLib) (random : nat -> float)
    (this : Engine) (target : option Spectrum) (steps : nat) (cb : bool)
  : Prop :=
  exists r best g,
    runSimulatedAnnealing M random this target steps cb = Return r
    /\ returned r = Some best
    /\ graph this = Some g
    /\ engine_after r = applied this g best
    /\ currentParams (engine_after r) = best
    /\ lockedFrequency (engine_after r) = lockedFrequency this
    /\ isInitialized (engine_after r) = isInitialized this.

Definition FallsBackTo440 (M : MathLib) (random : nat -> float)
    (this : Engine) (target : option Spectrum) (steps : nat) (cb : bool)
  : Prop :=
  fundamental this = 440
  /\ (forall params,
        estimateSynthSpectrum M this params
        = spectrumOfWidth M 172 params 440)
  /\ (forall params,
        estimateSynthSpectrum M this params
        = estimateSynthSpectrum M (lock this 440) params)
  /\ (ready this = true ->
      (forall n, validDraw (random n) = true) ->
      exists r r' best,
        runSimulatedAnnealing M random this target steps cb = Return r
        /\ runSimulatedAnnealing M random (lock this 440) target steps cb
           = Return r'
        /\ returned r = Some best
        /\ returned r' = Some best
        /\ progress r = progress r').

(** ** 4.2, normalization

    "Scale every sample by [10^(targetDb/20) / peakAbsoluteAmplitude]": the
    peak is the largest absolute sample of all the channels. *)
Definition peakAbsoluteAmplitude (chans : list (list float)) : float :=
  fold_left Math_max (map Math_abs (List.concat chans)) 0.

Definition scaleFactor (M : MathLib) (targetDb : float)
    (chans : list (list float)) : float :=
  Math_pow M 10 (targetDb / 20) / peakAbsoluteAmplitude chans.

Definition scaled (M : MathLib) (targetDb : float)
    (chans : list (list float)) : list (list float) :=
  map (map (fun x => x * scaleFactor M targetDb chans)) chans.

(** What [Float32Array]s hold of these samples: each one rounded to
    binary32. *)
Definition stored (chans : list (list float)) : list (list float) :=
  map (map Math_fround) chans.

(** [out] is [audioBuffer] normalized to [targetDb]: its samples are the
    scaled samples as stored, at the same sample rate; and some sample
    holds the peak, so that [out] holds the rounded product of the peak
    and the scale factor at its place. *)
Definition ScaledAndStored (M : MathLib) (targetDb : float)
    (audioBuffer out : AudioBuffer) : Prop :=
  channels out = stored (scaled M targetDb (channels audioBuffer))
  /\ buf_sampleRate out = buf_sampleRate audioBuffer
  /\ exists c i channelData x,
       nth_error (channels audioBuffer) c = Some channelData
       /\ nth_error channelData i = Some x
       /\ Math_abs x = peakAbsoluteAmplitude (channels audioBuffer)
       /\ get (nth c (channels out) []) i
          = Math_fround (x * scaleFactor M targetDb (channels audioBuffer)).

(** ** 4.2, the silence check *)

(** The silence check of [analyze] on a file that decodes to [buf]: the
    level is that of channel 0 of [buf] itself, the buffer as decoded;
    below -60 the call throws, otherwise it returns a descriptor whose
    buffer is [buf] normalized. *)
Definition SilenceChecked (M : MathLib) (F : FeatureRoutines) (file : File)
    (buf : AudioBuffer) : Prop :=
  exists channelData,
    getChannelData buf 0 = Return channelData
    /\ let dbLevel := linearToDb M (rmsLevel channelData) in
       ((dbLevel <? -60) = true -> analyze M F file = Throw tooQuiet)
       /\ ((dbLevel <? -60) = false ->
           exists d normalized,
             analyze M F file = Return d
             /\ normalizeBuffer M buf NORMALIZE_TARGET_DB = Return normalized
             /\ d_audioBuffer d = normalized).

End Spec.

(* ================================================================== *)
(** * Classes of numbers, and the state of a rounding *)
(* ================================================================== *)

Module Numbers.

Local Open Scope Z_scope.

(** Numbers without a sign: NaN, +0, and the positive numbers. *)
Definition not_negative_sf (a : spec_float) : Prop :=
  match a with
  | S754_nan => True
  | S754_zero s | S754_infinity s | S754_finite s _ _ => s = false
  end.

(** The numbers among them: +0 and the positive numbers, +Infinity
    included. *)
Definition unsigned_number_sf (a : spec_float) : Prop :=
  match a with
  | S754_nan => False
  | S754_zero s | S754_infinity s | S754_finite s _ _ => s = false
  end.

(** [mrs] is what is left of the integer [M] after [k] shifts to the
    right: its mantissa times [2^k], plus half of [2^k] when its round bit
    is set, does not exceed [M]. *)
Definition shifted (M k : Z) (mrs : shr_record) : Prop :=
  0 <= shr_m mrs
  /\ shr_m mrs * 2 ^ k + (if shr_r mrs then 2 ^ (k - 1) else 0) <= M.

(** A positive number [m * 2^e] below the integer [bound]. *)
Definition below (bound : Z) (m : positive) (e : Z) : Prop :=
  if e <? 0 then Zpos m < bound * 2 ^ (- e) else Zpos m * 2 ^ e < bound.

End Numbers.

(* ================================================================== *)
(** * Analyzer: the feature routines *)
(* ================================================================== *)

Module Features.

Import AudioEngine Analyzer.
Local Open Scope float_scope.

(** ** [detectPitch]: the search for the peak

    The test on the frequency of bin [i], and the loop of [detectPitch]
    on its own: the largest magnitude found among the bins
    [1 .. length - 2] that pass the test, and the index of the first bin
    that holds it; [(0, 0)] when no bin qualifies. *)
Definition pitchCandidate (spectrum : Spectrum) (i : nat) : bool :=
  (50 <? get (frequencies spectrum) i) && (get (frequencies spectrum) i <? 2000).

Definition peakSearch (spectrum : Spectrum) : float * nat :=
  let mags := magnitudes spectrum in
  let freqs := frequencies spectrum in
  fold_left
    (fun '(maxMag, peakIdx) i =>
       if (50 <? get freqs i) && (get freqs i <? 2000) then
         if maxMag <? get mags i then (get mags i, i)
         else (maxMag, peakIdx)
       else (maxMag, peakIdx))
    (seq 1 (List.length mags - 2)) (0, O).

(** The value [detectPitch] returns for a peak at an inner bin
    [peakIdx]. *)
Definition interpolatedPitch (spectrum : Spectrum) (peakIdx : nat) : float :=
  let mags := magnitudes spectrum in
  let freqs := frequencies spectrum in
  let y0 := get mags (peakIdx - 1) in
  let y1 := get mags peakIdx in
  let y2 := get mags (peakIdx + 1) in
  let delta := (y0 - y2) / (2 * (y0 - 2 * y1 + y2)) in
  get freqs peakIdx + delta * (get freqs 1 - get freqs 0).

(** ** [computeFFT]: the frequencies

    The array [frequencies] that [computeFFT(samples, sampleRate)] fills
    for [fftSize] samples: [fftSize / 2] elements of a [Float32Array]
    (the length is truncated), element [i] at [i * sampleRate / fftSize].
    It does not depend on the samples; the magnitudes, which do, come
    from the transform. *)
Definition binFrequencies (sampleRate : float) (fftSize : nat) : list float :=
  map (fun i => Math_fround (of_nat i * sampleRate / of_nat fftSize))
      (seq 0 (fftSize / 2)).

(** A spectrum with these frequencies and the magnitudes [mags]. *)
Definition spectrumOf (mags : list float) (sampleRate : float)
    (fftSize : nat) : Spectrum := {|
  magnitudes := mags;
  frequencies := binFrequencies sampleRate fftSize;
  AudioEngine.sampleRate := sampleRate;
  AudioEngine.fftSize := fftSize |}.

(** ** [getDualSnapshots]: the samples of a snapshot

    [getSpectrum(position, fftSize)] up to its call of [computeFFT]: the
    block of samples that is transformed.  [position] and [fftSize] are
    array positions (integers below 2^53, on which the arithmetic of
    numbers is exact); the subtraction of naturals stops at 0, as
    [Math.max(0, ...)] does, and so does the length of a slice. *)
Definition getSpectrumBlock (channelData : list float)
    (position fftSize : nat) : list float :=
  let start := (position - fftSize / 2)%nat in
  let end_ := Nat.min (List.length channelData) (start + fftSize) in
  let slice := firstn (end_ - start) (skipn start channelData) in
  if (List.length slice <? fftSize)%nat
  then slice ++ repeat 0 (fftSize - List.length slice)
  else slice.

(** ** [measureRelease] *)

(** The first loop: the largest absolute sample, and the index of its
    first occurrence. *)
Definition peakIndex (channelData : list float) : float * nat :=
  fold_left
    (fun '(maxAmplitude, maxIdx) i =>
       let abs := Math_abs (get channelData i) in
       if maxAmplitude <? abs then (abs, i) else (maxAmplitude, maxIdx))
    (seq 0 (List.length channelData)) (0, O).

(** The level of the window of [n] samples at [i]: the root of the sum
    of the squares over [windowSize], the window size as a number. *)
Definition windowRms (channelData : list float) (i n : nat)
    (windowSize : float) : float :=
  let sum :=
    fold_left
      (fun windowRms j =>
         windowRms + get channelData (i + j) * get channelData (i + j))
      (seq 0 n) 0 in
  Math_sqrt (sum / windowSize).

(** The scan from window [i] on, for a window of [n >= 1] samples: the
    values of [start6dB] and [end60dB] when the loop is left ([None] is
    -1).  The index grows by [n] at each turn, so [fuel] turns are enough
    when [fuel] is the length of the array. *)
Fixpoint releaseScan (fuel : nat) (channelData : list float) (n : nat)
    (windowSize threshold6dB threshold60dB : float) (i : nat)
    (start6dB : option nat) : option nat * option nat :=
  match fuel with
  | O => (start6dB, None)
  | S fuel' =>
      if (i <? List.length channelData - n)%nat then
        let w := windowRms channelData i n windowSize in
        let start6dB :=
          match start6dB with
          | None => if w <? threshold6dB then Some i else None
          | Some s => Some s
          end in
        match start6dB with
        | Some _ =>
            if w <? threshold60dB then (start6dB, Some i)
            else releaseScan fuel' channelData n windowSize
                   threshold6dB threshold60dB (i + n) start6dB
        | None =>
            releaseScan fuel' channelData n windowSize
              threshold6dB threshold60dB (i + n) start6dB
        end
      else (start6dB, None)
  end.

(** What is returned once the loop is left. *)
Definition releaseTime (sampleRate : float) (found : option nat * option nat)
  : float :=
  match found with
  | (Some start6dB, Some end60dB) =>
      let releaseTime := (of_nat end60dB - of_nat start6dB) / sampleRate in
      Math_max 0.01 (Math_min 5 releaseTime)
  | _ => 0.5
  end.

(** [measureRelease(audioBuffer)]; the result is [None] when the loop
    never ends.  The window size [Math.floor(sampleRate * 0.01)] is

    - an integer [>= 1] for every sample rate from 100 Hz on: the scan;
    - 0 below 100 Hz: the level of an empty window is NaN and the index
      does not advance, so the loop does not end unless the array is
      empty;
    - NaN or Infinity: the loop condition is false at once;
    - negative: no sample is read, the level of every window is
      [sqrt(0 / windowSize)], and the loop is left at its first turn or
      never. *)
Definition measureRelease (M : MathLib) (audioBuffer : AudioBuffer)
  : outcome (option float) :=
  channelData <- getChannelData audioBuffer 0 ;;
  let sampleRate := buf_sampleRate audioBuffer in
  let '(maxAmplitude, maxIdx) := peakIndex channelData in
  let threshold6dB := maxAmplitude * dbToLinear M (-6) in
  let threshold60dB := maxAmplitude * dbToLinear M (-60) in
  let windowSize := Math_floor (sampleRate * 0.01) in
  match array_index windowSize with
  | Some z =>
      if (1 <=? z)%Z then
        Return (Some (releaseTime sampleRate
                        (releaseScan (List.length channelData) channelData
                           (Z.to_nat z) windowSize
                           threshold6dB threshold60dB maxIdx None)))
      else if (maxIdx <? List.length channelData)%nat then Return None
      else Return (Some 0.5)
  | None =>
      if is_nan windowSize || (0 <? windowSize) then Return (Some 0.5)
      else
        let w := Math_sqrt (0 / windowSize) in
        if (w <? threshold6dB) && (w <? threshold60dB)
        then Return (Some (releaseTime sampleRate (Some maxIdx, Some maxIdx)))
        else Return None
  end.

(** ** [get90thPercentileAmplitude] *)

(** The levels of the windows of 512 samples at 0, 512, ... below
    [length - 512], appended to [amplitudes]. *)
Fixpoint windowLevels (fuel : nat) (channelData : list float) (i : nat)
    (amplitudes : list float) : list float :=
  match fuel with
  | O => amplitudes
  | S fuel' =>
      if (i <? List.length channelData - 512)%nat
      then windowLevels fuel' channelData (i + 512)
             (amplitudes ++ [windowRms channelData i 512 512])
      else amplitudes
  end.

(** [amplitudes.sort((a, b) => a - b)].  [Array.prototype.sort] is
    stable, so for a comparator that is consistent (here: no level is
    NaN) the result is the one of an insertion sort: each element goes
    before the first one that the comparator puts after it.  With NaN
    levels the order is left to the implementation. *)
Fixpoint insertSorted (x : float) (sorted : list float) : list float :=
  match sorted with
  | [] => [x]
  | h :: t => if 0 <? h - x then x :: h :: t else h :: insertSorted x t
  end.

Definition sortAscending (l : list float) : list float :=
  fold_left (fun sorted x => insertSorted x sorted) l [].

(** [amplitudes[idx]] in [amplitudes[idx] || 0.5]: [undefined] is falsy,
    as NaN is. *)
Definition elementAt (l : list float) (idx : float) : float :=
  match array_index idx with
  | Some z => if (z <? Z.of_nat (List.length l))%Z then get l (Z.to_nat z)
              else nan
  | None => nan
  end.

Definition get90thPercentileAmplitude (audioBuffer : AudioBuffer)
  : outcome float :=
  channelData <- getChannelData audioBuffer 0 ;;
  let amplitudes :=
    sortAscending (windowLevels (List.length channelData) channelData 0 []) in
  let idx := Math_floor (of_nat (List.length amplitudes) * 0.9) in
  let amplitude := elementAt amplitudes idx in
  Return (if truthy amplitude then amplitude else 0.5).

(** ** [computeGatekeepers] *)

(** Whether some bin within 20 Hz of [targetFreq] is above
    [threshold]. *)
Definition harmonicFound (spectrum : Spectrum) (threshold targetFreq : float)
  : bool :=
  existsb
    (fun i =>
       (Math_abs (get (frequencies spectrum) i - targetFreq) <? 20)
       && (threshold <? get (magnitudes spectrum) i))
    (seq 0 (List.length (frequencies spectrum))).

(** [countHarmonics(spectrum, fundamental)]: how many of the harmonics
    2..8 are found above a tenth of [Math.max(...magnitudes)]. *)
Definition countHarmonics (spectrum : Spectrum) (fundamental : float) : nat :=
  let threshold :=
    fold_left Math_max (magnitudes spectrum) neg_infinity * 0.1 in
  List.length
    (filter (fun h => harmonicFound spectrum threshold (fundamental * of_nat h))
            (seq 2 7)).

Definition spectralFlatness (M : MathLib) (spectrum : Spectrum) : float :=
  let mags := magnitudes spectrum in
  let logMean :=
    fold_left (fun a b => a + Math_log M (b + 1e-10)) mags 0
    / of_nat (List.length mags) in
  let arithmeticMean :=
    fold_left (fun a b => a + b) mags 0 / of_nat (List.length mags) in
  Math_exp M logMean / (arithmeticMean + 1e-10).

Definition computeSpread (M : MathLib) (spectrum : Spectrum) : float :=
  let mags := magnitudes spectrum in
  let freqs := frequencies spectrum in
  let total := fold_left (fun a b => a + b) mags 0 in
  if total =? 0 then 0
  else
    let centroid :=
      fold_left (fun centroid i => centroid + get freqs i * get mags i)
                (seq 0 (List.length mags)) 0
      / total in
    let spread :=
      fold_left
        (fun spread i =>
           spread + get mags i * Math_pow M (get freqs i - centroid) 2)
        (seq 0 (List.length mags)) 0 in
    Math_sqrt (spread / total).

(** [computeGatekeepers(snapshots)]: [(isFM, isOrganic, isWide)]. *)
Definition computeGatekeepers (M : MathLib) (snapshots : Snapshots)
  : bool * bool * bool :=
  let fundamentalFreq := detectPitch (pitch (early snapshots)) in
  let harmonics := countHarmonics (pitch (early snapshots)) fundamentalFreq in
  let isFM := (4 <=? harmonics)%nat in
  let flatness := spectralFlatness M (texture (early snapshots)) in
  let isOrganic := 0.1 <? flatness in
  let spread := computeSpread M (texture (early snapshots)) in
  let isWide := 500 <? spread in
  (isFM, isOrganic, isWide).

End Features.

(* ================================================================== *)
(** * The analyzer object *)
(* ================================================================== *)

Module AnalyzerObject.

Import AudioEngine Analyzer.
Local Open Scope float_scope.

(** An [AudioContext]: the model reads nothing of it but its presence. *)
Inductive AudioContext : Type := WebAudioContext.

(** [this]: [audioContext] and [results], both [null] in a new
    analyzer. *)
Record AnalyzerState : Type := {
  audioContext : option AudioContext;
  results : option Descriptor
}.

Definition constructor : AnalyzerState :=
  {| audioContext := None; results := None |}.

(** [initialize()]: a context is made unless there is one. *)
Definition initialize (this : AnalyzerState) : AnalyzerState := {|
  audioContext :=
    match audioContext this with
    | Some context => Some context
    | None => Some WebAudioContext
    end;
  results := results this |}.

(** [normalizeBuffer(audioBuffer, targetDb)].  The loop over the samples
    and the silence test come first; [this.audioContext.createBuffer]
    then throws a [TypeError] when the context is [null].  The buffer it
    makes has the channel count, the length and the sample rate of
    [audioBuffer], and [copyToChannel] fills it with the scaled copies. *)
Definition normalizeBuffer (this : AnalyzerState) (M : MathLib)
    (audioBuffer : AudioBuffer) (targetDb : float) : outcome AudioBuffer :=
  let maxAmplitude := peakAmplitude (channels audioBuffer) in
  if maxAmplitude =? 0 then Throw appearsSilent
  else
    let targetLinear := dbToLinear M targetDb in
    let gain := targetLinear / maxAmplitude in
    let copies :=
      map (map (fun x => Math_fround (x * gain))) (channels audioBuffer) in
    match audioContext this with
    | None => Throw TypeError
    | Some _ =>
        Return {| channels := copies;
                  buf_sampleRate := buf_sampleRate audioBuffer |}
    end.

(** [analyze(file)], with the state of the object and the feature
    routines of [Features]; [getDualSnapshots] stands for the snapshots
    of the transform.  The result is the analyzer after the call and what
    the call returns or throws; [Return None] is a call that never
    returns (the loop of [measureRelease]).  [this.results] is set when
    the call returns a descriptor. *)
Definition analyze (M : MathLib)
    (getDualSnapshots : AudioBuffer -> Snapshots)
    (this : AnalyzerState) (file : File)
  : AnalyzerState * outcome (option Descriptor) :=
  let this := initialize this in
  let result :=
    _ <- validateFile file ;;
    audioBuffer <- decoded file ;;
    _ <- checkSilence M audioBuffer ;;
    audioBuffer <- normalizeBuffer this M audioBuffer NORMALIZE_TARGET_DB ;;
    let snapshots := getDualSnapshots audioBuffer in
    let pitchHz := detectPitch (pitch (early snapshots)) in
    let detectedOctave := frequencyToOctave M pitchHz in
    detectedRelease <- Features.measureRelease M audioBuffer ;;
    match detectedRelease with
    | None => Return None
    | Some detectedRelease =>
        amplitude <- Features.get90thPercentileAmplitude audioBuffer ;;
        let '(isFM, isOrganic, isWide) :=
          Features.computeGatekeepers M snapshots in
        Return (Some {|
          d_pitchHz := pitchHz;
          d_detectedOctave := detectedOctave;
          d_detectedRelease := detectedRelease;
          d_amplitude := amplitude;
          d_isFM := isFM;
          d_isOrganic := isOrganic;
          d_isWide := isWide;
          d_snapshots := snapshots;
          d_audioBuffer := audioBuffer |})
    end in
  match result with
  | Return (Some d) =>
      ({| audioContext := audioContext this; results := Some d |}, result)
  | _ => (this, result)
  end.

(** [getResults()]. *)
Definition getResults (this : AnalyzerState) : option Descriptor :=
  results this.

(** [getSpectrum()]. *)
Definition getSpectrum (this : AnalyzerState) : option Spectrum :=
  match results this with
  | None => None
  | Some r => Some (pitch (early (d_snapshots r)))
  end.

(** What a call of [analyze] on a file that decodes to [buf] leaves when
    all goes well: the analyzer has its context and holds the descriptor,
    which [getResults] and [getSpectrum] read; the release is within
    [0.01, 5] seconds, the amplitude is neither 0 nor NaN, and the buffer
    is [buf] normalized, with its channel lengths and its sample rate. *)
Definition ReturnsInRange (M : MathLib)
    (getDualSnapshots : AudioBuffer -> Snapshots)
    (this : AnalyzerState) (file : File) (buf : AudioBuffer) : Prop :=
  exists this' d,
    analyze M getDualSnapshots this file
    = (this', Return (Some d))
    /\ audioContext this' <> None
    /\ getResults this' = Some d
    /\ getSpectrum this' = Some (pitch (early (d_snapshots d)))
    /\ (0.01 <=? d_detectedRelease d) = true
    /\ (d_detectedRelease d <=? 5) = true
    /\ truthy (d_amplitude d) = true
    /\ normalizeBuffer (initialize this) M buf
         NORMALIZE_TARGET_DB = Return (d_audioBuffer d)
    /\ map (@List.length float) (channels (d_audioBuffer d))
       = map (@List.length float) (channels buf)
    /\ buf_sampleRate (d_audioBuffer d) = buf_sampleRate buf.

End AnalyzerObject.

(* ================================================================== *)
(** * The engine and its parameter object *)
(* ================================================================== *)

Module Settings.

Import AudioEngine.
Local Open Scope float_scope.

(** The numeric node settings that [applyParams] writes are those of the
    parameter object [p]. *)
Definition mirrors (g : AudioGraph) (p : SynthParams) : Prop :=
  env_attack g = attack p
  /\ env_decay g = decay p
  /\ env_sustain g = sustain p
  /\ env_release g = release p
  /\ filter_frequency g = filterFreq p
  /\ filter_Q g = filterQ p
  /\ distortion_amount g = distortionAmount p
  /\ chorus_wet g = chorusWet p.

(** The nodes of the engine are built and mirror [currentParams]. *)
Definition inStep (this : Engine) : Prop :=
  exists g, graph this = Some g /\ mirrors g (currentParams this).

(** [g] with other LFO settings. *)
Definition with_lfo (g : AudioGraph) (amplitude frequency : float)
  : AudioGraph := {|
  synth_oscillator := synth_oscillator g;
  env_attack := env_attack g; env_decay := env_decay g;
  env_sustain := env_sustain g; env_release := env_release g;
  filter_frequency := filter_frequency g; filter_Q := filter_Q g;
  distortion_amount := distortion_amount g;
  distortion_wet := distortion_wet g;
  chorus_wet := chorus_wet g;
  lfo_amplitude := amplitude;
  lfo_frequency := frequency |}.

(** The rate [setVibe(vibeType)] leaves the LFO at. *)
Definition vibeRate (vibeType : string) (g : AudioGraph) : float :=
  if String.eqb vibeType "modern" then 6
  else if String.eqb vibeType "vintage" then 4
  else lfo_frequency g.

(** The keys that [estimateSynthSpectrum] does not read. *)
Definition envelopeKey (key : ParamKey) : bool :=
  match key with
  | K_attack | K_decay | K_sustain => true
  | _ => false
  end.

(** ** Statements about runs and calls *)

(** A run returns a parameter set whose energy is not above the energy
    of the set it started from. *)
Definition NeverWorse (M : MathLib) (random : nat -> float) (this : Engine)
    (target : option Spectrum) (steps : nat) (cb : bool) : Prop :=
  exists r best,
    runSimulatedAnnealing M random this target steps cb = Return r
    /\ returned r = Some best
    /\ (calculateEnergy M this (currentParams this) target
        <? calculateEnergy M this best target) = false.

(** The energy ignores the envelope keys, and a step of the run that
    mutates one of them changes neither the energy of the current state
    nor the best pair. *)
Definition EnvelopeNeutral (M : MathLib) (random : nat -> float)
    (this : Engine) (target : option Spectrum) (steps : nat) : Prop :=
  (forall key v p,
     envelopeKey key = true ->
     calculateEnergy M this (set_param key v p) target
     = calculateEnergy M this p target)
  /\ exists traj,
       trajectory M random this target steps steps 0
         (initialState M this target) = Return traj
       /\ forall k a b key,
            nth_error traj k = Some a -> nth_error traj (S k) = Some b ->
            keyToMutate (random (st_draws a)) = Some key ->
            envelopeKey key = true ->
            st_currentEnergy b = st_currentEnergy a
            /\ st_bestEnergy b = st_bestEnergy a
            /\ st_bestParams b = st_bestParams a.

(** What [configure(a)] does to an engine. *)
Definition Configured (this : Engine) (a : AnalysisResults) : Prop :=
  exists this',
    configure this a = Return this'
    /\ inStep this'
    /\ (isInitialized this = true ->
        release (currentParams this') = detectedRelease a
        /\ lockedFrequency this' = pitchHz a
        /\ chorusWet (currentParams this')
           = (if isWide a then 0.5 else chorusWet (currentParams this)))
    /\ (isInitialized this = false -> this' = this).

(** What the vibes 'modern' and 'vintage' do to an engine with the nodes
    [g]. *)
Definition VibeCapped (this : Engine) (g : AudioGraph) : Prop :=
  exists m v gm gv,
    setVibe this "modern" = Return m
    /\ graph m = Some gm
    /\ setVibe this "vintage" = Return v
    /\ graph v = Some gv
    /\ (distortion_amount gm <=? 0.3) = true
    /\ (chorus_wet gv <=? 0.7) = true
    /\ currentParams m = currentParams this
    /\ currentParams v = currentParams this
    /\ distortion_wet gm = distortion_wet g
    /\ distortion_wet gv = distortion_wet g.

(** Every draw selects a key, and the run returns a parameter set, after
    one call of the callback per step when there is one. *)
Definition Completes (M : MathLib) (random : nat -> float) (this : Engine)
    (target : option Spectrum) (steps : nat) (cb : bool) : Prop :=
  (forall n, exists key, keyToMutate (random n) = Some key)
  /\ exists r best,
       runSimulatedAnnealing M random this target steps cb = Return r
       /\ returned r = Some best
       /\ List.length (progress r) = (if cb then steps else 0%nat).

(** The keys that no mutation touches. *)
Definition sameFrame (p q : SynthParams) : Prop :=
  oscillatorType p = oscillatorType q
  /\ chorusWet p = chorusWet q
  /\ release p = release q
  /\ vibeDepth p = vibeDepth q.

(** The acceptance rule of one iteration from the state [st]: a trial
    with an energy below the current one is accepted without a third
    draw; any other trial is accepted exactly when the third draw is
    below [exp(-delta / temp)]. *)
Definition Metropolis (M : MathLib) (random : nat -> float) (this : Engine)
    (target : option Spectrum) (steps step : nat) (st : AnnealState) : Prop :=
  forall key,
    keyToMutate (random (st_draws st)) = Some key ->
    let newParams :=
      set_param key
        (mutate key (random (S (st_draws st))) (temperature M steps step)
           (get_param key (st_currentParams st)))
        (st_currentParams st) in
    let newEnergy := calculateEnergy M this newParams target in
    exists st',
      annealStep M random this target steps step st = Return st'
      /\ if newEnergy <? st_currentEnergy st
         then st_currentParams st' = newParams
              /\ st_currentEnergy st' = newEnergy
              /\ st_draws st' = (2 + st_draws st)%nat
         else st_draws st' = (3 + st_draws st)%nat
              /\ st_currentParams st'
                 = if random (2 + st_draws st)%nat
                      <? Math_exp M (- (newEnergy - st_currentEnergy st)
                                     / temperature M steps step)
                   then newParams else st_currentParams st.

(** [configure(a)] and then a run: what the analysis set is still there
    in the parameter set returned and in the engine. *)
Definition SurvivesAnnealing (M : MathLib) (random : nat -> float)
    (this : Engine) (a : AnalysisResults) (target : option Spectrum)
    (steps : nat) (cb : bool) : Prop :=
  exists configured r best g,
    configure this a = Return configured
    /\ runSimulatedAnnealing M random configured target steps cb = Return r
    /\ returned r = Some best
    /\ sameFrame (currentParams configured) best
    /\ release best = detectedRelease a
    /\ (isWide a = true -> chorusWet best = 0.5)
    /\ graph (engine_after r) = Some g
    /\ env_release g = detectedRelease a
    /\ (isWide a = true -> chorus_wet g = 0.5)
    /\ lockedFrequency (engine_after r) = pitchHz a.

End Settings.

(* ================================================================== *)
(** * More inputs *)
(* ================================================================== *)

Module Samples.

Import AudioEngine Analyzer Inputs.
Local Open Scope float_scope.

(** A mono buffer that is not silent, and a file that decodes to it. *)
Definition loudBuffer : AudioBuffer :=
  {| channels := [[0.5; -0.25; 0.125; 0]]; buf_sampleRate := 48000 |}.
Definition loudFile : File :=
  {| size := 52; decoded := Return loudBuffer |}.

(** 50 samples at 1 kHz (windows of 10 samples): a burst at full scale,
    then a tenth of it, then silence. *)
Definition decayBuffer : AudioBuffer :=
  {| channels := [repeat 1 10 ++ repeat 0.1 10 ++ repeat 0 30];
     buf_sampleRate := 1000 |}.

Definition decayFile : File :=
  {| size := 244; decoded := Return decayBuffer |}.

(** 1100 samples: two windows of 512 samples, at 0.125 and at 0.25, and
    a rest that is not measured. *)
Definition twoWindowsData : list float :=
  repeat 0.125 512 ++ repeat 0.25 512 ++ repeat 1 76.
Definition twoWindows : AudioBuffer :=
  {| channels := [twoWindowsData]; buf_sampleRate := 48000 |}.

(** Snapshots that hold one spectrum four times. *)
Definition snapshotsOf (s : Spectrum) : Snapshots :=
  {| early := {| pitch := s; texture := s |};
     late := {| pitch := s; texture := s |} |}.

(** The spectrum of silence: 8 bins at 0. *)
Definition silentSpectrum : Spectrum := spectrum48k (repeat 0 8).

(** An analyzer after [initialize]. *)
Definition readyAnalyzer : AnalyzerObject.AnalyzerState :=
  AnalyzerObject.initialize AnalyzerObject.constructor.

End Samples.

(* ================================================================== *)
(** * Facts about numbers *)
(* ================================================================== *)

Module FloatFacts.

Import Js.
Local Open Scope float_scope.

Ltac cmp_cases :=
  repeat match goal with
  | |- context [Pos.compare_cont Eq ?a ?b] =>
      change (Pos.compare_cont Eq a b) with (Pos.compare a b)
  | H : context [Pos.compare_cont Eq ?a ?b] |- _ =>
      change (Pos.compare_cont Eq a b) with (Pos.compare a b) in H
  end;
  repeat match goal with
  | |- context [Z.compare ?a ?b] => destruct (Z.compare_spec a b)
  | H : context [Z.compare ?a ?b] |- _ => destruct (Z.compare_spec a b)
  | |- context [Pos.compare ?a ?b] => destruct (Pos.compare_spec a b)
  | H : context [Pos.compare ?a ?b] |- _ => destruct (Pos.compare_spec a b)
  end;
  simpl in *; try discriminate; try reflexivity; try lia.

Ltac bools := repeat match goal with b : bool |- _ => destruct b end.

Lemma SFcompare_refl (a : spec_float) :
  a <> S754_nan -> SFcompare a a = Some Eq.
Proof.
  destruct a as [s | s | | s m e]; simpl; intros H; try congruence.
  - destruct s; reflexivity.
  - destruct s; cmp_cases.
Qed.

Lemma SFcompare_nan_l (a : spec_float) : SFcompare S754_nan a = None.
Proof. reflexivity. Qed.

Lemma SFcompare_nan_r (a : spec_float) : SFcompare a S754_nan = None.
Proof. destruct a; reflexivity. Qed.

Lemma SFcompare_some (a b : spec_float) :
  a <> S754_nan -> b <> S754_nan -> exists c, SFcompare a b = Some c.
Proof.
  destruct a, b; simpl; intros; try congruence; eauto.
Qed.

Lemma SFcompare_antisym (a b : spec_float) :
  SFcompare b a = option_map CompOpp (SFcompare a b).
Proof.
  destruct a as [s | s | | s m e], b as [s' | s' | | s' m' e']; simpl;
    try reflexivity; bools; simpl; try reflexivity; cmp_cases.
Qed.

Lemma SFcompare_Lt_trans (a b c : spec_float) :
  SFcompare a b = Some Lt -> SFcompare b c = Some Lt -> SFcompare a c = Some Lt.
Proof.
  destruct a as [s | s | | s m e], b as [s' | s' | | s' m' e'],
    c as [s'' | s'' | | s'' m'' e'']; simpl;
    try discriminate; try (intros _ _; reflexivity);
    bools; simpl; try discriminate; try (intros _ _; reflexivity);
    intros H1 H2; cmp_cases.
Qed.

(** The order on numbers. *)
Lemma ltb_irrefl (x : float) : (x <? x) = false.
Proof.
  rewrite ltb_spec. unfold SFltb.
  destruct (Prim2SF x) as [s | s | | s m e] eqn:E;
    try (rewrite SFcompare_refl by discriminate); reflexivity.
Qed.

Lemma ltb_trans (x y z : float) :
  (x <? y) = true -> (y <? z) = true -> (x <? z) = true.
Proof.
  rewrite !ltb_spec. unfold SFltb.
  destruct (SFcompare (Prim2SF x) (Prim2SF y)) as [[]|] eqn:E1; try discriminate.
  destruct (SFcompare (Prim2SF y) (Prim2SF z)) as [[]|] eqn:E2; try discriminate.
  intros _ _. now rewrite (SFcompare_Lt_trans _ _ _ E1 E2).
Qed.

Lemma ltb_leb (x y : float) : (x <? y) = true -> (x <=? y) = true.
Proof.
  rewrite ltb_spec, leb_spec. unfold SFltb, SFleb.
  destruct (SFcompare (Prim2SF x) (Prim2SF y)) as [[]|]; congruence.
Qed.

Lemma is_nan_sf (x : float) :
  is_nan x = true <-> Prim2SF x = S754_nan.
Proof.
  unfold is_nan. rewrite eqb_spec. unfold SFeqb. split.
  - destruct (Prim2SF x) eqn:E; try reflexivity;
      rewrite SFcompare_refl by discriminate; discriminate.
  - intros ->. reflexivity.
Qed.

Lemma is_nan_false_sf (x : float) :
  is_nan x = false <-> Prim2SF x <> S754_nan.
Proof.
  rewrite <- is_nan_sf. destruct (is_nan x); split; congruence.
Qed.

Lemma is_nan_eq (x : float) : is_nan x = true -> x = nan.
Proof.
  intros H. apply Prim2SF_inj. apply is_nan_sf in H. now rewrite H.
Qed.

(** Two numbers neither of which is NaN are comparable. *)
Lemma not_ltb_leb (x y : float) :
  is_nan x = false -> is_nan y = false ->
  (x <? y) = false -> (y <=? x) = true.
Proof.
  rewrite !is_nan_false_sf, ltb_spec, leb_spec. unfold SFltb, SFleb.
  intros Hx Hy. rewrite (SFcompare_antisym (Prim2SF x) (Prim2SF y)).
  destruct (SFcompare_some _ _ Hx Hy) as [c ->]. destruct c; simpl; congruence.
Qed.

Lemma leb_refl (x : float) : is_nan x = false -> (x <=? x) = true.
Proof.
  rewrite is_nan_false_sf, leb_spec. unfold SFleb. intros H.
  now rewrite SFcompare_refl.
Qed.

Lemma leb_not_nan (x y : float) :
  (x <=? y) = true -> is_nan x = false /\ is_nan y = false.
Proof.
  rewrite !is_nan_false_sf, leb_spec. unfold SFleb. intros H.
  split; intros E; rewrite E in H;
    [rewrite SFcompare_nan_l in H | rewrite SFcompare_nan_r in H]; discriminate.
Qed.

Lemma ltb_not_nan (x y : float) :
  (x <? y) = true -> is_nan x = false /\ is_nan y = false.
Proof. intros H. apply leb_not_nan, ltb_leb, H. Qed.


(** ** Classes of numbers *)

Lemma is_infinity_sf (x : float) :
  is_infinity x = true <-> exists s, Prim2SF x = S754_infinity s.
Proof.
  unfold is_infinity. rewrite eqb_spec, abs_spec.
  change (Prim2SF infinity) with (S754_infinity false). unfold SFeqb.
  destruct (Prim2SF x) as [s | s | | s m e]; simpl; split;
    try discriminate; try (intros [s' H]; discriminate); eauto.
Qed.

Lemma is_finite_sf (x : float) :
  is_finite x = true <-> finite_sf (Prim2SF x).
Proof.
  unfold is_finite. rewrite negb_true_iff, orb_false_iff.
  rewrite is_nan_false_sf.
  split.
  - intros [Hn Hi]. destruct (Prim2SF x) as [s | s | | s m e] eqn:E; simpl; auto.
    assert (is_infinity x = true) by (apply is_infinity_sf; eauto). congruence.
  - intros H. split.
    + intros E. rewrite E in H. exact H.
    + destruct (is_infinity x) eqn:E; [| reflexivity].
      apply is_infinity_sf in E. destruct E as [s E]. rewrite E in H. destruct H.
Qed.

Lemma is_zero_sf (x : float) :
  is_zero x = true <-> exists s, Prim2SF x = S754_zero s.
Proof.
  unfold is_zero. rewrite eqb_spec.
  change (Prim2SF zero) with (S754_zero false). unfold SFeqb.
  destruct (Prim2SF x) as [s | s | | s m e]; simpl; split;
    try discriminate; try (intros [s' H]; discriminate); eauto;
    destruct s; discriminate.
Qed.

Lemma nonzero_finite_sf (x : float) :
  is_finite x = true -> is_zero x = false -> nonzero_sf (Prim2SF x).
Proof.
  rewrite is_finite_sf. intros Hf Hz.
  destruct (Prim2SF x) as [s | s | | s m e] eqn:E; simpl in *; auto.
  assert (is_zero x = true) by (apply is_zero_sf; eauto). congruence.
Qed.

(** A number between two finite numbers is finite. *)
Lemma between_finite (lo hi x : float) :
  is_finite lo = true -> is_finite hi = true ->
  (lo <=? x) = true -> (x <=? hi) = true -> is_finite x = true.
Proof.
  rewrite !is_finite_sf, !leb_spec. unfold SFleb.
  destruct (Prim2SF lo) as [s | s | | s m e], (Prim2SF hi) as [s' | s' | | s' m' e'],
    (Prim2SF x) as [s'' | s'' | | s'' m'' e'']; simpl; try tauto; bools; simpl;
    try discriminate; try tauto.
Qed.

(** ** Rounding never yields NaN *)

Lemma shr_1_nonneg (mrs : shr_record) :
  (0 <= shr_m mrs)%Z -> (0 <= shr_m (shr_1 mrs))%Z.
Proof.
  destruct mrs as [m r s]. simpl.
  destruct m as [| [p | p |] | p]; simpl; lia.
Qed.

Lemma iter_shr_1_nonneg (p : positive) : forall mrs,
  (0 <= shr_m mrs)%Z -> (0 <= shr_m (iter_pos shr_1 p mrs))%Z.
Proof.
  induction p as [p IH | p IH |]; intros mrs H; simpl.
  - apply IH, IH, shr_1_nonneg, H.
  - apply IH, IH, H.
  - apply shr_1_nonneg, H.
Qed.

Lemma shr_fexp_nonneg (prec emax m e : Z) (l : location) :
  (0 <= m)%Z -> (0 <= shr_m (fst (shr_fexp prec emax m e l)))%Z.
Proof.
  intros H. unfold shr_fexp, shr.
  assert (0 <= shr_m (shr_record_of_loc m l))%Z as H0
    by (destruct l as [| []]; exact H).
  destruct (fexp prec emax (Zdigits2 m + e) - e)%Z; simpl; auto.
  apply iter_shr_1_nonneg, H0.
Qed.

Lemma round_nearest_even_nonneg (m : Z) (l : location) :
  (0 <= m)%Z -> (0 <= round_nearest_even m l)%Z.
Proof.
  intros H. destruct l as [| []]; simpl; try lia.
  destruct (Z.even m); lia.
Qed.

Lemma binary_round_aux_not_nan (prec emax : Z) (s : bool) (m e : Z)
    (l : location) :
  (0 <= m)%Z -> binary_round_aux prec emax s m e l <> S754_nan.
Proof.
  intros H. unfold binary_round_aux.
  pose proof (shr_fexp_nonneg prec emax m e l H) as H1.
  destruct (shr_fexp prec emax m e l) as [mrs' e']. simpl in H1.
  pose proof (shr_fexp_nonneg prec emax
                (round_nearest_even (shr_m mrs') (loc_of_shr_record mrs'))
                e' loc_Exact (round_nearest_even_nonneg _ _ H1)) as H2.
  destruct (shr_fexp prec emax _ e' loc_Exact) as [mrs'' e'']. simpl in H2.
  destruct (shr_m mrs''); try lia; try discriminate.
  destruct (e'' <=? emax - prec)%Z; discriminate.
Qed.

Lemma binary_normalize_not_nan (prec emax m e : Z) (sz : bool) :
  binary_normalize prec emax m e sz <> S754_nan.
Proof.
  unfold binary_normalize, binary_round.
  destruct m; try discriminate;
    destruct (shl_align _ _ _); apply binary_round_aux_not_nan; lia.
Qed.

Lemma add_not_nan (a b : float) :
  is_finite a = true -> is_nan b = false -> is_nan (a + b) = false.
Proof.
  rewrite is_finite_sf, !is_nan_false_sf, add_spec. unfold SF64add, SFadd.
  destruct (Prim2SF a) as [s | s | | s m e], (Prim2SF b) as [s' | s' | | s' m' e'];
    simpl; try tauto; intros _ _; try discriminate.
  - bools; discriminate.
  - apply binary_normalize_not_nan.
Qed.

Lemma sub_not_nan (a b : float) :
  is_nan a = false -> is_finite b = true -> is_nan (a - b) = false.
Proof.
  rewrite is_finite_sf, !is_nan_false_sf, sub_spec. unfold SF64sub, SFsub.
  destruct (Prim2SF a) as [s | s | | s m e], (Prim2SF b) as [s' | s' | | s' m' e'];
    simpl; try tauto; intros _ _; try discriminate.
  - bools; discriminate.
  - apply binary_normalize_not_nan.
Qed.

Lemma mul_not_nan (a b : float) :
  is_nan a = false -> is_finite b = true -> is_zero b = false ->
  is_nan (a * b) = false.
Proof.
  intros Ha Hb Hz. pose proof (nonzero_finite_sf b Hb Hz) as Hn.
  revert Ha. rewrite !is_nan_false_sf, mul_spec. unfold SF64mul, SFmul.
  destruct (Prim2SF a) as [s | s | | s m e], (Prim2SF b) as [s' | s' | | s' m' e'];
    simpl in *; try tauto; intros _; try discriminate.
  apply binary_round_aux_not_nan. lia.
Qed.

(** ** Integers as numbers *)

Lemma digits2_pos_size (p : positive) : digits2_pos p = Pos.size p.
Proof. induction p; simpl; congruence. Qed.

Lemma digits2_pos_iter (q p : positive) :
  digits2_pos (Pos.iter xO p q) = (digits2_pos p + q)%positive.
Proof.
  revert p. induction q using Pos.peano_ind; intros p.
  - simpl. lia.
  - rewrite Pos.iter_succ. simpl. rewrite IHq. lia.
Qed.

Lemma binary_round_aux_canonical (s : bool) (m : positive) (e : Z) :
  fexp prec emax (Zpos (digits2_pos m) + e) = e ->
  (e <= emax - prec)%Z ->
  binary_round_aux prec emax s (Zpos m) e loc_Exact = S754_finite s m e.
Proof.
  intros Hc He. unfold binary_round_aux, shr_fexp.
  cbn [Zdigits2 shr_record_of_loc]. rewrite Hc, Z.sub_diag.
  cbn [shr shr_m loc_of_shr_record round_nearest_even Zdigits2 shr_record_of_loc].
  rewrite Hc, Z.sub_diag. cbn [shr shr_m].
  apply Z.leb_le in He. now rewrite He.
Qed.

Lemma of_pos_finite (p : positive) :
  (Zpos p < 2 ^ 53)%Z ->
  exists m e, binary_normalize prec emax (Zpos p) 0 false = S754_finite false m e.
Proof.
  intros Hp. unfold binary_normalize, binary_round.
  assert (Zpos (digits2_pos p) <= 53)%Z as Hd.
  { rewrite digits2_pos_size.
    destruct (Z.le_gt_cases (Zpos (Pos.size p)) 53) as [H | H]; [exact H |].
    exfalso. pose proof (Pos.size_le p) as Hs.
    apply Pos2Z.pos_le_pos in Hs. rewrite Pos2Z.inj_pow in Hs.
    assert (2 ^ 54 <= 2 ^ Zpos (Pos.size p))%Z
      by (apply Z.pow_le_mono_r; lia).
    change (2 ^ 54)%Z with (2 * 2 ^ 53)%Z in *. lia. }
  assert (fexp prec emax (Zpos (digits2_pos p) + 0) = Zpos (digits2_pos p) - 53)%Z as Hf.
  { unfold fexp, emin, prec, emax. lia. }
  rewrite Hf. unfold shl_align.
  destruct (Zpos (digits2_pos p) - 53 - 0)%Z as [| q | q] eqn:Eq; try lia.
  - exists p, 0%Z. apply binary_round_aux_canonical.
    + rewrite Hf. lia.
    + unfold emax, prec. lia.
  - eexists _, _. apply binary_round_aux_canonical.
    + rewrite digits2_pos_iter. unfold fexp, emin, prec, emax. lia.
    + unfold emax, prec. lia.
Qed.

Lemma of_nat_finite_pos (n : nat) :
  (1 <= n)%nat -> (Z.of_nat n < 2 ^ 53)%Z ->
  exists m e, Prim2SF (of_nat n) = S754_finite false m e.
Proof.
  intros H1 H2. unfold of_nat. rewrite of_uint63_spec, Uint63.of_Z_spec.
  rewrite Z.mod_small.
  - destruct (Z.of_nat n) as [| p | p] eqn:E; try lia.
    apply of_pos_finite. lia.
  - split; [lia |]. eapply Z.lt_trans; [exact H2 | reflexivity].
Qed.

(** ** Zeros, absolute values and clamps *)

Lemma zero_eq (x : float) : Prim2SF x = S754_zero false -> x = 0.
Proof. intros H. apply Prim2SF_inj. rewrite H. reflexivity. Qed.

Lemma zero_square (x : float) : is_zero x = true -> x * x = 0.
Proof.
  intros H. apply is_zero_sf in H. destruct H as [s H].
  apply zero_eq. rewrite mul_spec, H. destruct s; reflexivity.
Qed.

Lemma zero_div_of_nat (n : nat) :
  (1 <= n)%nat -> (Z.of_nat n < 2 ^ 53)%Z -> 0 / of_nat n = 0.
Proof.
  intros H1 H2. destruct (of_nat_finite_pos n H1 H2) as [m [e H]].
  apply zero_eq. rewrite div_spec, H. reflexivity.
Qed.

Lemma abs_nonneg (x : float) : is_nan x = false -> (0 <=? abs x) = true.
Proof.
  rewrite is_nan_false_sf, leb_spec, abs_spec.
  change (Prim2SF 0) with (S754_zero false). unfold SFleb.
  destruct (Prim2SF x); simpl; congruence.
Qed.

Lemma abs_nan (x : float) : is_nan (abs x) = is_nan x.
Proof.
  destruct (is_nan x) eqn:E.
  - apply is_nan_sf. rewrite abs_spec. apply is_nan_sf in E. now rewrite E.
  - apply is_nan_false_sf. rewrite abs_spec. apply is_nan_false_sf in E.
    destruct (Prim2SF x); simpl; congruence.
Qed.

Lemma abs_zero (x : float) : is_zero (abs x) = true -> is_zero x = true.
Proof.
  rewrite !is_zero_sf, abs_spec.
  destruct (Prim2SF x); simpl; intros [s' H]; try discriminate; eauto.
Qed.

Lemma nonneg_not_below_zero (m z : float) :
  is_zero z = true -> (0 <=? m) = true -> (m <? z) = false.
Proof.
  rewrite is_zero_sf, leb_spec, ltb_spec.
  change (Prim2SF 0) with (S754_zero false). unfold SFleb, SFltb.
  intros [s ->].
  destruct (Prim2SF m) as [s' | s' | | s' m' e']; simpl; try reflexivity;
    destruct s'; simpl; congruence.
Qed.

Lemma equal_to_zero (x y : float) :
  is_nan y = false -> is_zero x = true ->
  (x <? y) = false -> (y <? x) = false -> is_zero y = true.
Proof.
  rewrite is_nan_false_sf, !is_zero_sf, !ltb_spec. unfold SFltb.
  intros Hy [s ->].
  destruct (Prim2SF y) as [s' | s' | | s' m' e']; simpl; try congruence; eauto;
    destruct s'; simpl; congruence.
Qed.

Lemma is_zero_not_nan (x : float) : is_zero x = true -> is_nan x = false.
Proof.
  rewrite is_zero_sf, is_nan_false_sf. intros [s ->]. discriminate.
Qed.

(** [Math.max] of a non-negative (or NaN) accumulator and an absolute
    value is zero only if both are. *)
Lemma Math_max_zero (m x : float) :
  is_nan m = true \/ (0 <=? m) = true ->
  is_zero (Math_max m (Math_abs x)) = true ->
  is_zero m = true /\ is_zero x = true.
Proof.
  unfold Math_max, Math_abs. intros Hm.
  rewrite abs_nan.
  destruct (is_nan m) eqn:Nm; simpl; [discriminate |].
  destruct (is_nan x) eqn:Nx; simpl; [discriminate |].
  destruct Hm as [Hm | Hm]; [discriminate |].
  pose proof (abs_nonneg x Nx) as Ha.
  assert (is_nan (abs x) = false) as Na by now rewrite abs_nan.
  destruct (m <? abs x) eqn:L1.
  - intros Hz. rewrite (nonneg_not_below_zero m (abs x) Hz Hm) in L1. discriminate.
  - destruct (abs x <? m) eqn:L2.
    + intros Hz. rewrite (nonneg_not_below_zero (abs x) m Hz Ha) in L2. discriminate.
    + destruct (get_sign m); intros Hz.
      * split; [| apply abs_zero, Hz].
        apply (equal_to_zero (abs x) m Nm Hz L2 L1).
      * split; [exact Hz |].
        apply abs_zero, (equal_to_zero m (abs x) Na Hz L1 L2).
Qed.

Lemma Math_max_nonneg (m x : float) :
  is_nan m = true \/ (0 <=? m) = true ->
  is_nan (Math_max m (Math_abs x)) = true
  \/ (0 <=? Math_max m (Math_abs x)) = true.
Proof.
  unfold Math_max, Math_abs. intros Hm. rewrite abs_nan.
  destruct (is_nan m) eqn:Nm; simpl; [left; reflexivity |].
  destruct (is_nan x) eqn:Nx; simpl; [left; reflexivity |].
  destruct Hm as [Hm | Hm]; [discriminate |]. right.
  pose proof (abs_nonneg x Nx) as Ha.
  destruct (m <? abs x); [exact Ha |].
  destruct (abs x <? m); [exact Hm |].
  destruct (get_sign m); assumption.
Qed.

(** The clamp of a number is within the bounds. *)
Lemma clamp_bounds (lo hi x : float) :
  (lo <=? hi) = true -> is_nan x = false ->
  (lo <=? Math_max lo (Math_min hi x)) = true
  /\ (Math_max lo (Math_min hi x) <=? hi) = true.
Proof.
  intros Hlh Nx. destruct (leb_not_nan lo hi Hlh) as [Nlo Nhi].
  assert (is_nan (Math_min hi x) = false
          /\ (Math_min hi x <=? hi) = true) as [Nm Hm].
  { unfold Math_min. rewrite Nhi, Nx. simpl.
    destruct (hi <? x) eqn:L1; [split; [exact Nhi | apply leb_refl, Nhi] |].
    destruct (x <? hi) eqn:L2; [split; [exact Nx | apply ltb_leb, L2] |].
    destruct (get_sign hi); [split; [exact Nhi | apply leb_refl, Nhi] |].
    split; [exact Nx | apply not_ltb_leb; assumption]. }
  unfold Math_max. rewrite Nlo, Nm. simpl.
  destruct (lo <? Math_min hi x) eqn:L1; [split; [apply ltb_leb, L1 | exact Hm] |].
  destruct (Math_min hi x <? lo) eqn:L2; [split; [apply leb_refl, Nlo | exact Hlh] |].
  destruct (get_sign lo).
  - split; [apply not_ltb_leb; assumption | exact Hm].
  - split; [apply leb_refl, Nlo | exact Hlh].
Qed.

End FloatFacts.

(* ================================================================== *)
(** * Facts about the spectral model *)
(* ================================================================== *)

Module SpectrumFacts.

Import Js FloatFacts AudioEngine.
Local Open Scope float_scope.

Lemma fold_left_shift {A : Type} (f : A -> nat -> A) (n s : nat) (acc : A) :
  fold_left f (seq (S s) n) acc = fold_left (fun a i => f a (S i)) (seq s n) acc.
Proof.
  revert s acc. induction n as [| n IH]; intros s acc; simpl; [reflexivity |].
  apply IH.
Qed.

Lemma energy_sum (M : MathLib) (n : nat) : forall (a b : list float) (acc : float),
  (n <= List.length a)%nat -> (n <= List.length b)%nat ->
  fold_left
    (fun energy i =>
       let diff := Math_log M (get a i + 1) - Math_log M (get b i + 1) in
       energy + diff * diff)
    (seq 0 n) acc
  = fold_left add
      (map (fun ab => Spec.logSquaredError M (fst ab) (snd ab))
           (combine (firstn n a) (firstn n b)))
      acc.
Proof.
  induction n as [| n IH]; intros a b acc Ha Hb; [reflexivity |].
  destruct a as [| x a]; [simpl in Ha; lia |].
  destruct b as [| y b]; [simpl in Hb; lia |].
  cbn [seq fold_left firstn combine map fst snd].
  rewrite fold_left_shift. simpl in Ha, Hb.
  rewrite <- (IH a b) by lia. reflexivity.
Qed.

Lemma set_nth_length (l : list float) (i : nat) (v : float) :
  List.length (set_nth l i v) = List.length l.
Proof.
  revert i. induction l as [| h t IH]; intros [| i]; simpl; auto.
Qed.

Lemma get_set_nth (l : list float) (i b : nat) (v : float) :
  (i < List.length l)%nat ->
  get (set_nth l i v) b = if Nat.eqb i b then v else get l b.
Proof.
  unfold get. revert i b. induction l as [| h t IH]; intros i b Hi; simpl in Hi; [lia |].
  destruct i as [| i], b as [| b]; simpl; try reflexivity.
  apply IH. lia.
Qed.

Lemma f32_add_at_length (a : list float) (k v : float) :
  List.length (f32_add_at a k v) = List.length a.
Proof.
  unfold f32_add_at. destruct (array_index k) as [z |]; [| reflexivity].
  destruct (z <? Z.of_nat (List.length a))%Z; [apply set_nth_length | reflexivity].
Qed.

Lemma get_f32_add_at (a : list float) (k v : float) (b : nat) :
  (b < List.length a)%nat ->
  get (f32_add_at a k v) b
  = match array_index k with
    | Some z => if (z =? Z.of_nat b)%Z then Math_fround (get a b + v) else get a b
    | None => get a b
    end.
Proof.
  intros Hb. unfold f32_add_at. destruct (array_index k) as [z |] eqn:E; [| reflexivity].
  assert (0 <= z)%Z as Hz.
  { unfold array_index in E. destruct (Prim2SF k) as [s | s | | [] m e]; try discriminate.
    - injection E as <-. lia.
    - destruct (0 <=? e)%Z; [injection E as <-; apply Z.shiftl_nonneg; lia |].
      destruct (Z.land _ _ =? 0)%Z; [| discriminate].
      injection E as <-. apply Z.shiftl_nonneg. lia. }
  destruct (z <? Z.of_nat (List.length a))%Z eqn:L.
  - apply Z.ltb_lt in L. rewrite get_set_nth by lia.
    destruct (Z.eqb_spec z (Z.of_nat b)) as [-> | N].
    + rewrite Nat2Z.id, Nat.eqb_refl. reflexivity.
    + destruct (Nat.eqb_spec (Z.to_nat z) b) as [<- | _]; [lia | reflexivity].
  - apply Z.ltb_ge in L.
    destruct (Z.eqb_spec z (Z.of_nat b)); [lia | reflexivity].
Qed.

Lemma harmonicTerm_contribution (M : MathLib) (params : SynthParams)
    (f : float) (i : nat) :
  harmonicTerm M params (f * of_nat i) i = Spec.contribution M params f i.
Proof. reflexivity. Qed.

(** The harmonic loop, bin by bin. *)
Lemma harmonic_loop_bins (M : MathLib) (params : SynthParams) (f : float)
    (hs : list nat) : forall (a : list float),
  List.length a = 128%nat ->
  List.length (fold_left (harmonicStep M params f) hs a) = 128%nat
  /\ forall b, (b < 128)%nat ->
       get (fold_left (harmonicStep M params f) hs a) b
       = fold_left
           (fun acc h =>
              if Spec.landsIn 172 f h b
              then Math_fround (acc + Spec.contribution M params f h)
              else acc)
           hs (get a b).
Proof.
  induction hs as [| h hs IH]; intros a Ha; simpl; [auto |].
  assert (List.length (harmonicStep M params f a h) = 128%nat) as Hl.
  { unfold harmonicStep. destruct (_ <? _); [rewrite f32_add_at_length |]; exact Ha. }
  destruct (IH _ Hl) as [IH1 IH2]. split; [exact IH1 |].
  intros b Hb. rewrite (IH2 b Hb). f_equal.
  unfold harmonicStep, Spec.landsIn. rewrite Ha.
  destruct (Math_floor (f * of_nat h / 172) <? of_nat 128); simpl; [| reflexivity].
  rewrite get_f32_add_at by lia. rewrite harmonicTerm_contribution.
  destruct (array_index _) as [z |]; [| reflexivity].
  destruct (z =? Z.of_nat b)%Z; reflexivity.
Qed.

Lemma list_as_map_get (l : list float) :
  l = map (get l) (seq 0 (List.length l)).
Proof.
  unfold get. induction l as [| h t IH]; [reflexivity |].
  simpl. f_equal. rewrite <- seq_shift, map_map. exact IH.
Qed.

Lemma get_repeat (x : float) (n b : nat) :
  (b < n)%nat -> get (repeat x n) b = x.
Proof.
  unfold get. revert b. induction n as [| n IH]; intros b Hb; [lia |].
  destruct b as [| b]; simpl; [reflexivity | apply IH; lia].
Qed.

Lemma estimate_is_reference (M : MathLib) (this : Engine) (params : SynthParams) :
  estimateSynthSpectrum M this params
  = Spec.spectrumOfWidth M 172 params (fundamental this).
Proof.
  unfold estimateSynthSpectrum, Spec.spectrumOfWidth.
  destruct (harmonic_loop_bins M params (fundamental this) (seq 1 16)
              (repeat 0 128) (repeat_length _ _)) as [Hl Hb].
  set (L := fold_left _ _ _) in *.
  unfold Spec.distort, Spec.binMagnitude.
  destruct (0 <? distortionAmount params);
    rewrite (list_as_map_get L), Hl, ?map_map;
    apply map_ext_in; intros b Hin; apply in_seq in Hin;
    rewrite Hb, get_repeat by lia; reflexivity.
Qed.

Lemma estimate_length (M : MathLib) (this : Engine) (params : SynthParams) :
  List.length (estimateSynthSpectrum M this params) = 128%nat.
Proof.
  rewrite estimate_is_reference. unfold Spec.spectrumOfWidth.
  now rewrite length_map, length_seq.
Qed.

End SpectrumFacts.

(* ================================================================== *)
(** * Facts about the annealing loop *)
(* ================================================================== *)

Module AnnealFacts.

Import Js FloatFacts AudioEngine Inputs.
Local Open Scope float_scope.

Section AnnealingFacts.

Variable M : MathLib.
Variable random : nat -> float.
Variable this : Engine.
Variable target : option Spectrum.
Variable steps : nat.

Let stepOf := annealStep M random this target steps.
Let StepOutcome := Spec.StepOutcome M random this target steps.
Let Tracked := Spec.Tracked M this target.
Let eventsFrom := Spec.eventsFrom steps.

(** ** One iteration *)

Lemma annealStep_outcome (step : nat) (st st' : AnnealState) :
  stepOf step st = Return st' -> StepOutcome step st st'.
Proof.
  unfold stepOf, annealStep.
  destruct (keyToMutate (random (st_draws st))) as [key |] eqn:K; [| discriminate].
  set (newParams := set_param key _ _).
  destruct (calculateEnergy M this newParams target - st_currentEnergy st <? 0);
    [| destruct (random _ <? Math_exp M _)];
    cbv iota beta;
    try (destruct (calculateEnergy M this newParams target <? st_bestEnergy st) eqn:B);
    intros H; injection H as <-;
    first [ now apply Spec.Rejected
          | now apply (Spec.Accepted _ _ _ _ _ _ _ _ key newParams)
          | now apply (Spec.Improved _ _ _ _ _ _ _ _ key newParams) ].
Qed.

Lemma annealStep_returns (step : nat) (st : AnnealState) :
  validDraw (random (st_draws st)) = true ->
  exists st', stepOf step st = Return st'.
Proof.
  unfold stepOf, annealStep, validDraw.
  destruct (keyToMutate (random (st_draws st))); [| discriminate].
  intros _. destruct (_ <? 0); [| destruct (random _ <? _)]; eauto.
Qed.

Hypothesis draws_valid : forall n, validDraw (random n) = true.

(** ** The loop, when every draw selects a key *)

Lemma trajectory_returns (todo : nat) : forall step st,
  exists l, trajectory M random this target steps todo step st = Return l
            /\ List.length l = S todo.
Proof.
  induction todo as [| todo IH]; intros step st; simpl; [eauto |].
  destruct (annealStep_returns step st (draws_valid _)) as [st' H].
  unfold stepOf in H. rewrite H. simpl.
  destruct (IH (S step) st') as [l [Hl Hn]]. rewrite Hl. simpl.
  eexists. split; [reflexivity | simpl; lia].
Qed.


Lemma trajectory_head (todo : nat) (step : nat) (st : AnnealState)
    (l : list AnnealState) :
  trajectory M random this target steps todo step st = Return l ->
  exists rest, l = st :: rest.
Proof.
  destruct todo; simpl.
  - intros H. injection H as <-. eauto.
  - destruct (annealStep _ _ _ _ _ _ _); [| discriminate]. simpl.
    destruct (trajectory _ _ _ _ _ _ _ _); [| discriminate]. simpl.
    intros H. injection H as <-. eauto.
Qed.

Lemma last_cons_default {A : Type} (x : A) (l : list A) (d d' : A) :
  last (x :: l) d = last (x :: l) d'.
Proof.
  revert x. induction l as [| y l IH]; intros x; [reflexivity |].
  change (last (y :: l) d = last (y :: l) d'). apply IH.
Qed.

(** The loop and its trajectory. *)
Lemma annealLoop_trajectory (cb : bool) (todo : nat) : forall step st calls l,
  trajectory M random this target steps todo step st = Return l ->
  annealLoop M random this target steps cb todo step st calls
  = Return (last l st,
            if cb then calls ++ eventsFrom step (tl l) else calls).
Proof.
  induction todo as [| todo IH]; intros step st calls l; simpl.
  - intros H. injection H as <-. simpl. destruct cb; now rewrite ?app_nil_r.
  - destruct (annealStep M random this target steps step st) as [st' | e] eqn:S1;
      [| discriminate]. simpl.
    destruct (trajectory M random this target steps todo (S step) st')
      as [rest | e] eqn:T; [| discriminate]. simpl.
    intros H. injection H as <-.
    rewrite (IH (S step) st' _ rest T).
    destruct (trajectory_head _ _ _ _ T) as [rest' ->].
    f_equal. f_equal.
    + change (last (st' :: rest') st' = last (st' :: rest') st).
      apply last_cons_default.
    + destruct cb; [| reflexivity]. simpl. now rewrite <- app_assoc.
Qed.

Lemma eventsFrom_length (step : nat) (l : list AnnealState) :
  List.length (eventsFrom step l) = List.length l.
Proof.
  revert step. induction l as [| st l IH]; intros step; simpl; auto.
Qed.

Lemma eventsFrom_nth (l : list AnnealState) : forall step i ev,
  nth_error (eventsFrom step l) i = Some ev ->
  exists st, nth_error l i = Some st /\ ev = progressEvent steps (step + i) st.
Proof.
  induction l as [| st l IH]; intros step i ev; simpl.
  - destruct i; discriminate.
  - destruct i as [| i]; simpl.
    + intros H. injection H as <-. rewrite Nat.add_0_r. eauto.
    + intros H. destruct (IH _ _ _ H) as [st' [H1 H2]].
      exists st'. split; [exact H1 |]. rewrite H2. f_equal. lia.
Qed.

Lemma eventsFrom_nth_some (l : list AnnealState) : forall step i s,
  nth_error l i = Some s ->
  nth_error (eventsFrom step l) i
  = Some (progressEvent steps (step + i) s).
Proof.
  induction l as [| x l IH]; intros step [| i] s; simpl; try discriminate.
  - intros H. injection H as <-. now rewrite Nat.add_0_r.
  - intros H. rewrite (IH (S step) i s H). do 2 f_equal. lia.
Qed.

(** ** The best tracker *)

Lemma Tracked_initial :
  Tracked [initialState M this target] (initialState M this target).
Proof.
  unfold Tracked, Spec.Tracked, Spec.BestSeen. simpl. repeat split; auto.
  - eexists. split; [left; reflexivity | split; reflexivity].
  - intros s [<- | []]. simpl. apply ltb_irrefl.
Qed.

Lemma Tracked_step (step : nat) (seen : list AnnealState)
    (st st' : AnnealState) :
  Tracked seen st -> stepOf step st = Return st' ->
  Tracked (seen ++ [st']) st'.
Proof.
  intros (Hin & Hc & Hb & (s0 & Hs0 & Hp0 & He0) & Hmin) H.
  apply annealStep_outcome in H. unfold Tracked, Spec.Tracked, Spec.BestSeen.
  assert (In st' (seen ++ [st'])) as Hin' by (apply in_or_app; right; left; reflexivity).
  destruct H as [Hcp Hce Hbp Hbe | key np Hk Hnp Hcp Hce Hlt Hbp Hbe
                 | key np Hk Hnp Hcp Hce Hlt Hbp Hbe].
  - rewrite Hcp, Hce, Hbp, Hbe. repeat split; auto.
    + exists s0. split; [apply in_or_app; left; exact Hs0 | auto].
    + intros s Hs. apply in_app_or in Hs. destruct Hs as [Hs | [<- | []]].
      * apply Hmin, Hs.
      * rewrite Hce. apply (Hmin st Hin).
  - rewrite Hcp, Hce, Hbp, Hbe. repeat split; auto.
    + exists s0. split; [apply in_or_app; left; exact Hs0 | auto].
    + intros s Hs. apply in_app_or in Hs. destruct Hs as [Hs | [<- | []]].
      * apply Hmin, Hs.
      * rewrite Hce. exact Hlt.
  - rewrite Hcp, Hce, Hbp, Hbe. repeat split; auto.
    + exists st'. split; [exact Hin' | split; assumption].
    + intros s Hs. apply in_app_or in Hs. destruct Hs as [Hs | [<- | []]].
      * destruct (st_currentEnergy s <? calculateEnergy M this np target) eqn:L; [| reflexivity].
        rewrite <- (Hmin s Hs). symmetry. apply (ltb_trans _ _ _ L Hlt).
      * rewrite Hce. apply ltb_irrefl.
Qed.

Lemma best_never_increases (step : nat) (st st' : AnnealState) :
  stepOf step st = Return st' ->
  (st_bestEnergy st' = st_bestEnergy st /\ st_bestParams st' = st_bestParams st)
  \/ (st_bestEnergy st' <? st_bestEnergy st) = true.
Proof.
  intros H. apply annealStep_outcome in H.
  destruct H as [Hcp Hce Hbp Hbe | key np Hk Hnp Hcp Hce Hlt Hbp Hbe
                 | key np Hk Hnp Hcp Hce Hlt Hbp Hbe]; auto.
  right. now rewrite Hbe.
Qed.

(** Along a trajectory every state is tracked, and the best energy of a
    state is not above the one before. *)
Lemma trajectory_tracked (todo : nat) : forall step st seen l,
  Tracked (seen ++ [st]) st ->
  trajectory M random this target steps todo step st = Return l ->
  forall k s, nth_error l k = Some s -> Tracked (seen ++ firstn (S k) l) s.
Proof.
  induction todo as [| todo IH]; intros step st seen l Ht; simpl.
  - intros H. injection H as <-. intros [| k] s; simpl.
    + intros H. injection H as <-. exact Ht.
    + destruct k; discriminate.
  - destruct (annealStep M random this target steps step st) as [st' | e] eqn:S1;
      [| discriminate]. simpl.
    destruct (trajectory M random this target steps todo (S step) st')
      as [rest | e] eqn:T; [| discriminate]. simpl.
    intros H. injection H as <-. intros [| k] s; simpl.
    + intros H. injection H as <-. exact Ht.
    + intros H.
      pose proof (Tracked_step step _ _ _ Ht S1) as Ht'.
      pose proof (IH (S step) st' (seen ++ [st]) rest Ht' T k s H) as R.
      now rewrite <- app_assoc in R.
Qed.

Lemma trajectory_monotone (todo : nat) : forall step st l,
  trajectory M random this target steps todo step st = Return l ->
  forall k a b, nth_error l k = Some a -> nth_error l (S k) = Some b ->
  (st_bestEnergy b = st_bestEnergy a /\ st_bestParams b = st_bestParams a)
  \/ (st_bestEnergy b <? st_bestEnergy a) = true.
Proof.
  induction todo as [| todo IH]; intros step st l; simpl.
  - intros H. injection H as <-.
    intros [| k] a b; simpl; try discriminate; destruct k; discriminate.
  - destruct (annealStep M random this target steps step st) as [st' | e] eqn:S1;
      [| discriminate]. simpl.
    destruct (trajectory M random this target steps todo (S step) st')
      as [rest | e] eqn:T; [| discriminate]. simpl.
    intros H. injection H as <-. intros [| k] a b; simpl.
    + intros Ha Hb. injection Ha as <-.
      destruct (trajectory_head _ _ _ _ T) as [rest' ->]. simpl in Hb.
      injection Hb as <-. apply (best_never_increases step), S1.
    + apply (IH (S step) st' rest T k a b).
Qed.


Lemma ready_graph : ready this = true ->
  isInitialized this = true /\ exists g, graph this = Some g.
Proof.
  unfold ready. destruct (isInitialized this); [| discriminate].
  destruct (graph this) as [g |]; [eauto | discriminate].
Qed.

(** A run on an initialized engine, in terms of its trajectory. *)
Lemma run_characterized (cb : bool) :
  ready this = true ->
  exists traj g,
    trajectory M random this target steps steps 0 (initialState M this target)
    = Return traj
    /\ List.length traj = S steps
    /\ graph this = Some g
    /\ runSimulatedAnnealing M random this target steps cb
       = Return {|
           returned :=
             Some (st_bestParams (last traj (initialState M this target)));
           engine_after :=
             Spec.applied this g
               (st_bestParams (last traj (initialState M this target)));
           progress := if cb then eventsFrom 0 (tl traj) else [] |}.
Proof.
  intros R. destruct (ready_graph R) as [Hi [g Hg]].
  destruct (trajectory_returns steps 0 (initialState M this target))
    as [traj [Ht Hl]].
  exists traj, g. repeat split; auto.
  unfold runSimulatedAnnealing. rewrite Hi. simpl.
  rewrite (annealLoop_trajectory cb steps 0 _ [] traj Ht). simpl.
  unfold applyParams, nodes. rewrite Hg. simpl.
  destruct cb; reflexivity.
Qed.

Lemma nth_error_last {A : Type} (l : list A) (d : A) :
  l <> [] -> nth_error l (List.length l - 1) = Some (last l d).
Proof.
  induction l as [| x l IH]; [congruence |]. intros _.
  destruct l as [| y l]; [reflexivity |].
  specialize (IH ltac:(discriminate)).
  simpl in *. rewrite Nat.sub_0_r in IH. exact IH.
Qed.

End AnnealingFacts.

(** ** Mutations stay within the bounds *)

Lemma get_set_param (key k : ParamKey) (v : float) (p : SynthParams) :
  get_param k (set_param key v p) = if key_eqb key k then v else get_param k p.
Proof. destruct k; reflexivity. Qed.

Lemma declared_ranges (key : ParamKey) :
  Spec.declaredBounds key
  = (range_min (paramRanges key), range_max (paramRanges key)).
Proof. destruct key; reflexivity. Qed.

Lemma range_ordered (key : ParamKey) :
  (range_min (paramRanges key) <=? range_max (paramRanges key)) = true.
Proof. destruct key; reflexivity. Qed.

Lemma range_finite (key : ParamKey) :
  is_finite (range_min (paramRanges key)) = true
  /\ is_finite (range_max (paramRanges key)) = true.
Proof. destruct key; split; reflexivity. Qed.

Lemma range_width (key : ParamKey) :
  is_finite (range_max (paramRanges key) - range_min (paramRanges key)) = true
  /\ is_zero (range_max (paramRanges key) - range_min (paramRanges key)) = false.
Proof. destruct key; split; reflexivity. Qed.

Lemma positive_nonzero (t : float) : (0 <? t) = true -> is_zero t = false.
Proof.
  intros H. destruct (is_zero t) eqn:Z; [| reflexivity].
  rewrite (nonneg_not_below_zero 0 t Z eq_refl) in H. discriminate.
Qed.

Lemma tempOK_finite (t : float) :
  tempOK t = true -> is_finite t = true /\ is_zero t = false.
Proof.
  unfold tempOK. rewrite andb_true_iff. intros [H0 H1]. split.
  - apply (between_finite 0 1 t); auto. apply ltb_leb, H0.
  - apply positive_nonzero, H0.
Qed.

Lemma unitDraw_number (r : float) : unitDraw r = true -> is_nan r = false.
Proof.
  unfold unitDraw. rewrite andb_true_iff. intros [H _].
  apply (leb_not_nan 0 r H).
Qed.

Lemma inBounds_finite (key : ParamKey) (v : float) :
  Spec.inBounds key v = true -> is_finite v = true.
Proof.
  unfold Spec.inBounds. rewrite declared_ranges. cbn [fst snd].
  rewrite andb_true_iff. intros [H1 H2].
  destruct (range_finite key) as [F1 F2].
  apply (between_finite _ _ v F1 F2 H1 H2).
Qed.

(** A mutation of a finite value yields a value within the bounds. *)
Lemma mutate_in_bounds (key : ParamKey) (r temp current : float) :
  unitDraw r = true -> tempOK temp = true -> is_finite current = true ->
  Spec.inBounds key (mutate key r temp current) = true.
Proof.
  intros Hr Ht Hc. unfold Spec.inBounds, mutate.
  rewrite declared_ranges. cbn [fst snd].
  destruct (tempOK_finite temp Ht) as [Tf Tz].
  destruct (range_width key) as [Wf Wz].
  apply andb_true_iff. apply clamp_bounds; [apply range_ordered |].
  apply add_not_nan; [exact Hc |].
  apply mul_not_nan; [| exact Tf | exact Tz].
  apply mul_not_nan; [| reflexivity | reflexivity].
  apply mul_not_nan; [| exact Wf | exact Wz].
  apply sub_not_nan; [apply unitDraw_number, Hr | reflexivity].
Qed.

Section Boundedness.

Variable M : MathLib.
Variable random : nat -> float.
Variable this : Engine.
Variable target : option Spectrum.
Variable steps : nat.

Hypothesis draws_unit : forall n, unitDraw (random n) = true.
Hypothesis temps_ok :
  forall step, (step < steps)%nat -> tempOK (temperature M steps step) = true.
Hypothesis init_finite :
  forall key, is_finite (get_param key (currentParams this)) = true.

Let init := currentParams this.

Lemma Bounded_finite (p : SynthParams) (key : ParamKey) :
  Spec.Bounded init p -> is_finite (get_param key p) = true.
Proof.
  intros [H _]. destruct (H key) as [-> | B]; [apply init_finite |].
  apply (inBounds_finite key _ B).
Qed.

Lemma Bounded_mutation (step : nat) (key : ParamKey) (n : nat)
    (p : SynthParams) :
  (step < steps)%nat -> Spec.Bounded init p ->
  Spec.Bounded init
    (set_param key
       (mutate key (random n) (temperature M steps step) (get_param key p)) p).
Proof.
  intros Hs Hp. pose proof (Bounded_finite p key Hp) as Hf.
  destruct Hp as (Hk & Ho & Hc & Hr & Hv).
  split; [| simpl; auto].
  intros k. rewrite get_set_param. destruct (key_eqb key k) eqn:K.
  - right. assert (key = k) as <- by (destruct key, k; simpl in K; congruence).
    apply mutate_in_bounds; auto.
  - apply Hk.
Qed.

Lemma Bounded_step (step : nat) (st st' : AnnealState) :
  (step < steps)%nat ->
  Spec.Bounded init (st_currentParams st) /\ Spec.Bounded init (st_bestParams st) ->
  annealStep M random this target steps step st = Return st' ->
  Spec.Bounded init (st_currentParams st') /\ Spec.Bounded init (st_bestParams st').
Proof.
  intros Hs [Hc Hb] H. apply annealStep_outcome in H.
  destruct H as [Hcp Hce Hbp Hbe | key np Hk Hnp Hcp Hce Hlt Hbp Hbe
                 | key np Hk Hnp Hcp Hce Hlt Hbp Hbe];
    rewrite Hcp, Hbp; try (split; assumption);
    subst np; split; try assumption; apply Bounded_mutation; assumption.
Qed.

Lemma Bounded_trajectory (todo : nat) : forall step st l,
  (step + todo <= steps)%nat ->
  Spec.Bounded init (st_currentParams st) /\ Spec.Bounded init (st_bestParams st) ->
  trajectory M random this target steps todo step st = Return l ->
  Spec.Bounded init (st_bestParams (last l st)).
Proof.
  induction todo as [| todo IH]; intros step st l Hs Hb; simpl.
  - intros H. injection H as <-. apply Hb.
  - destruct (annealStep M random this target steps step st) as [st' | e] eqn:S1;
      [| discriminate]. simpl.
    destruct (trajectory M random this target steps todo (S step) st')
      as [rest | e] eqn:T; [| discriminate]. simpl.
    intros H. injection H as <-.
    destruct (trajectory_head _ _ _ _ _ _ _ _ _ T) as [rest' ->].
    change (Spec.Bounded init (st_bestParams (last (st' :: rest') st))).
    rewrite (last_cons_default st' rest' st st').
    apply (IH (S step) st' _ ltac:(lia)); [| exact T].
    apply (Bounded_step step st st'); auto. lia.
Qed.

End Boundedness.

(** ** Runs without a target *)

Lemma no_target_step (M : MathLib) (random : nat -> float) (this : Engine)
    (steps step : nat) (st st' : AnnealState) :
  st_bestEnergy st = 1 ->
  annealStep M random this None steps step st = Return st' ->
  st_bestEnergy st' = 1 /\ st_bestParams st' = st_bestParams st.
Proof.
  intros Hb H. apply annealStep_outcome in H.
  destruct H as [Hcp Hce Hbp Hbe | key np Hk Hnp Hcp Hce Hlt Hbp Hbe
                 | key np Hk Hnp Hcp Hce Hlt Hbp Hbe].
  - split; congruence.
  - split; congruence.
  - rewrite Hb in Hlt. discriminate.
Qed.

Lemma no_target_trajectory (M : MathLib) (random : nat -> float)
    (this : Engine) (steps todo : nat) : forall step st l,
  st_bestEnergy st = 1 ->
  trajectory M random this None steps todo step st = Return l ->
  st_bestParams (last l st) = st_bestParams st.
Proof.
  induction todo as [| todo IH]; intros step st l Hb; simpl.
  - intros H. injection H as <-. reflexivity.
  - destruct (annealStep M random this None steps step st) as [st' | e] eqn:S1;
      [| discriminate]. simpl.
    destruct (trajectory M random this None steps todo (S step) st')
      as [rest | e] eqn:T; [| discriminate]. simpl.
    intros H. injection H as <-.
    destruct (trajectory_head _ _ _ _ _ _ _ _ _ T) as [rest' ->].
    change (st_bestParams (last (st' :: rest') st) = st_bestParams st).
    rewrite (last_cons_default st' rest' st st').
    destruct (no_target_step M random this steps step st st' Hb S1) as [Hb' Hp].
    rewrite (IH (S step) st' _ Hb' T). exact Hp.
Qed.

(** ** The locked frequency *)

Lemma initialize_leaves_unlocked :
  unlocked (lockedFrequency (initialize constructor)) = true.
Proof. reflexivity. Qed.

Lemma configure_stores_pitch (this this' : Engine) (a : AnalysisResults) :
  isInitialized this = true ->
  configure this a = Return this' ->
  lockedFrequency this' = pitchHz a.
Proof.
  intros Hi. unfold configure, nodes. rewrite Hi. simpl.
  destruct (graph this); simpl; [| discriminate].
  intros H. injection H as <-. reflexivity.
Qed.

Lemma estimate_fundamental (M : MathLib) (this this' : Engine)
    (params : SynthParams) :
  fundamental this = fundamental this' ->
  estimateSynthSpectrum M this params = estimateSynthSpectrum M this' params.
Proof. intros H. unfold estimateSynthSpectrum. now rewrite H. Qed.

Lemma energy_fundamental (M : MathLib) (this this' : Engine)
    (params : SynthParams) (target : option Spectrum) :
  fundamental this = fundamental this' ->
  calculateEnergy M this params target = calculateEnergy M this' params target.
Proof.
  intros H. unfold calculateEnergy. destruct target; [| reflexivity].
  now rewrite (estimate_fundamental M this this' params H).
Qed.

Lemma annealStep_fundamental (M : MathLib) (random : nat -> float)
    (this this' : Engine) (target : option Spectrum) (steps step : nat)
    (st : AnnealState) :
  fundamental this = fundamental this' ->
  annealStep M random this target steps step st
  = annealStep M random this' target steps step st.
Proof.
  intros H. unfold annealStep.
  destruct (keyToMutate _); [| reflexivity].
  now rewrite (energy_fundamental M this this' _ target H).
Qed.

Lemma trajectory_fundamental (M : MathLib) (random : nat -> float)
    (this this' : Engine) (target : option Spectrum) (steps todo : nat) :
  fundamental this = fundamental this' ->
  forall step st,
    trajectory M random this target steps todo step st
    = trajectory M random this' target steps todo step st.
Proof.
  intros H. induction todo as [| todo IH]; intros step st; simpl; [reflexivity |].
  rewrite (annealStep_fundamental M random this this' target steps step st H).
  destruct (annealStep _ _ _ _ _ _ _); [| reflexivity]. simpl. now rewrite IH.
Qed.

Lemma unlocked_fundamental (this : Engine) :
  unlocked (lockedFrequency this) = true -> fundamental this = 440.
Proof.
  unfold unlocked, fundamental, truthy.
  destruct (lockedFrequency this) as [f |]; [| reflexivity].
  unfold is_zero. change zero with 0. intros ->. reflexivity.
Qed.

End AnnealFacts.

(* ================================================================== *)
(** * Facts about the analyzer *)
(* ================================================================== *)

Module AnalyzerFacts.

Import Js FloatFacts AudioEngine Analyzer.
Local Open Scope float_scope.

Lemma peak_channel_zero (channelData : list float) : forall m,
  is_nan m = true \/ (0 <=? m) = true ->
  is_zero (fold_left (fun m x => Math_max m (Math_abs x)) channelData m) = true ->
  is_zero m = true /\ Forall (fun x => is_zero x = true) channelData.
Proof.
  induction channelData as [| x l IH]; intros m Hm; simpl.
  - auto.
  - intros H. destruct (IH _ (Math_max_nonneg m x Hm) H) as [H1 H2].
    destruct (Math_max_zero m x Hm H1) as [Hz Hx]. auto.
Qed.

Lemma peak_channel_nonneg (channelData : list float) : forall m,
  is_nan m = true \/ (0 <=? m) = true ->
  let m' := fold_left (fun m x => Math_max m (Math_abs x)) channelData m in
  is_nan m' = true \/ (0 <=? m') = true.
Proof.
  induction channelData as [| x l IH]; intros m Hm; simpl; [exact Hm |].
  apply IH, Math_max_nonneg, Hm.
Qed.

Lemma peak_zero_start (chans : list (list float)) : forall m,
  is_nan m = true \/ (0 <=? m) = true ->
  is_zero
    (fold_left
       (fun maxAmplitude channelData =>
          fold_left (fun m x => Math_max m (Math_abs x))
                    channelData maxAmplitude)
       chans m) = true ->
  is_zero m = true.
Proof.
  induction chans as [| c chans IH]; intros m Hm; simpl; [auto |].
  intros H. pose proof (IH _ (peak_channel_nonneg c m Hm) H) as H1.
  apply (peak_channel_zero c m Hm H1).
Qed.

Lemma peak_zero_channel0 (channelData : list float)
    (rest : list (list float)) :
  is_zero (peakAmplitude (channelData :: rest)) = true ->
  Forall (fun x => is_zero x = true) channelData.
Proof.
  unfold peakAmplitude. simpl. intros H.
  assert (is_nan 0 = true \/ (0 <=? 0) = true) as H0 by (right; reflexivity).
  pose proof (peak_zero_start rest _ (peak_channel_nonneg channelData 0 H0) H) as H1.
  apply (peak_channel_zero channelData 0 H0 H1).
Qed.

Lemma sum_squares_zero (channelData : list float) :
  Forall (fun x => is_zero x = true) channelData ->
  fold_left (fun rms x => rms + x * x) channelData 0 = 0.
Proof.
  induction 1 as [| x l Hx Hl IH]; simpl; [reflexivity |].
  rewrite (zero_square x Hx). exact IH.
Qed.

Lemma rmsLevel_zero (channelData : list float) :
  (1 <= List.length channelData)%nat ->
  (Z.of_nat (List.length channelData) < 2 ^ 53)%Z ->
  Forall (fun x => is_zero x = true) channelData ->
  rmsLevel channelData = 0.
Proof.
  intros H1 H2 Hz. unfold rmsLevel.
  rewrite (sum_squares_zero _ Hz), (zero_div_of_nat _ H1 H2). reflexivity.
Qed.

(** ** The peak, as the spec words it *)

Lemma fold_concat {A B : Type} (f : A -> B -> A) (ls : list (list B)) :
  forall a,
    fold_left f (List.concat ls) a
    = fold_left (fun a l => fold_left f l a) ls a.
Proof.
  induction ls as [| l ls IH]; intros a; simpl; [reflexivity |].
  rewrite fold_left_app. apply IH.
Qed.

Lemma fold_map {A B C : Type} (f : A -> C -> A) (g : B -> C) (l : list B) :
  forall a,
    fold_left f (map g l) a = fold_left (fun a x => f a (g x)) l a.
Proof.
  induction l as [| x l IH]; intros a; simpl; [reflexivity | apply IH].
Qed.

Lemma peak_channels (chans : list (list float)) : forall m,
  fold_left
    (fun maxAmplitude channelData =>
       fold_left (fun m x => Math_max m (Math_abs x)) channelData maxAmplitude)
    chans m
  = fold_left Math_max (map Math_abs (List.concat chans)) m.
Proof.
  intros m. rewrite fold_map, fold_concat. reflexivity.
Qed.

Lemma peak_as_worded (chans : list (list float)) :
  peakAmplitude chans = Spec.peakAbsoluteAmplitude chans.
Proof. apply peak_channels. Qed.

(** [Math.max] returns one of its arguments, or NaN. *)
Lemma Math_max_cases (a b : float) :
  Math_max a b = a \/ Math_max a b = b \/ is_nan (Math_max a b) = true.
Proof.
  unfold Math_max.
  destruct (is_nan a || is_nan b); [right; right; reflexivity |].
  destruct (a <? b); [right; left; reflexivity |].
  destruct (b <? a); [left; reflexivity |].
  destruct (get_sign a); [right; left | left]; reflexivity.
Qed.

(** The largest absolute sample is the start value, or NaN, or the
    absolute value of a sample. *)
Lemma peak_attained (l : list float) : forall m,
  let r := fold_left Math_max (map Math_abs l) m in
  r = m \/ is_nan r = true \/ exists x, In x l /\ Math_abs x = r.
Proof.
  induction l as [| y l IH]; intros m; simpl; [left; reflexivity |].
  destruct (IH (Math_max m (Math_abs y))) as [E | [N | (x & Hx & E)]].
  - rewrite E.
    destruct (Math_max_cases m (Math_abs y)) as [C | [C | C]].
    + left. exact C.
    + right. right. exists y. split; [left; reflexivity | symmetry; exact C].
    + right. left. exact C.
  - right. left. exact N.
  - right. right. exists x. split; [right; exact Hx | exact E].
Qed.

(** A peak above 0 is the absolute value of a sample of a channel. *)
Lemma peak_position (chans : list (list float)) :
  (0 <? Spec.peakAbsoluteAmplitude chans) = true ->
  exists c i channelData x,
    nth_error chans c = Some channelData
    /\ nth_error channelData i = Some x
    /\ Math_abs x = Spec.peakAbsoluteAmplitude chans.
Proof.
  intros P. unfold Spec.peakAbsoluteAmplitude in *.
  destruct (peak_attained (List.concat chans) 0) as [E | [N | (x & Hx & E)]].
  - rewrite E in P. rewrite ltb_irrefl in P. discriminate.
  - destruct (ltb_not_nan _ _ P) as [_ N']. congruence.
  - apply in_concat in Hx. destruct Hx as (channelData & Hc & Hx).
    apply In_nth_error in Hc. destruct Hc as [c Hc].
    apply In_nth_error in Hx. destruct Hx as [i Hx].
    exists c, i, channelData, x. auto.
Qed.

Lemma nth_map_at {A B : Type} (f : A -> B) (l : list A) (d : B) :
  forall i x, nth_error l i = Some x -> nth i (map f l) d = f x.
Proof.
  induction l as [| y l IH]; intros [| i] x; simpl; try discriminate.
  - intros [= ->]. reflexivity.
  - apply IH.
Qed.

Lemma above_zero_not_zero (x : float) : (0 <? x) = true -> (x =? 0) = false.
Proof.
  rewrite ltb_spec, eqb_spec. change (Prim2SF 0) with (S754_zero false).
  destruct (Prim2SF x) as [s | s | | s m e]; try discriminate;
    destruct s; try discriminate; reflexivity.
Qed.

(** With its context, the method of the object is [normalizeBuffer] as
    [analyze] calls it. *)
Lemma normalizeBuffer_with_context (this : AnalyzerObject.AnalyzerState)
    (context : AnalyzerObject.AudioContext) (M : MathLib)
    (audioBuffer : AudioBuffer) (targetDb : float) :
  AnalyzerObject.audioContext this = Some context ->
  AnalyzerObject.normalizeBuffer this M audioBuffer targetDb
  = normalizeBuffer M audioBuffer targetDb.
Proof.
  intros C. unfold AnalyzerObject.normalizeBuffer, normalizeBuffer.
  rewrite C. reflexivity.
Qed.

(** A buffer that passes the silence check is not silent, when the level
    of the floor [1e-10] is below the threshold. *)
Lemma checked_not_silent (M : MathLib) (buf : AudioBuffer) (dbLevel : float) :
  Inputs.wellFormed buf = true ->
  (20 * Math_log10 M 1e-10 <? -60) = true ->
  checkSilence M buf = Return dbLevel ->
  (peakAmplitude (channels buf) =? 0) = false.
Proof.
  intros Hwf Hlog. unfold Inputs.wellFormed in Hwf. unfold checkSilence, getChannelData.
  destruct (channels buf) as [| channelData rest] eqn:Hch; [discriminate |].
  apply andb_true_iff in Hwf. destruct Hwf as [H1 H2].
  apply Nat.leb_le in H1. apply Z.ltb_lt in H2. simpl.
  destruct (linearToDb M (rmsLevel channelData) <? SILENCE_THRESHOLD_DB) eqn:Hq;
    [discriminate |].
  intros _.
  change (peakAmplitude (channelData :: rest) =? 0)
    with (is_zero (peakAmplitude (channelData :: rest))).
  destruct (is_zero (peakAmplitude (channelData :: rest))) eqn:Z; [| reflexivity].
  apply peak_zero_channel0 in Z.
  rewrite (rmsLevel_zero channelData H1 H2 Z) in Hq.
  unfold linearToDb in Hq.
  change (Math_max 0 1e-10) with 1e-10 in Hq.
  unfold SILENCE_THRESHOLD_DB in Hq. congruence.
Qed.

End AnalyzerFacts.

(* ================================================================== *)
(** * The model on examples *)
(* ================================================================== *)

Module Examples.

Import Js FloatFacts AudioEngine Analyzer Inputs.
Local Open Scope float_scope.

(** The sample draws are draws of [Math.random] that select keys. *)
Lemma drawTable_good :
  forallb (fun r => validDraw r && unitDraw r) drawTable = true.
Proof. vm_compute. reflexivity. Qed.

Lemma sampleDraws_good (n : nat) :
  validDraw (sampleDraws n) = true /\ unitDraw (sampleDraws n) = true.
Proof.
  apply andb_true_iff.
  apply (proj1 (forallb_forall _ drawTable) drawTable_good).
  unfold sampleDraws. apply nth_In.
  assert (List.length drawTable = 1000%nat) as -> by (vm_compute; reflexivity).
  pose proof (Z.mod_pos_bound (Z.of_nat n * 7919 + 13) 1000 ltac:(lia)). lia.
Qed.

Lemma sample_temperatures (step : nat) :
  (step < 12)%nat -> tempOK (temperature sampleMath 12 step) = true.
Proof.
  intros H. do 12 (destruct step as [| step]; [vm_compute; reflexivity |]). lia.
Qed.

Example floor_rounds_down :
  Math_floor 2.5 = 2 /\ Math_floor (-2.5) = -3 /\ Math_floor 23.02 = 23
  /\ is_nan (Math_floor nan) = true.
Proof. repeat split. Qed.

Example fround_of_a_tenth : Math_fround 0.1 = 0.10000000149011612.
Proof. reflexivity. Qed.

Example keys_of_draws :
  map keyToMutate [0; 0.17; 0.5; 0.9999999999999999; 1]
  = [Some K_filterFreq; Some K_filterQ; Some K_attack; Some K_sustain; None].
Proof. reflexivity. Qed.

(** A sawtooth at 440 Hz under a cutoff of 8 kHz: the fundamental is in
    bin 2, the second harmonic in bin 5, the third in bin 7. *)
Example spectrum_of_brightSaw :
  firstn 8 (estimateSynthSpectrum tableMath freshEngine brightSaw)
  = [0; 0; 1; 0; 0; 0.5; 0; Math_fround (1 / 3)].
Proof. vm_compute. reflexivity. Qed.

(** A clean peak at bin 2 of 8 bins of 512 Hz, leaning to bin 3. *)
Example pitch_of_a_peak :
  detectPitch
    {| magnitudes := [0; 1; 5; 2; 0; 0; 0; 0];
       frequencies := map (fun i => of_nat i * 512) (seq 0 8);
       sampleRate := 8192; fftSize := 16 |}
  = 1024 + (1 - 2) / (2 * (1 - 2 * 5 + 2)) * 512.
Proof. vm_compute. reflexivity. Qed.

Example silence_is_rejected :
  checkSilence tableMath silentBuffer = Throw tooQuiet.
Proof. reflexivity. Qed.

(** A run of 12 steps towards [sampleTarget]: the first trial raises the
    cutoff to 2673.92 Hz and is the best state of the run; the run ends
    in a worse state, returns the best one, and leaves the filter of the
    engine at its cutoff. *)
Example sample_run :
  exists r best traj g,
    runSimulatedAnnealing sampleMath sampleDraws freshEngine (Some sampleTarget)
      12 true = Return r
    /\ returned r = Some best
    /\ filterFreq best = 2673.92
    /\ graph (engine_after r) = Some g
    /\ filter_frequency g = 2673.92
    /\ trajectory sampleMath sampleDraws freshEngine (Some sampleTarget) 12 12 0
         (initialState sampleMath freshEngine (Some sampleTarget)) = Return traj
    /\ (st_bestEnergy (last traj (initialState sampleMath freshEngine (Some sampleTarget)))
        <? st_currentEnergy (last traj (initialState sampleMath freshEngine (Some sampleTarget)))) = true.
Proof.
  eexists. eexists. eexists. eexists.
  split; [vm_compute; reflexivity |].
  split; [reflexivity |].
  split; [vm_compute; reflexivity |].
  split; [reflexivity |].
  split; [reflexivity |].
  split; [vm_compute; reflexivity |].
  vm_compute. reflexivity.
Qed.

End Examples.

(* ================================================================== *)
(** * The properties of the core *)
(* ================================================================== *)

Module Claims.

Import Js FloatFacts AudioEngine Analyzer Inputs.
Import SpectrumFacts AnnealFacts AnalyzerFacts Examples.
Local Open Scope float_scope.

(** C1.  On an initialized engine, for any target, any number of steps
    [>= 1] and any draws that select keys, the best tracker is correct:
    every call of the progress callback carries the energy and the
    parameters of the best state seen up to its step (not the current
    trial), the energies passed to the callback never increase, and the
    value returned is the best-seen parameter set, the one of the last
    call. *)
Theorem best_tracker_correct (M : MathLib) (random : nat -> float)
    (this : Engine) (target : option Spectrum) (steps : nat) :
  (1 <= steps)%nat ->
  ready this = true ->
  (forall n, validDraw (random n) = true) ->
  Spec.BestTrackerCorrect M random this target steps.
Proof.
  intros Hs R D.
  destruct (run_characterized M random this target steps D true R)
    as (traj & g & Ht & Hl & Hg & Hrun).
  destruct (trajectory_head _ _ _ _ _ _ _ _ _ Ht) as [rest Hrest].
  set (init := initialState M this target) in *.
  assert (forall k s, nth_error traj k = Some s ->
            Spec.Tracked M this target (firstn (S k) traj) s) as Htr.
  { intros k s Hk.
    apply (trajectory_tracked M random this target steps steps 0 init [] traj
             (Tracked_initial M this target) Ht k s Hk). }
  exists traj. eexists. split; [exact Ht |]. split; [exact Hrun |].
  split; [exact Hl |]. cbn [progress returned].
  assert (List.length rest = steps) as Hlr by (rewrite Hrest in Hl; simpl in Hl; lia).
  rewrite Hrest. cbn [tl]. rewrite <- Hrest.
  split; [now rewrite eventsFrom_length |].
  split; [| split].
  - intros i ev Hev. apply eventsFrom_nth in Hev. destruct Hev as [st [Hst ->]].
    assert (nth_error traj (S i) = Some st) as Hst' by (rewrite Hrest; exact Hst).
    destruct (Htr _ _ Hst') as (_ & _ & Hb & Hbest).
    cbn [progressEvent ev_step ev_totalSteps ev_energy ev_params].
    repeat split; auto; apply Hbest.
  - intros i a b Ha Hb. apply eventsFrom_nth in Ha, Hb.
    destruct Ha as [sa [Ha ->]]. destruct Hb as [sb [Hb ->]].
    cbn [progressEvent ev_energy ev_params].
    apply (trajectory_monotone M random this target steps steps 0 init traj Ht (S i));
      rewrite Hrest; assumption.
  - assert (rest <> []) as Hne by (destruct rest; [simpl in Hlr; lia | discriminate]).
    pose proof (nth_error_last rest init Hne) as Hlast. rewrite Hlr in Hlast.
    assert (last traj init = last rest init) as Hlt.
    { rewrite Hrest. destruct rest; [congruence | reflexivity]. }
    exists (progressEvent steps (steps - 1) (last rest init)).
    split; [| split].
    + apply (eventsFrom_nth_some steps rest 0 (steps - 1) _ Hlast).
    + cbn [progressEvent ev_params]. now rewrite Hlt.
    + cbn [progressEvent ev_energy ev_params].
      assert (nth_error traj steps = Some (last rest init)) as Hn.
      { rewrite Hrest. destruct steps as [| n]; [lia |].
        replace (S n - 1)%nat with n in Hlast by lia. exact Hlast. }
      destruct (Htr _ _ Hn) as (_ & _ & _ & Hbest).
      rewrite firstn_all2 in Hbest by lia. exact Hbest.
Qed.

(** C1 at the sample run: 12 steps on a new engine towards
    [sampleTarget]. *)
Lemma best_tracker_correct_witness :
  Spec.BestTrackerCorrect sampleMath sampleDraws freshEngine
    (Some sampleTarget) 12.
Proof.
  apply best_tracker_correct;
    [lia | reflexivity | intros n; apply sampleDraws_good].
Defined.

(** C2 as stated fails: after [setVibe('vintage')] the chorus is at 0.2
    wet; a run of one step then leaves it at 0, the value of
    [currentParams.chorusWet]: the engine is not what it was. *)
Lemma anneal_rewrites_engine :
  exists r g g',
    runSimulatedAnnealing tableMath (fun _ => 0.5) vintageEngine None 1 false
    = Return r
    /\ graph vintageEngine = Some g
    /\ graph (engine_after r) = Some g'
    /\ chorus_wet g = Math_min 0.7 (0 + 0.2)
    /\ is_zero (chorus_wet g) = false
    /\ chorus_wet g' = 0
    /\ engine_after r <> vintageEngine.
Proof.
  eexists. eexists. eexists.
  split; [vm_compute; reflexivity |].
  split; [vm_compute; reflexivity |].
  split; [vm_compute; reflexivity |].
  split; [reflexivity |]. split; [reflexivity |]. split; [reflexivity |].
  intros H.
  apply (f_equal (fun e => match graph e with
                           | Some g => is_zero (chorus_wet g)
                           | None => false
                           end)) in H.
  vm_compute in H. discriminate.
Qed.

(** C2, amended.  Before [initialize] a run returns [null] and leaves the
    engine as it was.  After it, a run returns the best parameter set and
    applies it to the engine with [applyParams]: [currentParams] becomes
    the best set and the oscillator, envelope, filter, distortion and
    chorus settings are rewritten from it; the locked frequency, the
    [isInitialized] flag and the LFO are left alone. *)
Theorem anneal_applies_best (M : MathLib) (random : nat -> float)
    (this : Engine) (target : option Spectrum) (steps : nat) (cb : bool) :
  (isInitialized this = false ->
   runSimulatedAnnealing M random this target steps cb
   = Return {| returned := None; engine_after := this; progress := [] |})
  /\ (ready this = true ->
      (forall n, validDraw (random n) = true) ->
      Spec.AppliesBest M random this target steps cb).
Proof.
  split.
  - intros H. unfold runSimulatedAnnealing. now rewrite H.
  - intros R D.
    destruct (run_characterized M random this target steps D cb R)
      as (traj & g & Ht & Hl & Hg & Hrun).
    eexists. eexists. exists g. split; [exact Hrun |].
    repeat split; auto.
Qed.

(** C2 amended, at the run of the counterexample. *)
Lemma anneal_applies_best_witness :
  Spec.AppliesBest tableMath (fun _ => 0.5) vintageEngine None 1 false.
Proof.
  apply (anneal_applies_best tableMath (fun _ => 0.5) vintageEngine None 1 false);
    [reflexivity | intros n; reflexivity].
Defined.

(** C3.  For any number of steps [>= 1] and any draws (in [0, 1), as
    [Math.random] returns them, each selecting a key), with temperatures
    in (0, 1] and finite initial parameters: a run returns a best
    parameter set in which every mutable key either still has its initial
    value or lies within its declared bounds, the other keys being
    untouched; if the initial values were within bounds, all six are. *)
Theorem annealing_boundedness (M : MathLib) (random : nat -> float)
    (this : Engine) (target : option Spectrum) (steps : nat) (cb : bool) :
  (1 <= steps)%nat ->
  ready this = true ->
  (forall n, validDraw (random n) = true) ->
  (forall n, unitDraw (random n) = true) ->
  (forall step, (step < steps)%nat ->
     tempOK (temperature M steps step) = true) ->
  (forall key, is_finite (get_param key (currentParams this)) = true) ->
  Spec.AnnealingBounded M random this target steps cb.
Proof.
  intros _ R D U T F.
  destruct (run_characterized M random this target steps D cb R)
    as (traj & g & Ht & Hl & Hg & Hrun).
  assert (Spec.Bounded (currentParams this) (currentParams this)) as B0.
  { split; [intros key; left; reflexivity | auto]. }
  pose proof (Bounded_trajectory M random this target steps U T F steps 0
                (initialState M this target) traj ltac:(lia)
                (conj B0 B0) Ht) as B.
  eexists. eexists. split; [exact Hrun |]. split; [reflexivity |].
  split; [exact B |].
  intros Hin key. destruct B as [Bk _]. destruct (Bk key) as [-> | H]; auto.
Qed.

(** C3 at the sample run. *)
Lemma annealing_boundedness_witness :
  Spec.AnnealingBounded sampleMath sampleDraws freshEngine
    (Some sampleTarget) 12 true.
Proof.
  apply annealing_boundedness;
    [ lia | reflexivity
    | intros n; apply sampleDraws_good | intros n; apply sampleDraws_good
    | apply sample_temperatures
    | intros key; destruct key; reflexivity ].
Defined.

(** C4 as stated fails: at 44.1 kHz the bin width [sampleRate/2/128] is
    172.265625 Hz, and the ninth harmonic of 440 Hz (3960 Hz) is in bin 22
    of the reference spectrum; the code divides by 172 and puts it in
    bin 23. *)
Lemma bin_width_is_not_the_sample_rate :
  get (estimateSynthSpectrum tableMath freshEngine brightSaw) 22 = 0
  /\ get (estimateSynthSpectrum tableMath freshEngine brightSaw) 23
     = Math_fround (1 / 9)
  /\ get (Spec.estimateSpectrum tableMath 44100 brightSaw
            (fundamental freshEngine)) 22 = Math_fround (1 / 9)
  /\ get (Spec.estimateSpectrum tableMath 44100 brightSaw
            (fundamental freshEngine)) 23 = 0
  /\ estimateSynthSpectrum tableMath freshEngine brightSaw
     <> Spec.estimateSpectrum tableMath 44100 brightSaw
          (fundamental freshEngine).
Proof.
  split; [vm_compute; reflexivity |].
  split; [vm_compute; reflexivity |].
  split; [vm_compute; reflexivity |].
  split; [vm_compute; reflexivity |].
  intros H. apply (f_equal (fun l => is_zero (get l 23))) in H.
  vm_compute in H. discriminate.
Qed.

(** C4, amended.  [estimateSynthSpectrum] equals the reference definition
    of 4.3 taken with a fixed bin width of 172 Hz, whatever the sample
    rate: 128 bins, harmonics 1..16, amplitude law, resonance boost,
    rolloff, binary32 accumulation into bin [floor(freq / 172)], harmonics
    outside the 128 bins ignored, distortion boost. *)
Theorem estimate_is_reference_at_172 (M : MathLib) (this : Engine)
    (params : SynthParams) :
  estimateSynthSpectrum M this params
  = Spec.spectrumOfWidth M 172 params (fundamental this)
  /\ List.length (estimateSynthSpectrum M this params) = 128%nat.
Proof.
  split; [apply estimate_is_reference | apply estimate_length].
Qed.

(** C5.  [calculateEnergy] returns exactly 1 without a target, and
    otherwise the mean squared error of [log(mag+1)] between the estimated
    spectrum and the target magnitudes over the first
    [min(64, len(estimated), len(target))] bins.  So a search without a
    target does not fail: on an initialized engine it returns the
    parameters it started from. *)
Theorem energy_is_mean_log_squared_error (M : MathLib)
    (random : nat -> float) (this : Engine) (params : SynthParams)
    (steps : nat) (cb : bool) :
  calculateEnergy M this params None = 1
  /\ (forall target,
        calculateEnergy M this params (Some target)
        = Spec.meanLogSquaredError M (estimateSynthSpectrum M this params)
            (magnitudes target))
  /\ (ready this = true ->
      (forall n, validDraw (random n) = true) ->
      exists r,
        runSimulatedAnnealing M random this None steps cb = Return r
        /\ returned r = Some (currentParams this)).
Proof.
  split; [reflexivity |]. split.
  - intros target. unfold calculateEnergy, Spec.meanLogSquaredError.
    rewrite (Nat.min_comm _ 64). rewrite energy_sum by lia. reflexivity.
  - intros R D.
    destruct (run_characterized M random this None steps D cb R)
      as (traj & g & Ht & Hl & Hg & Hrun).
    eexists. split; [exact Hrun |]. cbn [returned]. f_equal.
    apply (no_target_trajectory M random this steps steps 0
             (initialState M this None) traj eq_refl Ht).
Qed.

(** C8, evaluated.  The division of the parabolic interpolation has no
    guard: on a flat spectrum [detectPitch] returns NaN (0/0), and on a
    spectrum that falls off linearly from a peak below 50 Hz it returns
    Infinity (2/0). *)
Theorem detectPitch_unguarded :
  detectPitch flatSpectrum = nan
  /\ detectPitch rumbleSpectrum = infinity
  /\ is_finite (detectPitch flatSpectrum) = false
  /\ is_finite (detectPitch rumbleSpectrum) = false.
Proof.
  split; [vm_compute; reflexivity |].
  split; [vm_compute; reflexivity |].
  split; vm_compute; reflexivity.
Qed.

(** C9.  With a target whose magnitudes are empty, the comparison length
    is 0 and [calculateEnergy] returns 0/0, NaN; so a finite energy for a
    supplied target requires at least one magnitude bin. *)
Theorem energy_of_empty_target_is_nan (M : MathLib) (this : Engine)
    (params : SynthParams) (target : Spectrum) :
  (magnitudes target = [] ->
   calculateEnergy M this params (Some target) = 0 / 0
   /\ calculateEnergy M this params (Some target) = nan)
  /\ (is_finite (calculateEnergy M this params (Some target)) = true ->
      (1 <= List.length (magnitudes target))%nat).
Proof.
  assert (magnitudes target = [] ->
          calculateEnergy M this params (Some target) = nan) as H.
  { intros E. unfold calculateEnergy. rewrite E. simpl List.length.
    rewrite Nat.min_0_r. reflexivity. }
  split.
  - intros E. split; [rewrite (H E); reflexivity | exact (H E)].
  - intros F. destruct (magnitudes target) as [| x l] eqn:E; [| simpl; lia].
    rewrite (H eq_refl) in F. discriminate.
Qed.




(** C6.  For a file that passes validation and decodes to a buffer whose
    channel 0 is not empty: [analyze] throws the silence error exactly
    when the level of channel 0 of the decoded buffer is below -60 dB, and
    otherwise returns a descriptor; the level is that of the buffer as
    decoded, which is normalized only afterwards. *)
Theorem silence_is_checked_before_normalizing (M : MathLib)
    (F : FeatureRoutines) (file : File) (buf : AudioBuffer) :
  (size file <= MAX_FILE_SIZE)%N ->
  decoded file = Return buf ->
  wellFormed buf = true ->
  (20 * Math_log10 M 1e-10 <? -60) = true ->
  Spec.SilenceChecked M F file buf.
Proof.
  intros Hsize Hdec Hwf Hlog. unfold wellFormed in Hwf.
  destruct (channels buf) as [| channelData rest] eqn:Hch; [discriminate |].
  apply andb_true_iff in Hwf. destruct Hwf as [H1 H2].
  apply Nat.leb_le in H1. apply Z.ltb_lt in H2.
  exists channelData.
  assert (getChannelData buf 0 = Return channelData) as Hget
    by (unfold getChannelData; rewrite Hch; reflexivity).
  split; [exact Hget |].
  assert (validateFile file = Return true) as Hval.
  { unfold validateFile. destruct (N.ltb_spec MAX_FILE_SIZE (size file));
      [lia | reflexivity]. }
  cbv zeta. split.
  - intros Hq. unfold analyze. rewrite Hval, Hdec. simpl.
    unfold checkSilence. rewrite Hget. simpl.
    unfold SILENCE_THRESHOLD_DB. now rewrite Hq.
  - intros Hq.
    assert (is_zero (peakAmplitude (channels buf)) = false) as Hpeak.
    { destruct (is_zero (peakAmplitude (channels buf))) eqn:Z; [| reflexivity].
      rewrite Hch in Z. apply peak_zero_channel0 in Z.
      rewrite (rmsLevel_zero channelData H1 H2 Z) in Hq.
      unfold linearToDb in Hq.
      change (Math_max 0 1e-10) with 1e-10 in Hq. congruence. }
    unfold analyze. rewrite Hval, Hdec. simpl.
    unfold checkSilence. rewrite Hget. simpl.
    unfold SILENCE_THRESHOLD_DB. rewrite Hq. simpl.
    unfold normalizeBuffer.
    change (peakAmplitude (channels buf) =? 0)
      with (is_zero (peakAmplitude (channels buf))).
    rewrite Hpeak. simpl.
    destruct (computeGatekeepers F _) as [[isFM isOrganic] isWide].
    eexists. eexists. split; [reflexivity |]. split; reflexivity.
Qed.

(** C6 at a file of four zero samples. *)
Lemma silence_is_checked_before_normalizing_witness :
  Spec.SilenceChecked tableMath constantFeatures silentFile silentBuffer.
Proof.
  apply silence_is_checked_before_normalizing;
    [ vm_compute; discriminate | reflexivity | reflexivity | reflexivity ].
Defined.




End Claims.

(* ================================================================== *)
(** * More facts about numbers *)
(* ================================================================== *)

Module NumberFacts.

Import FloatFacts Numbers.
Local Open Scope float_scope.

(** ** Numbers without a sign *)

Lemma not_negative_ltb (x : float) :
  not_negative_sf (Prim2SF x) -> (x <? 0) = false.
Proof.
  rewrite ltb_spec. change (Prim2SF 0) with (S754_zero false). unfold SFltb.
  destruct (Prim2SF x) as [s | s | | s m e]; simpl; try reflexivity;
    intros ->; reflexivity.
Qed.

Lemma binary_round_aux_sign (s : bool) (m e : Z) (l : location) :
  match binary_round_aux prec emax s m e l with
  | S754_zero s' | S754_infinity s' | S754_finite s' _ _ => s' = s
  | S754_nan => True
  end.
Proof.
  unfold binary_round_aux.
  destruct (shr_fexp prec emax m e l) as [mrs' e'].
  destruct (shr_fexp prec emax _ e' loc_Exact) as [mrs'' e''].
  destruct (shr_m mrs''); try exact I; try reflexivity.
  destruct (e'' <=? emax - prec)%Z; reflexivity.
Qed.

Lemma binary_round_aux_not_negative (m e : Z) (l : location) :
  not_negative_sf (binary_round_aux prec emax false m e l).
Proof.
  pose proof (binary_round_aux_sign false m e l) as H.
  destruct (binary_round_aux prec emax false m e l); simpl; auto.
Qed.

Lemma binary_round_not_negative (m : positive) (e : Z) :
  not_negative_sf (binary_round prec emax false m e).
Proof.
  unfold binary_round. destruct (shl_align _ _ _).
  apply binary_round_aux_not_negative.
Qed.

Lemma square_not_negative (d : float) : not_negative_sf (Prim2SF (d * d)).
Proof.
  rewrite mul_spec. unfold SF64mul, SFmul.
  destruct (Prim2SF d) as [s | s | | s m e]; simpl; try exact I;
    try (destruct s; reflexivity).
  replace (xorb s s) with false by (destruct s; reflexivity).
    apply binary_round_aux_not_negative.
Qed.

Lemma add_not_negative (a b : float) :
  not_negative_sf (Prim2SF a) -> not_negative_sf (Prim2SF b) ->
  not_negative_sf (Prim2SF (a + b)).
Proof.
  rewrite add_spec. unfold SF64add, SFadd.
  destruct (Prim2SF a) as [s | s | | s m e], (Prim2SF b) as [s' | s' | | s' m' e'];
    simpl; try tauto; try (intros; subst; simpl; tauto).
  intros -> ->. simpl.
  destruct (shl_align m e (Z.min e e')) as [m1 e1],
             (shl_align m' e' (Z.min e e')) as [m2 e2]; simpl.
    apply binary_round_not_negative.
Qed.

Lemma of_nat_not_negative (n : nat) : not_negative_sf (Prim2SF (of_nat n)).
Proof.
  unfold of_nat. rewrite of_uint63_spec. unfold binary_normalize.
  pose proof (Uint63.to_Z_bounded (Uint63.of_Z (Z.of_nat n))) as B.
  destruct (Uint63.to_Z (Uint63.of_Z (Z.of_nat n))) as [| p | p];
    [reflexivity | apply binary_round_not_negative | lia].
Qed.

Lemma div_not_negative (a b : float) :
  not_negative_sf (Prim2SF a) -> not_negative_sf (Prim2SF b) ->
  not_negative_sf (Prim2SF (a / b)).
Proof.
  rewrite div_spec. unfold SF64div, SFdiv.
  destruct (Prim2SF a) as [s | s | | s m e], (Prim2SF b) as [s' | s' | | s' m' e'];
    simpl; try tauto; try (intros; subst; simpl; try tauto; bools; tauto).
  intros -> ->. simpl.
  destruct (SFdiv_core_binary prec emax (Z.pos m) e (Z.pos m') e')
    as [[mz ez] lz].
  apply binary_round_aux_not_negative.
Qed.

Lemma fold_add_squares_not_negative {A : Type} (f : A -> float) (l : list A) :
  forall acc,
    not_negative_sf (Prim2SF acc) ->
    not_negative_sf
      (Prim2SF (fold_left (fun e x => e + f x * f x) l acc)).
Proof.
  induction l as [| x l IH]; intros acc H; simpl; [exact H |].
  apply IH, add_not_negative; [exact H | apply square_not_negative].
Qed.

(** ** NaN *)

Lemma add_not_nan_r (a b : float) :
  is_nan a = false -> is_finite b = true -> is_nan (a + b) = false.
Proof.
  rewrite is_finite_sf, !is_nan_false_sf, add_spec. unfold SF64add, SFadd.
  destruct (Prim2SF a) as [s | s | | s m e], (Prim2SF b) as [s' | s' | | s' m' e'];
    simpl; try tauto; intros _ _; try discriminate.
  - bools; discriminate.
  - apply binary_normalize_not_nan.
Qed.

Lemma div_core_nonneg (m1 : positive) (e1 : Z) (m2 : positive) (e2 : Z) :
  (0 <= fst (fst (SFdiv_core_binary prec emax (Zpos m1) e1 (Zpos m2) e2)))%Z.
Proof.
  unfold SFdiv_core_binary.
  set (s := (e1 - e2 - _)%Z).
  set (m' := match s with Zpos _ => Z.shiftl (Zpos m1) s | Z0 => Zpos m1
             | Zneg _ => 0%Z end).
  assert (0 <= m')%Z as Hm.
  { subst m'. destruct s; try lia. apply Z.shiftl_nonneg. lia. }
  pose proof (Z_div_mod m' (Zpos m2) ltac:(lia)) as H.
  destruct (Z.div_eucl m' (Zpos m2)) as [q r]. simpl.
  destruct H as [H1 H2]. nia.
Qed.

Lemma div_not_nan (a b : float) :
  is_nan a = false -> is_finite b = true -> is_zero b = false ->
  is_nan (a / b) = false.
Proof.
  intros Ha Hb Hz. pose proof (nonzero_finite_sf b Hb Hz) as Hn.
  revert Ha. rewrite !is_nan_false_sf, div_spec. unfold SF64div, SFdiv.
  destruct (Prim2SF a) as [s | s | | s m e], (Prim2SF b) as [s' | s' | | s' m' e'];
    simpl in *; try tauto; intros _; try discriminate.
  pose proof (div_core_nonneg m e m' e') as H.
  destruct (SFdiv_core_binary prec emax (Z.pos m) e (Z.pos m') e')
    as [[mz ez] lz]. simpl in H.
  apply binary_round_aux_not_nan, H.
Qed.

Lemma mul_nan_l (a b : float) : is_nan a = true -> is_nan (a * b) = true.
Proof.
  rewrite !is_nan_sf, mul_spec. intros ->. reflexivity.
Qed.

Lemma sub_nan_r (a b : float) : is_nan b = true -> is_nan (a - b) = true.
Proof.
  rewrite !is_nan_sf, sub_spec. intros ->. unfold SF64sub, SFsub.
  destruct (Prim2SF a); reflexivity.
Qed.

Lemma ltb_nan_l (x y : float) : is_nan x = true -> (x <? y) = false.
Proof.
  rewrite is_nan_sf, ltb_spec. intros ->. reflexivity.
Qed.

(** ** Order *)

Lemma leb_not_gt (x y : float) : (x <=? y) = true -> (y <? x) = false.
Proof.
  rewrite leb_spec, ltb_spec. unfold SFleb, SFltb.
  rewrite (SFcompare_antisym (Prim2SF x) (Prim2SF y)).
  destruct (SFcompare (Prim2SF x) (Prim2SF y)) as [[ | | ] |]; simpl;
    congruence.
Qed.

(** The order of numbers is transitive across an equality. *)
Lemma SFcompare_Eq_Lt_trans (a b c : spec_float) :
  SFcompare a b = Some Eq -> SFcompare b c = Some Lt -> SFcompare a c = Some Lt.
Proof.
  destruct a as [sa | sa | | sa ma ea], b as [sb | sb | | sb mb eb],
           c as [sc | sc | | sc mc ec]; simpl; try discriminate;
    bools; simpl; try discriminate; try reflexivity;
    intros H1 H2; injection H1 as H1; injection H2 as H2;
    revert H1 H2; cmp_cases.
Qed.

Lemma leb_ltb_trans (x y z : float) :
  (x <=? y) = true -> (y <? z) = true -> (x <? z) = true.
Proof.
  rewrite leb_spec, !ltb_spec. unfold SFleb, SFltb.
  destruct (SFcompare (Prim2SF x) (Prim2SF y)) as [[ | | ] |] eqn:E1;
    try discriminate;
    destruct (SFcompare (Prim2SF y) (Prim2SF z)) as [[ | | ] |] eqn:E2;
    try discriminate; intros _ _.
  - now rewrite (SFcompare_Eq_Lt_trans _ _ _ E1 E2).
  - now rewrite (SFcompare_Lt_trans _ _ _ E1 E2).
Qed.

(** Two numbers that compare equal are the same number, unless they are
    zeros. *)
Lemma not_ltb_eq (x y : float) :
  is_nan x = false -> nonzero_sf (Prim2SF y) ->
  (x <? y) = false -> (y <? x) = false -> x = y.
Proof.
  rewrite is_nan_false_sf, !ltb_spec. unfold SFltb.
  intros Nx Hy L1 L2. apply Prim2SF_inj. revert L1 L2.
  rewrite (SFcompare_antisym (Prim2SF x) (Prim2SF y)).
  destruct (Prim2SF x) as [s | s | | s m e], (Prim2SF y) as [s' | s' | | s' m' e'];
    simpl in *; try tauto; try (bools; simpl; congruence).
  destruct s, s'; simpl; try congruence;
    change (Pos.compare_cont Eq m m') with (Pos.compare m m');
    destruct (Z.compare_spec e e'); simpl; try congruence;
    destruct (Pos.compare_spec m m'); simpl; try congruence;
    intros _ _; subst; reflexivity.
Qed.

(** [Math.min(hi, x)] is a number no larger than [hi]. *)
Lemma Math_min_le (hi x : float) :
  is_nan hi = false -> is_nan x = false ->
  is_nan (Math_min hi x) = false /\ (Math_min hi x <=? hi) = true.
Proof.
  intros Nhi Nx. unfold Math_min. rewrite Nhi, Nx. simpl.
  destruct (hi <? x) eqn:L1; [split; [exact Nhi | apply leb_refl, Nhi] |].
  destruct (x <? hi) eqn:L2; [split; [exact Nx | apply ltb_leb, L2] |].
  destruct (get_sign hi); [split; [exact Nhi | apply leb_refl, Nhi] |].
  split; [exact Nx | apply not_ltb_leb; assumption].
Qed.

(** [Math.max(x, c)] is [c] when [x] is a number no larger than [c]. *)
Lemma Math_max_floor (x c : float) :
  nonzero_sf (Prim2SF c) -> is_nan x = false -> (x <=? c) = true ->
  Math_max x c = c.
Proof.
  intros Hc Nx L. destruct (leb_not_nan x c L) as [_ Nc].
  unfold Math_max. rewrite Nx, Nc. simpl.
  destruct (x <? c) eqn:L1; [reflexivity |].
  rewrite (leb_not_gt x c L).
  destruct (get_sign x); [reflexivity |].
  apply not_ltb_eq; [exact Nx | exact Hc | exact L1 | apply leb_not_gt, L].
Qed.

(** [Math.max] of a zero accumulator and the absolute value of a zero. *)
Lemma Math_max_zeros (x : float) :
  is_zero x = true -> Math_max 0 (Math_abs x) = 0.
Proof.
  intros Hz. assert (Math_abs x = 0) as ->; [| reflexivity].
  apply zero_eq. unfold Math_abs. rewrite abs_spec.
  apply is_zero_sf in Hz. destruct Hz as [s ->]. reflexivity.
Qed.

End NumberFacts.

(* ================================================================== *)
(** * Facts about rounding *)
(* ================================================================== *)

Module RoundingFacts.

Import FloatFacts Numbers.
Local Open Scope Z_scope.

(** ** Shifts to the right *)

Lemma shifted_start (M : Z) :
  0 <= M -> shifted M 0 {| shr_m := M; shr_r := false; shr_s := false |}.
Proof. intros H. split; simpl; lia. Qed.

Lemma shifted_shr_1 (M k : Z) (mrs : shr_record) :
  0 <= k -> shifted M k mrs -> shifted M (k + 1) (shr_1 mrs).
Proof.
  intros Hk [H0 H]. destruct mrs as [m r s]. simpl in *.
  assert (0 <= 2 ^ (k - 1)) by (apply Z.pow_nonneg; lia).
  assert (m * 2 ^ k <= M) as Hm by (destruct r; lia).
  assert (0 < 2 ^ k) by (apply Z.pow_pos_nonneg; lia).
  unfold shifted. replace (k + 1 - 1) with k by lia.
  rewrite Z.pow_add_r, Z.pow_1_r by lia.
  destruct m as [| [p | p |] | p]; try (exfalso; lia);
    unfold shr_1; cbn [shr_m shr_r]; split; lia.
Qed.

Lemma shifted_iter (M : Z) (p : positive) : forall k mrs,
  0 <= k -> shifted M k mrs ->
  shifted M (k + Zpos p) (iter_pos shr_1 p mrs).
Proof.
  induction p as [p IH | p IH |]; intros k mrs Hk H; simpl.
  - replace (k + Zpos p~1) with (k + 1 + Zpos p + Zpos p) by lia.
    apply IH; [lia |]. apply IH; [lia |]. apply shifted_shr_1; assumption.
  - replace (k + Zpos p~0) with (k + Zpos p + Zpos p) by lia.
    apply IH; [lia |]. apply IH; assumption.
  - apply shifted_shr_1; assumption.
Qed.

(** The first shift of a rounding, by [n] places. *)
Lemma shr_fexp_shifted (M E : Z) :
  0 <= M ->
  let n := fexp prec emax (Zdigits2 M + E) - E in
  let '(mrs, e1) := shr_fexp prec emax M E loc_Exact in
  e1 = E + Z.max n 0 /\ shifted M (Z.max n 0) mrs
  /\ (n <= 0 -> shr_r mrs = false).
Proof.
  intros H n. unfold shr_fexp, shr. fold n. simpl shr_record_of_loc.
  destruct n as [| p | p]; simpl.
  - split; [lia | split; [apply shifted_start, H | reflexivity]].
  - split; [lia | split; [| lia]].
    apply (shifted_iter M p 0); [lia | apply shifted_start, H].
  - split; [lia | split; [apply shifted_start, H | reflexivity]].
Qed.

(** Rounding to nearest adds one only when the round bit is set. *)
Lemma round_nearest_even_le (mrs : shr_record) :
  round_nearest_even (shr_m mrs) (loc_of_shr_record mrs)
  <= shr_m mrs + (if shr_r mrs then 1 else 0).
Proof.
  destruct mrs as [m [|] [|]]; simpl; try lia.
  destruct (Z.even m); lia.
Qed.

(** The mantissa and the exponent that a rounding of [M * 2^E] ends
    with: at most half a unit above [M] at the scale of [E]. *)
Lemma round_value (M E : Z) :
  0 <= M ->
  let n := Z.max (fexp prec emax (Zdigits2 M + E) - E) 0 in
  let '(mrs', e') := shr_fexp prec emax M E loc_Exact in
  let '(mrs'', e'') :=
    shr_fexp prec emax
      (round_nearest_even (shr_m mrs') (loc_of_shr_record mrs')) e' loc_Exact in
  0 <= shr_m mrs'' /\ E <= e''
  /\ shr_m mrs'' * 2 ^ (e'' - E) <= M + 2 ^ (n - 1).
Proof.
  intros H n.
  pose proof (shr_fexp_shifted M E H) as H1. cbv zeta in H1.
  destruct (shr_fexp prec emax M E loc_Exact) as [mrs' e'].
  set (n0 := fexp prec emax (Zdigits2 M + E) - E) in *.
  assert (n = Z.max n0 0) as En by reflexivity. clearbody n n0.
  destruct H1 as [He' [[H0 Hs] Hr]]. rewrite <- En in *.
  set (m2 := round_nearest_even (shr_m mrs') (loc_of_shr_record mrs')).
  assert (0 <= m2) as Hm2 by (apply round_nearest_even_nonneg, H0).
  pose proof (round_nearest_even_le mrs') as Hle. fold m2 in Hle.
  pose proof (shr_fexp_shifted m2 e' Hm2) as H2. cbv zeta in H2.
  destruct (shr_fexp prec emax m2 e' loc_Exact) as [mrs'' e''].
  destruct H2 as [He'' [[H0' Hs'] _]].
  set (n2 := Z.max (fexp prec emax (Zdigits2 m2 + e') - e') 0) in *.
  assert (0 <= n) by lia. assert (0 <= n2) by (subst n2; lia).
  clearbody n2 m2.
  split; [exact H0' |]. split; [lia |].
  replace (e'' - E) with (n2 + n) by lia.
  rewrite Z.pow_add_r by lia.
  assert (0 <= 2 ^ (n2 - 1)) by (apply Z.pow_nonneg; lia).
  assert (0 <= 2 ^ (n - 1)) by (apply Z.pow_nonneg; lia).
  assert (0 < 2 ^ n) by (apply Z.pow_pos_nonneg; lia).
  assert (shr_m mrs'' * 2 ^ n2 <= m2) by (destruct (shr_r mrs''); lia).
  assert (m2 * 2 ^ n <= M + 2 ^ (n - 1)).
  { destruct (Z.eq_dec n 0) as [Hn | Hn].
    - rewrite Hr in * by lia. rewrite Hn in *.
      change (2 ^ 0) with 1 in *. change (2 ^ (0 - 1)) with 0 in *. lia.
    - assert (2 ^ n = 2 * 2 ^ (n - 1)) as E2.
      { replace n with (1 + (n - 1)) at 1 by lia.
        rewrite Z.pow_add_r by lia. reflexivity. }
      destruct (shr_r mrs'); nia. }
  nia.
Qed.

(** ** Canonical mantissas *)

Lemma digits_bounds (m : positive) :
  2 ^ (Zpos (digits2_pos m) - 1) <= Zpos m < 2 ^ Zpos (digits2_pos m).
Proof.
  rewrite digits2_pos_size.
  pose proof (Pos.size_gt m) as G. pose proof (Pos.size_le m) as L.
  apply Pos2Z.pos_lt_pos in G. apply Pos2Z.pos_le_pos in L.
  rewrite Pos2Z.inj_pow in G, L. change (Zpos m~0) with (2 * Zpos m) in L.
  split; [| exact G].
  replace (2 ^ Zpos (Pos.size m)) with (2 * 2 ^ (Zpos (Pos.size m) - 1)) in L.
  - lia.
  - rewrite <- (Z.pow_succ_r 2) by lia. f_equal; lia.
Qed.

Lemma canonical_digits (m : positive) (e : Z) :
  canonical_mantissa prec emax m e = true ->
  Zpos (digits2_pos m) <= 53
  /\ (-1074 < e -> Zpos (digits2_pos m) = 53).
Proof.
  unfold canonical_mantissa, fexp, emin. intros H.
  apply Z.eqb_eq in H. change prec with 53 in H. change emax with 1024 in H.
  lia.
Qed.

(** A number in (0, 1): its mantissa is below 2^53 and its exponent is
    at most -53. *)
Lemma below_one (x : float) (m : positive) (e : Z) :
  Prim2SF x = S754_finite false m e -> PrimFloat.ltb x 1%float = true ->
  Zpos m < 2 ^ 53 /\ e <= -53.
Proof.
  intros E L. pose proof (Prim2SF_valid x) as V. rewrite E in V.
  simpl in V. apply andb_true_iff in V. destruct V as [C _].
  destruct (canonical_digits m e C) as [D1 D2].
  pose proof (digits_bounds m) as [B1 B2].
  split.
  - apply (Z.lt_le_trans _ _ _ B2). apply Z.pow_le_mono_r; lia.
  - rewrite ltb_spec, E in L.
    change (Prim2SF 1%float) with (S754_finite false 4503599627370496 (-52)) in L.
    remember 4503599627370496%positive as c eqn:Hc.
    unfold SFltb, SFcompare in L.
    destruct (Z.compare_spec e (-52)) as [-> | Hlt | Hgt]; [| lia | discriminate].
    rewrite D2 in B1 by lia.
    change (Pos.compare_cont Eq m c) with (Pos.compare m c) in L.
    destruct (Pos.compare_spec m c) as [Hm | Hm | Hm]; try discriminate.
    change (2 ^ (53 - 1)) with 4503599627370496 in B1. lia.
Qed.

(** ** The key a draw selects *)

(** The product of a number in (0, 1) and 6 (the mantissa [m6] at the
    exponent -50), rounded: zero or a positive number below 6. *)
Lemma product_below_6 (m m6 : positive) (e : Z) :
  Zpos m6 = 6755399441055744 ->
  Zpos m < 2 ^ 53 -> e <= -53 ->
  let res := binary_round_aux prec emax false (Zpos (m * m6)) (e + -50)
               loc_Exact in
  res = S754_zero false
  \/ exists m3 e3, res = S754_finite false m3 e3 /\ below 6 m3 e3.
Proof.
  intros H6 Hm He res. subst res. unfold binary_round_aux.
  set (M := Zpos (m * m6)). set (E := e + -50).
  assert (0 < M < 2 ^ 106 /\ M <= 6755399441055744 * (2 ^ 53 - 1)) as [HM HM'].
  { subst M. rewrite Pos2Z.inj_mul, H6.
    change (2 ^ 106) with (2 ^ 53 * 2 ^ 53). change (2 ^ 53) with 9007199254740992 in *.
    lia. }
  pose proof (round_value M E ltac:(lia)) as R. cbv zeta in R.
  destruct (shr_fexp prec emax M E loc_Exact) as [mrs' e'].
  destruct (shr_fexp prec emax _ e' loc_Exact) as [mrs'' e''].
  destruct R as [R0 [RE R]].
  set (n := Z.max (fexp prec emax (Zdigits2 M + E) - E) 0) in *.
  assert (0 <= n <= - e) as Hn.
  { subst n. unfold fexp, emin. change prec with 53. change emax with 1024.
    assert (Zdigits2 M <= 106) as D.
    { subst M. simpl Zdigits2.
      pose proof (digits_bounds (m * m6)) as [B _].
      destruct (Z_le_gt_dec (Zpos (digits2_pos (m * m6))) 106) as [L | G];
        [exact L | exfalso].
      assert (2 ^ 106 <= 2 ^ (Zpos (digits2_pos (m * m6)) - 1))
        by (apply Z.pow_le_mono_r; lia).
      lia. }
    subst E. lia. }
  clearbody n.
  set (X := 2 ^ (- e - 1)).
  assert (2 ^ 52 <= X) as HX by (apply Z.pow_le_mono_r; lia).
  assert (2 ^ (n - 1) <= X) as HnX.
  { destruct (Z.eq_dec n 0) as [-> | N0].
    - change (2 ^ (0 - 1)) with 0. subst X. apply Z.pow_nonneg. lia.
    - apply Z.pow_le_mono_r; lia. }
  assert (2 ^ (- E) = 2 ^ 51 * X) as HE.
  { subst X E. rewrite <- Z.pow_add_r by lia. f_equal; lia. }
  change (2 ^ 52) with 4503599627370496 in HX.
  change (2 ^ 51) with 2251799813685248 in HE.
  change (2 ^ 53) with 9007199254740992 in HM'.
  assert (shr_m mrs'' * 2 ^ (e'' - E) < 6 * 2 ^ (- E)) as Hv by lia.
  clearbody X M.
  destruct (shr_m mrs'') as [| m3 | m3] eqn:Em; [left; reflexivity | | lia].
  right.
  assert (0 < 2 ^ (e'' - E)) as P1 by (apply Z.pow_pos_nonneg; lia).
  assert (0 < 2 ^ (- E)) as P2 by (apply Z.pow_pos_nonneg; lia).
  assert (below 6 m3 e'') as Hb.
  { unfold below. destruct (Z.ltb_spec e'' 0) as [Neg | Pos].
    - assert (2 ^ (- E) = 2 ^ (- e'') * 2 ^ (e'' - E)) as Es.
      { rewrite <- Z.pow_add_r by lia. f_equal; lia. }
      assert (0 < 2 ^ (- e'')) by (apply Z.pow_pos_nonneg; lia).
      rewrite Es in Hv. nia.
    - assert (2 ^ (e'' - E) = 2 ^ e'' * 2 ^ (- E)) as Es.
      { rewrite <- Z.pow_add_r by lia. f_equal; lia. }
      assert (0 < 2 ^ e'') by (apply Z.pow_pos_nonneg; lia).
      rewrite Es in Hv. nia. }
  assert (e'' <= 2) as He2.
  { destruct (Z_le_gt_dec e'' 2) as [L | G]; [exact L | exfalso].
    unfold below in Hb. destruct (Z.ltb_spec e'' 0); [lia |].
    assert (2 ^ 3 <= 2 ^ e'') by (apply Z.pow_le_mono_r; lia).
    change (2 ^ 3) with 8 in *. lia. }
  destruct (Z.leb_spec e'' (emax - prec)) as [_ | Big];
    [| change (emax - prec) with 971 in Big; lia].
  exists m3, e''. split; [reflexivity | exact Hb].
Qed.

End RoundingFacts.

(* ================================================================== *)
(** * Facts about the draws *)
(* ================================================================== *)

Module DrawFacts.

Import FloatFacts Numbers RoundingFacts AudioEngine Inputs.
Local Open Scope float_scope.

(** The floor of a positive number below 6 is one of the indices 0..5. *)
Lemma floor_index (x : float) (m : positive) (e : Z) :
  Prim2SF x = S754_finite false m e -> below 6 m e ->
  exists z, array_index (Math_floor x) = Some z /\ (0 <= z < 6)%Z.
Proof.
  intros E B. unfold below in B. unfold Math_floor. rewrite E.
  destruct (Z.ltb_spec e 0) as [Neg | Pos].
  - cbn [cond_Zopp]. rewrite Z.shiftl_div_pow2 by lia.
    assert (0 < 2 ^ (- e))%Z as P by (apply Z.pow_pos_nonneg; lia).
    assert (0 <= Zpos m / 2 ^ (- e) < 6)%Z as [L U].
    { split; [apply Z.div_pos; lia |]. apply Z.div_lt_upper_bound; lia. }
    set (z := (Zpos m / 2 ^ (- e))%Z) in *. clearbody z. exists z.
    split; [| lia].
    assert (z = 0 \/ z = 1 \/ z = 2 \/ z = 3 \/ z = 4 \/ z = 5)%Z
      as [-> | [-> | [-> | [-> | [-> | ->]]]]] by lia;
      vm_compute; reflexivity.
  - unfold array_index. rewrite E.
    destruct (Z.leb_spec 0 e); [| lia].
    rewrite Z.shiftl_mul_pow2 by lia.
    exists (Zpos m * 2 ^ e)%Z. split; [reflexivity |].
    assert (0 < 2 ^ e)%Z by (apply Z.pow_pos_nonneg; lia). nia.
Qed.

Lemma floor_of_zero (x : float) (s : bool) :
  Prim2SF x = S754_zero s -> array_index (Math_floor x) = Some 0%Z.
Proof.
  intros E. unfold Math_floor. rewrite E. unfold array_index. rewrite E.
  reflexivity.
Qed.

(** A draw in [0, 1) times the number of keys, floored, is an index of
    [paramKeys]. *)
Lemma unit_draw_index (r : float) :
  unitDraw r = true ->
  exists z,
    array_index (Math_floor (r * of_nat (List.length paramKeys))) = Some z
    /\ (0 <= z < 6)%Z.
Proof.
  unfold unitDraw. intros U. apply andb_true_iff in U. destruct U as [L U].
  assert (of_nat (List.length paramKeys) = 6) as -> by (vm_compute; reflexivity).
  assert (exists m6, Prim2SF 6 = S754_finite false m6 (-50)
                     /\ Zpos m6 = 6755399441055744%Z) as [m6 [E6 H6]]
    by (eexists; split; vm_compute; reflexivity).
  pose proof (mul_spec r 6) as P. rewrite E6 in P.
  rewrite leb_spec in L. change (Prim2SF 0) with (S754_zero false) in L.
  destruct (Prim2SF r) as [s | s | | s m e] eqn:E.
  - exists 0%Z. split; [| lia]. apply (floor_of_zero _ (xorb s false)), P.
  - rewrite ltb_spec, E in U. destruct s; discriminate.
  - discriminate.
  - destruct s; [discriminate |].
    destruct (below_one r m e E U) as [Hm He].
    unfold SF64mul, SFmul in P. cbn [xorb] in P.
    destruct (product_below_6 m m6 e H6 Hm He) as [Z | [m3 [e3 [F B]]]];
      cbv zeta in *.
    + rewrite Z in P. exists 0%Z. split; [| lia]. apply (floor_of_zero _ false), P.
    + rewrite F in P. apply (floor_index _ m3 e3 P B).
Qed.

Lemma unit_draw_valid (r : float) : unitDraw r = true -> validDraw r = true.
Proof.
  intros U. destruct (unit_draw_index r U) as [z [A Hz]].
  unfold validDraw, keyToMutate. rewrite A.
  change (Z.of_nat (List.length paramKeys)) with 6%Z.
  destruct (Z.ltb_spec z 6); [| lia].
  assert (z = 0 \/ z = 1 \/ z = 2 \/ z = 3 \/ z = 4 \/ z = 5)%Z
    as [-> | [-> | [-> | [-> | [-> | ->]]]]] by lia; reflexivity.
Qed.

End DrawFacts.

(* ================================================================== *)
(** * Facts about differences *)
(* ================================================================== *)

Module DifferenceFacts.

Import FloatFacts Numbers NumberFacts RoundingFacts.
Local Open Scope Z_scope.

(** ** Shifts to the right are divisions *)

Lemma shr_1_div (mrs : shr_record) :
  0 <= shr_m mrs -> shr_m (shr_1 mrs) = shr_m mrs / 2.
Proof.
  destruct mrs as [m r s]. cbn [shr_m]. intros H.
  destruct m as [| [p | p |] | p]; try lia; unfold shr_1; cbn [shr_m].
  - reflexivity.
  - change (Zpos p~1) with (2 * Zpos p + 1).
    apply Z.div_unique with (r := 1); lia.
  - change (Zpos p~0) with (2 * Zpos p).
    apply Z.div_unique with (r := 0); lia.
  - reflexivity.
Qed.

Lemma iter_shr_1_div (p : positive) : forall mrs,
  0 <= shr_m mrs ->
  shr_m (iter_pos shr_1 p mrs) = shr_m mrs / 2 ^ Zpos p.
Proof.
  induction p as [p IH | p IH |]; intros mrs H; simpl iter_pos.
  - rewrite IH by (apply iter_shr_1_nonneg, shr_1_nonneg, H).
    rewrite IH by (apply shr_1_nonneg, H).
    rewrite shr_1_div by exact H.
    assert (0 < 2 ^ Zpos p) by (apply Z.pow_pos_nonneg; lia).
    rewrite !Z.div_div by lia. f_equal.
    replace (Zpos p~1) with (1 + Zpos p + Zpos p) by lia.
    rewrite !Z.pow_add_r by lia. change (2 ^ 1) with 2. lia.
  - rewrite IH by (apply iter_shr_1_nonneg, H).
    rewrite IH by exact H.
    assert (0 < 2 ^ Zpos p) by (apply Z.pow_pos_nonneg; lia).
    rewrite !Z.div_div by lia. f_equal.
    replace (Zpos p~0) with (Zpos p + Zpos p) by lia.
    rewrite !Z.pow_add_r by lia. reflexivity.
  - rewrite shr_1_div by exact H. reflexivity.
Qed.

(** A shift by fewer places than [M] has digits leaves a mantissa that
    is not zero. *)
Lemma shr_fexp_positive (M : positive) (E : Z) :
  -1074 <= E ->
  let '(mrs, e1) := shr_fexp prec emax (Zpos M) E loc_Exact in
  0 < shr_m mrs /\ -1074 <= e1.
Proof.
  intros HE. unfold shr_fexp, shr, fexp, emin. simpl Zdigits2.
  change prec with 53. change emax with 1024.
  set (d := Zpos (digits2_pos M)).
  pose proof (digits_bounds M) as [B1 B2]. fold d in B1, B2.
  destruct (Z.max (d + E - 53) (3 - 1024 - 53) - E) as [| p | p] eqn:En;
    simpl shr_record_of_loc; try (simpl; lia).
  rewrite iter_shr_1_div by (simpl; lia). simpl shr_m.
  assert (Zpos p = d - 53) as Hp by lia.
  split; [| lia].
  assert (2 ^ Zpos p <= Zpos M).
  { apply (Z.le_trans _ (2 ^ (d - 1))); [| exact B1].
    apply Z.pow_le_mono_r; lia. }
  assert (0 < 2 ^ Zpos p) by (apply Z.pow_pos_nonneg; lia).
  apply Z.div_str_pos. lia.
Qed.

Lemma round_nearest_even_ge (m : Z) (l : location) :
  m <= round_nearest_even m l.
Proof.
  destruct l as [| [| |]]; simpl; try lia. destruct (Z.even m); lia.
Qed.

(** Rounding a positive integer at an exponent that is not below the
    smallest one never gives zero. *)
Lemma binary_round_aux_positive (s : bool) (M : positive) (E : Z) :
  -1074 <= E ->
  match binary_round_aux prec emax s (Zpos M) E loc_Exact with
  | S754_infinity s' | S754_finite s' _ _ => s' = s
  | _ => False
  end.
Proof.
  intros HE. unfold binary_round_aux.
  pose proof (shr_fexp_positive M E HE) as H1.
  destruct (shr_fexp prec emax (Zpos M) E loc_Exact) as [mrs' e'].
  destruct H1 as [P1 E1].
  pose proof (round_nearest_even_ge (shr_m mrs') (loc_of_shr_record mrs')) as G.
  destruct (round_nearest_even (shr_m mrs') (loc_of_shr_record mrs'))
    as [| m2 | m2] eqn:R; try lia.
  pose proof (shr_fexp_positive m2 e' E1) as H2.
  destruct (shr_fexp prec emax (Zpos m2) e' loc_Exact) as [mrs'' e''].
  destruct H2 as [P2 _].
  destruct (shr_m mrs''); try lia.
  destruct (e'' <=? emax - prec); reflexivity.
Qed.

Lemma iter_xO_value (p : positive) (m : positive) :
  Zpos (Pos.iter xO m p) = Zpos m * 2 ^ Zpos p.
Proof.
  induction p as [| p IH] using Pos.peano_ind.
  - simpl. lia.
  - rewrite Pos.iter_succ, Pos2Z.inj_succ, Z.pow_succ_r by lia.
    change (Zpos (Pos.iter xO m p)~0) with (2 * Zpos (Pos.iter xO m p)).
    rewrite IH. lia.
Qed.

Lemma shl_align_value (m : positive) (e ez : Z) :
  ez <= e ->
  Zpos (fst (shl_align m e ez)) = Zpos m * 2 ^ (e - ez)
  /\ snd (shl_align m e ez) = ez.
Proof.
  intros H. unfold shl_align.
  destruct (ez - e) as [| p | p] eqn:D; try lia; cbn [fst snd].
  - replace (e - ez) with 0 by lia. rewrite Z.pow_0_r. split; lia.
  - rewrite iter_xO_value. replace (e - ez) with (Zpos p) by lia.
    split; reflexivity.
Qed.

Lemma binary_round_positive (s : bool) (d : positive) (ez : Z) :
  -1074 <= ez ->
  match binary_round prec emax s d ez with
  | S754_infinity s' | S754_finite s' _ _ => s' = s
  | _ => False
  end.
Proof.
  intros H. unfold binary_round.
  destruct (shl_align d ez (fexp prec emax (Zpos (digits2_pos d) + ez)))
    as [mz ez'] eqn:S.
  apply binary_round_aux_positive.
  assert (-1074 <= fexp prec emax (Zpos (digits2_pos d) + ez)) as F.
  { unfold fexp, emin. change prec with 53. change emax with 1024. lia. }
  revert S. unfold shl_align.
  destruct (_ - ez) as [| p | p] eqn:D; intros [= <- <-];
    first [exact H | exact F].
Qed.

Lemma canonical_exponent (m : positive) (e : Z) :
  canonical_mantissa prec emax m e = true -> -1074 <= e.
Proof.
  unfold canonical_mantissa, fexp, emin. intros H. apply Z.eqb_eq in H.
  change prec with 53 in H. change emax with 1024 in H. lia.
Qed.

(** The comparison of two positive numbers is the comparison of their
    mantissas once they are aligned to the smaller exponent. *)
Lemma compare_aligned (ma : positive) (ea : Z) (mb : positive) (eb : Z) :
  canonical_mantissa prec emax ma ea = true ->
  canonical_mantissa prec emax mb eb = true ->
  SFcompare (S754_finite false mb eb) (S754_finite false ma ea)
  = Some (Z.compare (Zpos (fst (shl_align mb eb (Z.min ea eb))))
                    (Zpos (fst (shl_align ma ea (Z.min ea eb))))).
Proof.
  intros Ca Cb. unfold SFcompare. f_equal.
  destruct (canonical_digits ma ea Ca) as [Da Da'].
  destruct (canonical_digits mb eb Cb) as [Db Db'].
  pose proof (canonical_exponent ma ea Ca) as Ea.
  pose proof (canonical_exponent mb eb Cb) as Eb.
  pose proof (digits_bounds ma) as [A1 A2].
  pose proof (digits_bounds mb) as [B1 B2].
  destruct (shl_align_value ma ea (Z.min ea eb) ltac:(lia)) as [-> _].
  destruct (shl_align_value mb eb (Z.min ea eb) ltac:(lia)) as [-> _].
  assert (forall m : positive, Zpos (digits2_pos m) <= 53 -> Zpos m < 2 ^ 53) as Up.
  { intros m D. pose proof (digits_bounds m) as [_ U].
    apply (Z.lt_le_trans _ _ _ U). apply Z.pow_le_mono_r; lia. }
  assert (forall m : positive, Zpos (digits2_pos m) = 53 -> 2 ^ 52 <= Zpos m) as Lo.
  { intros m D. pose proof (digits_bounds m) as [L _]. rewrite D in L. exact L. }
  destruct (Z.compare_spec eb ea) as [-> | Hlt | Hgt].
  - rewrite Z.min_id, Z.sub_diag, Z.pow_0_r, !Z.mul_1_r. reflexivity.
  - replace (Z.min ea eb) with eb by lia.
    rewrite Z.sub_diag, Z.pow_0_r, Z.mul_1_r.
    symmetry. apply Z.compare_lt_iff.
    pose proof (Up mb Db). pose proof (Lo ma (Da' ltac:(lia))).
    assert (2 ^ 1 <= 2 ^ (ea - eb)) by (apply Z.pow_le_mono_r; lia).
    change (2 ^ 1) with 2 in *. change (2 ^ 53) with (2 * 2 ^ 52) in *. nia.
  - replace (Z.min ea eb) with ea by lia.
    rewrite Z.sub_diag, Z.pow_0_r, Z.mul_1_r.
    symmetry. apply Z.compare_gt_iff.
    pose proof (Up ma Da). pose proof (Lo mb (Db' ltac:(lia))).
    assert (2 ^ 1 <= 2 ^ (eb - ea)) by (apply Z.pow_le_mono_r; lia).
    change (2 ^ 1) with 2 in *. change (2 ^ 53) with (2 * 2 ^ 52) in *. nia.
Qed.

Local Open Scope float_scope.

Lemma unsigned_number (x : float) :
  unsigned_number_sf (Prim2SF x)
  <-> not_negative_sf (Prim2SF x) /\ is_nan x = false.
Proof.
  rewrite is_nan_false_sf.
  destruct (Prim2SF x); simpl; intuition congruence.
Qed.

Lemma unsigned_leb_zero (x : float) :
  unsigned_number_sf (Prim2SF x) -> is_nan x = false /\ (0 <=? x) = true.
Proof.
  intros U. apply unsigned_number in U. destruct U as [N Nn].
  split; [exact Nn |].
  revert N Nn. rewrite is_nan_false_sf, leb_spec.
  change (Prim2SF 0) with (S754_zero false).
  destruct (Prim2SF x) as [s | s | | s m e]; simpl; try congruence;
    intros -> _; reflexivity.
Qed.

Lemma unsigned_valid (x : float) (m : positive) (e : Z) (s : bool) :
  Prim2SF x = S754_finite s m e -> canonical_mantissa prec emax m e = true.
Proof.
  intros E. pose proof (Prim2SF_valid x) as V. rewrite E in V.
  unfold SpecFloat.valid_binary, bounded in V.
  apply andb_true_iff in V. apply V.
Qed.

(** The sign of a difference: for two numbers that are not negative,
    [a - b] is above 0 exactly when [b] is below [a]. *)
Lemma difference_sign (a b : float) :
  unsigned_number_sf (Prim2SF a) -> unsigned_number_sf (Prim2SF b) ->
  (0 <? a - b) = (b <? a).
Proof.
  rewrite !ltb_spec, sub_spec. change (Prim2SF 0) with (S754_zero false).
  destruct (Prim2SF a) as [sa | sa | | sa ma ea] eqn:Ea,
           (Prim2SF b) as [sb | sb | | sb mb eb] eqn:Eb;
    simpl unsigned_number_sf; try contradiction; intros -> ->;
    try reflexivity.
  pose proof (unsigned_valid a _ _ _ Ea) as Ca.
  pose proof (unsigned_valid b _ _ _ Eb) as Cb.
  unfold SFltb at 2. rewrite (compare_aligned ma ea mb eb Ca Cb).
  unfold SF64sub, SFsub. cbn [cond_Zopp].
  set (A := Zpos (fst (shl_align ma ea (Z.min ea eb)))).
  set (B := Zpos (fst (shl_align mb eb (Z.min ea eb)))).
  pose proof (canonical_exponent ma ea Ca). pose proof (canonical_exponent mb eb Cb).
  unfold binary_normalize.
  destruct (Z.compare_spec B A) as [E | L | G].
  - replace (A - B)%Z with 0%Z by lia. reflexivity.
  - destruct (A - B)%Z as [| d | d] eqn:D; try lia.
    pose proof (binary_round_positive false d (Z.min ea eb) ltac:(lia)) as P.
    destruct (binary_round prec emax false d (Z.min ea eb)) as [s | s | | s m e];
      try contradiction; subst s; reflexivity.
  - destruct (A - B)%Z as [| d | d] eqn:D; try lia.
    unfold binary_round. destruct (shl_align d _ _) as [mz ez].
    pose proof (binary_round_aux_sign true (Zpos mz) ez loc_Exact) as S.
    destruct (binary_round_aux prec emax true (Zpos mz) ez loc_Exact)
      as [s | s | | s m e]; try subst s; reflexivity.
Qed.

(** And [a - b] is below 0 exactly when [a] is below [b]. *)
Lemma difference_negative (a b : float) :
  unsigned_number_sf (Prim2SF a) -> unsigned_number_sf (Prim2SF b) ->
  (a - b <? 0) = (a <? b).
Proof.
  rewrite !ltb_spec, sub_spec. change (Prim2SF 0) with (S754_zero false).
  destruct (Prim2SF a) as [sa | sa | | sa ma ea] eqn:Ea,
           (Prim2SF b) as [sb | sb | | sb mb eb] eqn:Eb;
    simpl unsigned_number_sf; try contradiction; intros -> ->;
    try reflexivity.
  pose proof (unsigned_valid a _ _ _ Ea) as Ca.
  pose proof (unsigned_valid b _ _ _ Eb) as Cb.
  unfold SFltb at 2. rewrite (compare_aligned mb eb ma ea Cb Ca).
  unfold SF64sub, SFsub. cbn [cond_Zopp].
  rewrite (Z.min_comm eb ea).
  set (A := Zpos (fst (shl_align ma ea (Z.min ea eb)))).
  set (B := Zpos (fst (shl_align mb eb (Z.min ea eb)))).
  pose proof (canonical_exponent ma ea Ca). pose proof (canonical_exponent mb eb Cb).
  unfold binary_normalize.
  destruct (Z.compare_spec A B) as [E | L | G].
  - replace (A - B)%Z with 0%Z by lia. reflexivity.
  - destruct (A - B)%Z as [| d | d] eqn:D; try lia.
    pose proof (binary_round_positive true d (Z.min ea eb) ltac:(lia)) as P.
    destruct (binary_round prec emax true d (Z.min ea eb)) as [s | s | | s m e];
      try contradiction; subst s; reflexivity.
  - destruct (A - B)%Z as [| d | d] eqn:D; try lia.
    unfold binary_round. destruct (shl_align d _ _) as [mz ez].
    pose proof (binary_round_aux_sign false (Zpos mz) ez loc_Exact) as S.
    destruct (binary_round_aux prec emax false (Zpos mz) ez loc_Exact)
      as [s | s | | s m e]; try subst s; reflexivity.
Qed.

End DifferenceFacts.

(* ================================================================== *)
(** * Facts about the engine *)
(* ================================================================== *)

Module EngineFacts.

Import FloatFacts Numbers NumberFacts DifferenceFacts.
Import AudioEngine Inputs Settings AnnealFacts.
Local Open Scope float_scope.

Lemma not_negative_cases (x : float) :
  not_negative_sf (Prim2SF x) -> is_nan x = true \/ (0 <=? x) = true.
Proof.
  destruct (is_nan x) eqn:N; [left; reflexivity | right].
  revert N H. rewrite is_nan_false_sf, leb_spec.
  change (Prim2SF 0) with (S754_zero false). unfold SFleb.
  destruct (Prim2SF x) as [s | s | | s m e]; simpl; try congruence;
    intros _ ->; reflexivity.
Qed.

Lemma energy_not_negative (M : MathLib) (this : Engine) (params : SynthParams)
    (target : option Spectrum) :
  not_negative_sf (Prim2SF (calculateEnergy M this params target)).
Proof.
  destruct target as [target |]; [| reflexivity].
  unfold calculateEnergy.
  apply div_not_negative; [| apply of_nat_not_negative].
  apply (fold_add_squares_not_negative
           (fun i => Math_log M (get (estimateSynthSpectrum M this params) i + 1)
                     - Math_log M (get (magnitudes target) i + 1))).
  reflexivity.
Qed.

(** The energy reads the oscillator type, the filter and the distortion
    only. *)
Lemma energy_ignores_envelope (M : MathLib) (this : Engine) (key : ParamKey)
    (v : float) (p : SynthParams) (target : option Spectrum) :
  envelopeKey key = true ->
  calculateEnergy M this (set_param key v p) target
  = calculateEnergy M this p target.
Proof.
  destruct key; try discriminate; intros _; reflexivity.
Qed.

(** Consecutive states of a trajectory are one iteration apart. *)
Lemma trajectory_step (M : MathLib) (random : nat -> float) (this : Engine)
    (target : option Spectrum) (steps todo : nat) :
  forall step st l k a b,
    trajectory M random this target steps todo step st = Return l ->
    nth_error l k = Some a -> nth_error l (S k) = Some b ->
    annealStep M random this target steps (step + k) a = Return b.
Proof.
  induction todo as [| todo IH]; intros step st l k a b; simpl.
  - intros [= <-]. destruct k; discriminate.
  - destruct (annealStep M random this target steps step st) as [st' |] eqn:E;
      simpl; [| discriminate].
    destruct (trajectory M random this target steps todo (S step) st')
      as [rest |] eqn:T; simpl; [| discriminate].
    intros [= <-]. destruct k as [| k]; simpl.
    + intros [= <-]. destruct (trajectory_head _ _ _ _ _ _ _ _ _ T) as [r ->].
      simpl. intros [= <-]. rewrite Nat.add_0_r. exact E.
    + intros Ha Hb. replace (step + S k)%nat with (S step + k)%nat by lia.
      apply (IH _ _ _ _ _ _ T Ha Hb).
Qed.

(** Along a run, every state carries the energy of its parameters, and
    its energy is not below the best one. *)
Lemma trajectory_current_not_below_best (M : MathLib) (random : nat -> float)
    (this : Engine) (target : option Spectrum) (steps : nat)
    (l : list AnnealState) (k : nat) (s : AnnealState) :
  trajectory M random this target steps steps 0 (initialState M this target)
  = Return l ->
  nth_error l k = Some s ->
  st_currentEnergy s = calculateEnergy M this (st_currentParams s) target
  /\ (st_currentEnergy s <? st_bestEnergy s) = false.
Proof.
  intros T Hk.
  pose proof (trajectory_tracked M random this target steps steps 0
                (initialState M this target) [] l
                (Tracked_initial M this target) T k s Hk) as [Hin [Hc [_ [_ Hb]]]].
  split; [exact Hc | apply Hb, Hin].
Qed.

(** An energy that is a number is a number that is not negative. *)
Lemma energy_unsigned (M : MathLib) (this : Engine) (params : SynthParams)
    (target : option Spectrum) :
  is_nan (calculateEnergy M this params target) = false ->
  unsigned_number_sf (Prim2SF (calculateEnergy M this params target)).
Proof.
  intros N. apply unsigned_number. split; [apply energy_not_negative | exact N].
Qed.

(** [delta < 0] says that the new energy is below the current one. *)
Lemma delta_negative (M : MathLib) (this : Engine) (p q : SynthParams)
    (target : option Spectrum) :
  (calculateEnergy M this p target - calculateEnergy M this q target <? 0)
  = (calculateEnergy M this p target <? calculateEnergy M this q target).
Proof.
  destruct (is_nan (calculateEnergy M this p target)) eqn:Np.
  - rewrite (ltb_nan_l _ _ Np). apply ltb_nan_l.
    apply is_nan_sf. rewrite sub_spec. apply is_nan_sf in Np. rewrite Np.
    reflexivity.
  - destruct (is_nan (calculateEnergy M this q target)) eqn:Nq.
    + rewrite (ltb_nan_l _ _ (sub_nan_r _ _ Nq)).
      symmetry. rewrite ltb_spec. apply is_nan_sf in Nq. rewrite Nq.
      unfold SFltb. rewrite SFcompare_nan_r. reflexivity.
    + apply difference_negative; apply energy_unsigned; assumption.
Qed.

(** The keys outside the mutable set stay as they are along a run. *)
Lemma frame_set_param (key : ParamKey) (v : float) (p : SynthParams) :
  sameFrame p (set_param key v p).
Proof. repeat split. Qed.

Lemma frame_trans (p q r : SynthParams) :
  sameFrame p q -> sameFrame q r -> sameFrame p r.
Proof.
  intros (A1 & A2 & A3 & A4) (B1 & B2 & B3 & B4). repeat split; congruence.
Qed.

Lemma frame_step (M : MathLib) (random : nat -> float) (this : Engine)
    (target : option Spectrum) (steps step : nat) (init : SynthParams)
    (st st' : AnnealState) :
  annealStep M random this target steps step st = Return st' ->
  sameFrame init (st_currentParams st) /\ sameFrame init (st_bestParams st) ->
  sameFrame init (st_currentParams st') /\ sameFrame init (st_bestParams st').
Proof.
  intros S [Fc Fb].
  destruct (annealStep_outcome _ _ _ _ _ _ _ _ S)
    as [E1 _ E3 _ | key newParams _ En E1 _ _ E3 _ | key newParams _ En E1 _ _ E3 _];
    rewrite E1, E3; split; try assumption; subst newParams;
    apply (frame_trans _ _ _ Fc), frame_set_param.
Qed.

Lemma frame_trajectory (M : MathLib) (random : nat -> float) (this : Engine)
    (target : option Spectrum) (steps : nat) (init : SynthParams)
    (todo : nat) : forall step st l,
  sameFrame init (st_currentParams st) /\ sameFrame init (st_bestParams st) ->
  trajectory M random this target steps todo step st = Return l ->
  sameFrame init (st_bestParams (last l st)).
Proof.
  induction todo as [| todo IH]; intros step st l F; simpl.
  - intros [= <-]. apply F.
  - destruct (annealStep M random this target steps step st) as [st' |] eqn:St;
      simpl; [| discriminate].
    destruct (trajectory M random this target steps todo (S step) st')
      as [rest |] eqn:T; simpl; [| discriminate].
    intros [= <-].
    destruct (trajectory_head _ _ _ _ _ _ _ _ _ T) as [r E].
    pose proof (IH _ _ _ (frame_step _ _ _ _ _ _ _ _ _ St F) T) as H.
    rewrite E in *. change (last (st :: st' :: r) st) with (last (st' :: r) st).
    rewrite (last_cons_default st' r st st'). exact H.
Qed.

Lemma mirrors_applied (this : Engine) (g : AudioGraph) (p : SynthParams) :
  inStep (Spec.applied this g p).
Proof. eexists. split; [reflexivity |]. repeat split. Qed.

End EngineFacts.

(* ================================================================== *)
(** * Further properties of the engine *)
(* ================================================================== *)

Module EngineProperties.

Import FloatFacts Numbers NumberFacts DifferenceFacts.
Import AudioEngine Inputs Settings AnnealFacts.
Import DrawFacts EngineFacts Examples.
Local Open Scope float_scope.

(** X1.  The energy is never negative: for every parameter set and every
    target, [calculateEnergy] returns NaN or a number that is at least
    0. *)
Theorem energy_never_negative (M : MathLib) (this : Engine)
    (params : SynthParams) (target : option Spectrum) :
  (calculateEnergy M this params target <? 0) = false
  /\ (is_nan (calculateEnergy M this params target) = true
      \/ (0 <=? calculateEnergy M this params target) = true).
Proof.
  split.
  - apply not_negative_ltb, energy_not_negative.
  - apply not_negative_cases, energy_not_negative.
Qed.

(** X2.  A run never returns a parameter set that is worse than the one
    it started from: on an initialized engine, the energy of
    [currentParams] is not below the energy of the set returned. *)
Theorem anneal_never_worse_than_start (M : MathLib) (random : nat -> float)
    (this : Engine) (target : option Spectrum) (steps : nat) (cb : bool) :
  ready this = true ->
  (forall n, validDraw (random n) = true) ->
  NeverWorse M random this target steps cb.
Proof.
  intros R D.
  destruct (run_characterized M random this target steps D cb R)
    as [traj [g [T [L [_ Run]]]]].
  eexists. eexists. split; [exact Run |]. split; [reflexivity |]. simpl.
  set (init := initialState M this target) in *.
  assert (traj <> []) as Ne by (intros ->; discriminate).
  pose proof (nth_error_last traj init Ne) as Hlast.
  pose proof (trajectory_tracked M random this target steps steps 0 init []
                traj (Tracked_initial M this target) T _ _ Hlast)
    as [_ [_ [Hbe [_ Hb]]]].
  destruct (trajectory_head _ _ _ _ _ _ _ _ _ T) as [rest E].
  rewrite <- Hbe. apply (Hb init). rewrite E. left. reflexivity.
Qed.

(** X2 at the sample run. *)
Lemma anneal_never_worse_than_start_witness :
  NeverWorse sampleMath sampleDraws freshEngine (Some sampleTarget) 12 true.
Proof.
  apply anneal_never_worse_than_start;
    [reflexivity | intros n; apply sampleDraws_good].
Defined.

(** X3.  The energy does not depend on attack, decay and sustain.  So a
    step of a run that mutates one of these three keys leaves the energy
    of the current state as it is, and never yields a new best: every
    improvement of a run is a mutation of filterFreq, filterQ or
    distortionAmount. *)
Theorem envelope_steps_never_improve (M : MathLib) (random : nat -> float)
    (this : Engine) (target : option Spectrum) (steps : nat) :
  (forall n, validDraw (random n) = true) ->
  EnvelopeNeutral M random this target steps.
Proof.
  intros D. split.
  - intros key v p Hk. apply energy_ignores_envelope, Hk.
  - destruct (trajectory_returns M random this target steps D steps 0
                (initialState M this target)) as [traj [T _]].
    exists traj. split; [exact T |].
    intros k a b key Ha Hb Hkey Henv.
    pose proof (trajectory_step _ _ _ _ _ _ _ _ _ _ _ _ T Ha Hb) as St.
    destruct (trajectory_current_not_below_best _ _ _ _ _ _ _ _ T Ha)
      as [Hc Hnb].
    simpl in St. unfold annealStep in St. rewrite Hkey in St.
    rewrite (energy_ignores_envelope M this key _ _ target Henv) in St.
    rewrite <- Hc in St.
    destruct (st_currentEnergy a - st_currentEnergy a <? 0);
      [| destruct (random (S (S (st_draws a))) <? _)];
      rewrite ?Hnb in St; injection St as <-; simpl; auto.
Qed.

(** X3 at the sample run. *)
Lemma envelope_steps_never_improve_witness :
  EnvelopeNeutral sampleMath sampleDraws freshEngine (Some sampleTarget) 12.
Proof.
  apply envelope_steps_never_improve. intros n. apply sampleDraws_good.
Defined.

(** X4.  [Math.random] cannot make a run throw: every draw in [0, 1)
    selects one of the six keys (the index [floor(r * 6)] is never 6, also
    after rounding), so on an initialized engine a run with such draws
    returns a parameter set, and calls the callback once per step. *)
Theorem unit_draws_select_keys (M : MathLib) (random : nat -> float)
    (this : Engine) (target : option Spectrum) (steps : nat) (cb : bool) :
  ready this = true ->
  (forall n, unitDraw (random n) = true) ->
  Completes M random this target steps cb.
Proof.
  intros R U.
  assert (forall n, validDraw (random n) = true) as D
    by (intros n; apply unit_draw_valid, U).
  split.
  - intros n. specialize (D n). unfold validDraw in D.
    destruct (keyToMutate (random n)) as [key |]; [eauto | discriminate].
  - destruct (run_characterized M random this target steps D cb R)
      as [traj [g [T [L [_ Run]]]]].
    eexists. eexists. split; [exact Run |]. split; [reflexivity |]. simpl.
    destruct cb; [| reflexivity].
    rewrite eventsFrom_length. destruct traj; simpl in *; lia.
Qed.

(** X4 at the sample run. *)
Lemma unit_draws_select_keys_witness :
  Completes sampleMath sampleDraws freshEngine (Some sampleTarget) 12 true.
Proof.
  apply unit_draws_select_keys;
    [reflexivity | intros n; apply sampleDraws_good].
Defined.

(** X5.  The acceptance rule is the one of simulated annealing, also in
    floating point: from a state that carries the energy of its
    parameters, a trial whose energy is below the current one is always
    accepted, without a third draw ([delta < 0] holds exactly then: the
    difference of two energies never rounds to zero); any other trial
    takes a third draw and is accepted exactly when that draw is below
    [exp(-delta / temp)]. *)
Theorem metropolis_rule (M : MathLib) (random : nat -> float)
    (this : Engine) (target : option Spectrum) (steps step : nat)
    (st : AnnealState) :
  st_currentEnergy st = calculateEnergy M this (st_currentParams st) target ->
  Metropolis M random this target steps step st.
Proof.
  intros Hc key Hk newParams newEnergy.
  unfold annealStep. rewrite Hk. fold newParams. fold newEnergy.
  assert ((newEnergy - st_currentEnergy st <? 0)
          = (newEnergy <? st_currentEnergy st)) as ->
    by (subst newEnergy; rewrite Hc; apply delta_negative).
  destruct (newEnergy <? st_currentEnergy st).
  - eexists. split; [reflexivity |].
    destruct (newEnergy <? st_bestEnergy st); repeat split.
  - eexists. split; [reflexivity |].
    change (2 + st_draws st)%nat with (S (S (st_draws st))).
    destruct (random (S (S (st_draws st))) <? _);
      [destruct (newEnergy <? st_bestEnergy st) |]; split; reflexivity.
Qed.

(** X5 at the first step of the sample run. *)
Lemma metropolis_rule_witness :
  Metropolis sampleMath sampleDraws freshEngine (Some sampleTarget) 12 0
    (initialState sampleMath freshEngine (Some sampleTarget)).
Proof.
  apply metropolis_rule. reflexivity.
Defined.

(** X6.  What the analysis configured survives the optimizer: after
    [configure(a)] on an initialized engine, a run (with draws in [0, 1))
    returns a parameter set with the oscillator type, chorus level,
    release and vibe depth of the configured engine; so the release is
    the detected one and the chorus is at 0.5 for a wide sound, in the set
    returned and in the nodes, and the locked frequency is the detected
    pitch. *)
Theorem analysis_survives_annealing (M : MathLib) (random : nat -> float)
    (this : Engine) (a : AnalysisResults) (target : option Spectrum)
    (steps : nat) (cb : bool) :
  ready this = true ->
  (forall n, unitDraw (random n) = true) ->
  SurvivesAnnealing M random this a target steps cb.
Proof.
  intros R U.
  assert (forall n, validDraw (random n) = true) as D
    by (intros n; apply unit_draw_valid, U).
  destruct (ready_graph this R) as [I [g G]].
  unfold SurvivesAnnealing, configure, nodes. rewrite I, G. simpl.
  set (configured := {| graph := _; isInitialized := _;
                        lockedFrequency := _; currentParams := _ |}).
  assert (ready configured = true) as Rc by reflexivity.
  destruct (run_characterized M random configured target steps D cb Rc)
    as [traj [g' [T [L [G' Run]]]]].
  set (best := st_bestParams (last traj (initialState M configured target))) in *.
  assert (sameFrame (currentParams configured) best) as F.
  { apply (frame_trajectory M random configured target steps _ steps 0 _ traj);
      [split; repeat split | exact T]. }
  exists configured. eexists. exists best. eexists.
  split; [reflexivity |]. split; [exact Run |]. split; [reflexivity |].
  split; [exact F |].
  destruct F as (_ & Fc & Fr & _). simpl.
  assert (release best = detectedRelease a) as Hr
    by (rewrite <- Fr; subst configured; simpl; destruct (isWide a); reflexivity).
  assert (isWide a = true -> chorusWet best = 0.5) as Hw
    by (intros W; rewrite <- Fc; subst configured; simpl; rewrite W; reflexivity).
  repeat split; assumption.
Qed.

(** X6 at a new engine, a wide sound at 220 Hz and the sample run. *)
Lemma analysis_survives_annealing_witness :
  SurvivesAnnealing sampleMath sampleDraws freshEngine
    {| detectedRelease := 0.3; isWide := true; pitchHz := Some 220 |}
    (Some sampleTarget) 12 true.
Proof.
  apply analysis_survives_annealing;
    [reflexivity | intros n; apply sampleDraws_good].
Defined.

(** X7.  [configure] keeps the node settings and [currentParams] in
    step: on an engine whose nodes mirror [currentParams] it returns an
    engine whose nodes mirror [currentParams] again.  When the engine is
    initialized, the release and the locked frequency are those of the
    analysis, and the chorus is at 0.5 exactly when the sound is wide;
    otherwise nothing changes. *)
Theorem configure_keeps_in_step (this : Engine) (a : AnalysisResults) :
  inStep this ->
  Configured this a.
Proof.
  intros [g [G Mi]]. unfold Configured, configure, nodes. rewrite G.
  destruct (isInitialized this) eqn:I; simpl.
  - eexists. split; [reflexivity |]. split.
    + eexists. split; [reflexivity |].
      destruct Mi as (M1 & M2 & M3 & M4 & M5 & M6 & M7 & M8).
      destruct (isWide a); simpl; repeat split; assumption.
    + split; [| discriminate]. intros _.
      destruct (isWide a); simpl; repeat split.
  - exists this. split; [reflexivity |]. split; [exists g; auto |].
    split; [discriminate | reflexivity].
Qed.

(** X7 at a new engine and a wide sound at 220 Hz. *)
Lemma configure_keeps_in_step_witness :
  Configured freshEngine
    {| detectedRelease := 0.3; isWide := true; pitchHz := Some 220 |}.
Proof.
  apply configure_keeps_in_step.
  eexists. split; [reflexivity |]. repeat split.
Defined.

(** X8.  The last [applyParams] wins: applying [p] and then [q] leaves
    the engine as applying [q] alone does, provided [q] names an
    oscillator type (an empty one keeps the oscillator of [p]); and
    applying [q] twice is applying it once. *)
Theorem applyParams_last_write_wins (this : Engine) (p q : SynthParams) :
  oscillatorType q <> EmptyString ->
  (e <- applyParams this p ;; applyParams e q) = applyParams this q
  /\ (e <- applyParams this q ;; applyParams e q) = applyParams this q.
Proof.
  intros Hq. unfold applyParams, nodes.
  destruct (graph this) as [g |]; simpl; [| split; reflexivity].
  destruct (String.eqb_spec (oscillatorType q) EmptyString) as [E | _];
    [contradiction | split; reflexivity].
Qed.

(** X8 at a new engine. *)
Lemma applyParams_last_write_wins_witness :
  (e <- applyParams freshEngine (currentParams freshEngine) ;;
   applyParams e brightSaw) = applyParams freshEngine brightSaw
  /\ (e <- applyParams freshEngine brightSaw ;; applyParams e brightSaw)
     = applyParams freshEngine brightSaw.
Proof.
  apply applyParams_last_write_wins. discriminate.
Defined.

(** X9.  [setVibe] keeps its effects within its caps: when the
    distortion amount and the chorus level of [currentParams] are numbers,
    'modern' leaves the distortion at 0.3 at most and 'vintage' leaves the
    chorus at 0.7 at most.  Neither changes [currentParams] or the wet
    level of the distortion. *)
Theorem vibe_is_capped (this : Engine) (g : AudioGraph) :
  graph this = Some g ->
  is_nan (distortionAmount (currentParams this)) = false ->
  is_nan (chorusWet (currentParams this)) = false ->
  VibeCapped this g.
Proof.
  intros G Nd Nc. unfold VibeCapped, setVibe, nodes. rewrite G. simpl.
  eexists. eexists. eexists. eexists.
  split; [reflexivity |]. split; [reflexivity |].
  split; [reflexivity |]. split; [reflexivity |]. simpl.
  split; [apply Math_min_le; [reflexivity | apply add_not_nan_r; [exact Nd | reflexivity]] |].
  split; [apply Math_min_le; [reflexivity | apply add_not_nan_r; [exact Nc | reflexivity]] |].
  repeat split.
Qed.

(** X9 at a new engine. *)
Lemma vibe_is_capped_witness :
  exists g, graph freshEngine = Some g /\ VibeCapped freshEngine g.
Proof.
  eexists. split; [reflexivity |].
  apply vibe_is_capped; reflexivity.
Defined.

(** X10.  [setVibe('off')] undoes a vibe except for the rate of the LFO:
    on an engine whose nodes mirror [currentParams], a vibe followed by
    'off' leaves every node setting as it was before the vibe, with the
    LFO silent (amplitude 0) but still at the rate of the vibe (6 Hz after
    'modern', 4 Hz after 'vintage'). *)
Theorem vibe_off_restores (this : Engine) (g : AudioGraph)
    (vibeType : string) :
  graph this = Some g ->
  mirrors g (currentParams this) ->
  (v <- setVibe this vibeType ;; setVibe v "off")
  = Return {| graph := Some (with_lfo g 0 (vibeRate vibeType g));
              isInitialized := isInitialized this;
              lockedFrequency := lockedFrequency this;
              currentParams := currentParams this |}.
Proof.
  intros G (M1 & M2 & M3 & M4 & M5 & M6 & M7 & M8).
  unfold setVibe, nodes, vibeRate, with_lfo. rewrite G. simpl.
  rewrite <- M7, <- M8.
  destruct (String.eqb vibeType "modern"); [reflexivity |].
  destruct (String.eqb vibeType "vintage"); reflexivity.
Qed.

(** X10 at a new engine and the 'modern' vibe: the LFO stays at 6 Hz, not
    at the 5 Hz it was built with. *)
Lemma vibe_off_restores_witness :
  exists g,
    graph freshEngine = Some g
    /\ lfo_frequency g = 5
    /\ (v <- setVibe freshEngine "modern" ;; setVibe v "off")
       = Return {| graph := Some (with_lfo g 0 6);
                   isInitialized := true;
                   lockedFrequency := None;
                   currentParams := currentParams freshEngine |}.
Proof.
  eexists. split; [reflexivity |]. split; [reflexivity |].
  apply (vibe_off_restores freshEngine _ "modern"); [reflexivity |].
  repeat split.
Defined.

(** X11.  Before [initialize] has built the nodes, [configure] returns
    without touching the engine and [runSimulatedAnnealing] returns
    [null], but [applyParams] and [setVibe] have no such guard: they throw
    a [TypeError]. *)
Theorem calls_before_initialize (M : MathLib) (random : nat -> float)
    (this : Engine) (a : AnalysisResults) (target : option Spectrum)
    (steps : nat) (cb : bool) (params : SynthParams) (vibeType : string) :
  graph this = None ->
  isInitialized this = false ->
  configure this a = Return this
  /\ runSimulatedAnnealing M random this target steps cb
     = Return {| returned := None; engine_after := this; progress := [] |}
  /\ applyParams this params = Throw TypeError
  /\ setVibe this vibeType = Throw TypeError.
Proof.
  intros G I. unfold configure, runSimulatedAnnealing, applyParams, setVibe, nodes.
  rewrite G, I. repeat split.
Qed.

(** X11 at the engine the constructor returns. *)
Lemma calls_before_initialize_witness :
  configure constructor
    {| detectedRelease := 0.3; isWide := true; pitchHz := Some 220 |}
  = Return constructor
  /\ runSimulatedAnnealing sampleMath sampleDraws constructor
       (Some sampleTarget) 12 true
     = Return {| returned := None; engine_after := constructor;
                 progress := [] |}
  /\ applyParams constructor brightSaw = Throw TypeError
  /\ setVibe constructor "modern" = Throw TypeError.
Proof.
  apply calls_before_initialize; reflexivity.
Defined.

End EngineProperties.

(* ================================================================== *)
(** * Facts about the feature routines *)
(* ================================================================== *)

Module FeatureFacts.

Import FloatFacts NumberFacts AudioEngine Analyzer Inputs AnalyzerFacts.
Import Features.
Local Open Scope float_scope.

(** ** The peak over all channels *)

Lemma peak_channel_zeros (channelData : list float) :
  Forall (fun x => is_zero x = true) channelData ->
  fold_left (fun m x => Math_max m (Math_abs x)) channelData 0 = 0.
Proof.
  induction 1 as [| x l Hx _ IH]; simpl; [reflexivity |].
  rewrite (Math_max_zeros x Hx). exact IH.
Qed.

Lemma peak_of_zeros (chans : list (list float)) :
  Forall (Forall (fun x => is_zero x = true)) chans ->
  peakAmplitude chans = 0.
Proof.
  unfold peakAmplitude.
  induction 1 as [| c rest Hc _ IH]; simpl; [reflexivity |].
  rewrite (peak_channel_zeros c Hc). exact IH.
Qed.

Lemma peak_zero_all (chans : list (list float)) : forall m,
  is_nan m = true \/ (0 <=? m) = true ->
  is_zero
    (fold_left
       (fun maxAmplitude channelData =>
          fold_left (fun m x => Math_max m (Math_abs x))
                    channelData maxAmplitude)
       chans m) = true ->
  Forall (Forall (fun x => is_zero x = true)) chans.
Proof.
  induction chans as [| c rest IH]; intros m Hm Hz; simpl in *;
    [constructor |].
  pose proof (peak_channel_nonneg c m Hm) as Hm'. simpl in Hm'.
  constructor; [| apply (IH _ Hm' Hz)].
  apply (peak_channel_zero c m Hm), (peak_zero_start rest _ Hm' Hz).
Qed.

(** ** The search for the peak *)

Section PeakSearch.

Variable spectrum : Spectrum.

Let mag (i : nat) : float := get (magnitudes spectrum) i.
Let step : float * nat -> nat -> float * nat :=
  fun '(maxMag, peakIdx) i =>
    if (50 <? get (frequencies spectrum) i)
       && (get (frequencies spectrum) i <? 2000) then
      if maxMag <? get (magnitudes spectrum) i
      then (get (magnitudes spectrum) i, i)
      else (maxMag, peakIdx)
    else (maxMag, peakIdx).

Lemma ltb_asym (x y : float) : (x <? y) = true -> (y <? x) = false.
Proof. intros H. apply leb_not_gt, ltb_leb, H. Qed.

Lemma peak_fold (l : list nat) : forall m0 p0 m p,
  fold_left step l (m0, p0) = (m, p) ->
  (m = m0 /\ p = p0
   /\ forall i, In i l -> pitchCandidate spectrum i = true ->
        (m0 <? mag i) = false)
  \/ (In p l /\ pitchCandidate spectrum p = true /\ m = mag p
      /\ (m0 <? m) = true
      /\ forall i, In i l -> pitchCandidate spectrum i = true ->
           (m <? mag i) = false).
Proof.
  induction l as [| i l IH]; intros m0 p0 m p; cbn [fold_left].
  - intros [= <- <-]. left. repeat split. intros i [].
  - assert (step (m0, p0) i
            = if pitchCandidate spectrum i
              then if m0 <? mag i then (mag i, i) else (m0, p0)
              else (m0, p0)) as -> by reflexivity.
    destruct (pitchCandidate spectrum i) eqn:C; simpl;
      [destruct (m0 <? mag i) eqn:L |]; intros F;
      destruct (IH _ _ _ _ F) as [(-> & -> & H) | (Hp & Cp & -> & Lt & H)].
    + right. repeat split; auto.
      intros j [<- | Hj] Cj; [apply ltb_irrefl | apply H; assumption].
    + right. repeat split; auto.
      * apply (ltb_trans _ _ _ L Lt).
      * intros j [<- | Hj] Cj; [apply ltb_asym, Lt | apply H; assumption].
    + left. repeat split.
      intros j [<- | Hj] Cj; [exact L | apply H; assumption].
    + right. repeat split; auto.
      intros j [<- | Hj] Cj; [| apply H; assumption].
      destruct (mag p <? mag i) eqn:L'; [| reflexivity].
      rewrite (ltb_trans _ _ _ Lt L') in L. discriminate.
    + left. repeat split.
      intros j [<- | Hj] Cj; [congruence | apply H; assumption].
    + right. repeat split; auto.
      intros j [<- | Hj] Cj; [congruence | apply H; assumption].
Qed.

(** The search keeps the first of several equal maxima: every candidate
    before the peak that holds a number is strictly below it. *)
Lemma peak_first (n : nat) : forall s m0 p0 m p,
  is_nan m0 = false ->
  fold_left step (seq s n) (m0, p0) = (m, p) ->
  (m0 <? m) = true ->
  forall i, (s <= i < p)%nat -> pitchCandidate spectrum i = true ->
    is_nan (mag i) = false -> (mag i <? m) = true.
Proof.
  induction n as [| n IH]; intros s m0 p0 m p N0; cbn [seq fold_left].
  - intros [= <- <-] L. rewrite ltb_irrefl in L. discriminate.
  - assert (step (m0, p0) s
            = if pitchCandidate spectrum s
              then if m0 <? mag s then (mag s, s) else (m0, p0)
              else (m0, p0)) as -> by reflexivity.
    destruct (pitchCandidate spectrum s) eqn:C;
      [destruct (m0 <? mag s) eqn:L |]; intros F Lm i Hi Ci Ni.
    + destruct (peak_fold _ _ _ _ _ F) as [(-> & -> & _) | (Hp & _ & _ & Lt & _)];
        [lia |].
      destruct (Nat.eq_dec i s) as [-> | Hne]; [exact Lt |].
      apply (IH (S s) (mag s) s m p); auto; [apply (ltb_not_nan _ _ L) | lia].
    + destruct (Nat.eq_dec i s) as [-> | Hne].
      * apply (leb_ltb_trans _ m0); [| exact Lm].
        apply not_ltb_leb; assumption.
      * apply (IH (S s) m0 p0 m p); auto. lia.
    + destruct (Nat.eq_dec i s) as [-> | Hne]; [congruence |].
      apply (IH (S s) m0 p0 m p); auto. lia.
Qed.

Lemma detectPitch_search :
  detectPitch spectrum
  = let '(_, peakIdx) := peakSearch spectrum in
    if ((0 <? peakIdx) && (peakIdx <? List.length (magnitudes spectrum) - 1))%nat
    then interpolatedPitch spectrum peakIdx
    else get (frequencies spectrum) peakIdx.
Proof.
  unfold detectPitch, peakSearch, interpolatedPitch.
  destruct (fold_left _ _ _) as [maxMag peakIdx]. reflexivity.
Qed.

End PeakSearch.

(** ** The block of a snapshot *)

Lemma slice_length (l : list float) (start fftSize : nat) :
  List.length
    (firstn (Nat.min (List.length l) (start + fftSize) - start) (skipn start l))
  = Nat.min (List.length l - start) fftSize.
Proof. rewrite length_firstn, length_skipn. lia. Qed.

(** ** The release scan *)

(** Past the length of the array, more fuel changes nothing: the scan
    ends by its loop condition. *)
Lemma releaseScan_fuel (channelData : list float) (n : nat)
    (windowSize t6 t60 : float) :
  (1 <= n)%nat ->
  forall fuel fuel' i start6dB,
    (List.length channelData - i <= fuel)%nat ->
    (List.length channelData - i <= fuel')%nat ->
    releaseScan fuel channelData n windowSize t6 t60 i start6dB
    = releaseScan fuel' channelData n windowSize t6 t60 i start6dB.
Proof.
  intros Hn. induction fuel as [| fuel IH]; intros fuel' i s H H'.
  - destruct fuel' as [| fuel']; simpl; [reflexivity |].
    destruct (Nat.ltb_spec i (List.length channelData - n)); [lia | reflexivity].
  - simpl. destruct (Nat.ltb_spec i (List.length channelData - n)) as [Hi | Hi].
    + destruct fuel' as [| fuel']; [lia |]. simpl.
      destruct (Nat.ltb_spec i (List.length channelData - n)); [| lia].
      assert (List.length channelData - (i + n) <= fuel)%nat by lia.
      assert (List.length channelData - (i + n) <= fuel')%nat by lia.
      destruct s as [s |]; simpl.
      * destruct (_ <? t60); [reflexivity | apply IH; assumption].
      * destruct (_ <? t6); simpl;
          [destruct (_ <? t60); [reflexivity | apply IH; assumption]
          | apply IH; assumption].
    + destruct fuel' as [| fuel']; simpl; [reflexivity |].
      destruct (Nat.ltb_spec i (List.length channelData - n)); [lia | reflexivity].
Qed.

(** The indices the scan reports are indices of the array. *)
Lemma releaseScan_indices (channelData : list float) (n : nat)
    (windowSize t6 t60 : float) :
  forall fuel i start6dB s e,
    (forall s0, start6dB = Some s0 -> (s0 < List.length channelData)%nat) ->
    releaseScan fuel channelData n windowSize t6 t60 i start6dB
    = (Some s, Some e) ->
    (s < List.length channelData)%nat /\ (e < List.length channelData)%nat.
Proof.
  induction fuel as [| fuel IH]; intros i s0 s e Hs; simpl; [discriminate |].
  destruct (Nat.ltb_spec i (List.length channelData - n)) as [Hi | Hi];
    [| discriminate].
  destruct s0 as [s0 |]; simpl.
  - destruct (_ <? t60).
    + intros [= <- <-]. split; [apply Hs; reflexivity | lia].
    + apply IH, Hs.
  - destruct (_ <? t6); simpl.
    + destruct (_ <? t60).
      * intros [= <- <-]. lia.
      * apply IH. intros ? [= <-]. lia.
    + apply IH. discriminate.
Qed.

Lemma of_nat_finite (n : nat) :
  (Z.of_nat n < 2 ^ 53)%Z -> is_finite (of_nat n) = true.
Proof.
  intros H. destruct n as [| n]; [reflexivity |].
  apply is_finite_sf.
  destruct (of_nat_finite_pos (S n) ltac:(lia) H) as [m [e ->]]. exact I.
Qed.

(** A window of at least one sample comes from a sample rate that is a
    finite number other than zero. *)
Lemma window_rate (sampleRate : float) (z : Z) :
  array_index (Math_floor (sampleRate * 0.01)) = Some z -> (1 <= z)%Z ->
  is_finite sampleRate = true /\ is_zero sampleRate = false.
Proof.
  intros A Hz.
  assert (nonzero_sf (Prim2SF (sampleRate * 0.01))) as Hx.
  { revert A. unfold Math_floor, array_index.
    destruct (Prim2SF (sampleRate * 0.01)) as [s | s | | s m e] eqn:E;
      try rewrite E; try discriminate; [| intros _; exact I].
    intros [= <-]. lia. }
  revert Hx. rewrite mul_spec. unfold SF64mul, SFmul.
  change (Prim2SF 0.01)
    with (S754_finite false 5764607523034235 (-59)).
  destruct (Prim2SF sampleRate) as [s | s | | s m e] eqn:E; simpl;
    try contradiction.
  intros _. split.
  - apply is_finite_sf. rewrite E. exact I.
  - destruct (is_zero sampleRate) eqn:Z; [| reflexivity].
    apply is_zero_sf in Z. destruct Z as [s' Z]. congruence.
Qed.

Lemma releaseTime_bounds (sampleRate : float) (found : option nat * option nat) :
  is_finite sampleRate = true -> is_zero sampleRate = false ->
  (forall s e, found = (Some s, Some e) ->
     (Z.of_nat s < 2 ^ 53)%Z /\ (Z.of_nat e < 2 ^ 53)%Z) ->
  (0.01 <=? releaseTime sampleRate found) = true
  /\ (releaseTime sampleRate found <=? 5) = true.
Proof.
  intros F Z H. unfold releaseTime.
  destruct found as [[s |] [e |]]; try (split; reflexivity).
  destruct (H s e eq_refl) as [Hs He].
  apply clamp_bounds; [reflexivity |].
  apply div_not_nan; [| exact F | exact Z].
  apply sub_not_nan; [| apply of_nat_finite, Hs].
  pose proof (of_nat_finite e He) as Fe.
  unfold is_finite in Fe. destruct (is_nan (of_nat e)); [discriminate | reflexivity].
Qed.

(** ** The amplitude percentile *)

Lemma insertSorted_In (x y : float) (l : list float) :
  In y (insertSorted x l) -> y = x \/ In y l.
Proof.
  induction l as [| h t IH]; simpl.
  - intros [<- | []]. left. reflexivity.
  - destruct (0 <? h - x); simpl.
    + intros [<- | H]; [left; reflexivity | right; exact H].
    + intros [<- | H]; [right; left; reflexivity |].
      destruct (IH H); [left | right; right]; assumption.
Qed.

Lemma sortAscending_In (y : float) (l : list float) :
  In y (sortAscending l) -> In y l.
Proof.
  unfold sortAscending.
  assert (forall acc, In y (fold_left (fun s x => insertSorted x s) l acc) ->
                      In y acc \/ In y l) as H.
  { induction l as [| x l IH]; intros acc; simpl; [auto |].
    intros Hy. destruct (IH _ Hy) as [Ha | Hl]; [| auto].
    destruct (insertSorted_In _ _ _ Ha); subst; auto. }
  intros Hy. destruct (H [] Hy) as [[] | Hl]. exact Hl.
Qed.

Lemma array_index_nonneg (x : float) (z : Z) :
  array_index x = Some z -> (0 <= z)%Z.
Proof.
  unfold array_index.
  destruct (Prim2SF x) as [s | s | | [|] m e]; try discriminate.
  - intros [= <-]. lia.
  - destruct (0 <=? e)%Z;
      [| destruct (Z.land (Z.pos m) (Z.ones (- e)) =? 0)%Z; [| discriminate]];
      intros [= <-]; apply Z.shiftl_nonneg; lia.
Qed.

Lemma elementAt_In (l : list float) (idx : float) :
  truthy (elementAt l idx) = true -> In (elementAt l idx) l.
Proof.
  unfold elementAt.
  destruct (array_index idx) as [z |] eqn:A; [| discriminate].
  pose proof (array_index_nonneg _ _ A).
  destruct (Z.ltb_spec z (Z.of_nat (List.length l))); [| discriminate].
  intros _. apply nth_In. lia.
Qed.

Lemma truthy_or_half (x : float) :
  truthy (if truthy x then x else 0.5) = true.
Proof. destruct (truthy x) eqn:E; [exact E | reflexivity]. Qed.

(** ** The harmonics *)

Lemma filter_none {A : Type} (f : A -> bool) (l : list A) :
  (forall x, In x l -> f x = false) -> filter f l = [].
Proof.
  induction l as [| x l IH]; intros H; simpl; [reflexivity |].
  rewrite (H x (or_introl eq_refl)). apply IH. intros y Hy. apply H. now right.
Qed.

Lemma not_finite_target (x : float) (t : float) :
  is_finite t = false -> (Math_abs (x - t) <? 20) = false.
Proof.
  unfold Math_abs, is_finite. rewrite ltb_spec, abs_spec, sub_spec.
  destruct (is_nan t) eqn:N; simpl.
  - apply is_nan_sf in N. rewrite N. intros _.
    unfold SF64sub, SFsub. destruct (Prim2SF x); reflexivity.
  - intros I. apply negb_false_iff, is_infinity_sf in I. destruct I as [s ->].
    change (Prim2SF 20) with (S754_finite false 5629499534213120 (-48)).
    unfold SF64sub, SFsub.
    destruct (Prim2SF x) as [sx | sx | | sx mx ex]; try reflexivity.
    destruct sx, s; reflexivity.
Qed.

Lemma not_finite_times (f : float) (h : nat) :
  is_finite f = false -> (2 <= h <= 8)%nat -> is_finite (f * of_nat h) = false.
Proof.
  intros F H.
  assert (exists m e, Prim2SF (of_nat h) = S754_finite false m e) as [m [e E]].
  { apply of_nat_finite_pos; lia. }
  destruct (is_finite (f * of_nat h)) eqn:G; [| reflexivity].
  apply is_finite_sf in G. rewrite mul_spec, E in G.
  assert (~ finite_sf (Prim2SF f)) as NF.
  { rewrite <- is_finite_sf, F. discriminate. }
  unfold SF64mul, SFmul in G.
  destruct (Prim2SF f); simpl in *; tauto.
Qed.

Lemma harmonicFound_not_finite (spectrum : Spectrum) (threshold t : float) :
  is_finite t = false -> harmonicFound spectrum threshold t = false.
Proof.
  intros F. unfold harmonicFound.
  destruct (existsb _ _) eqn:E; [| reflexivity].
  apply existsb_exists in E. destruct E as [i [_ E]].
  rewrite (not_finite_target _ _ F) in E. discriminate.
Qed.

Lemma countHarmonics_not_finite (spectrum : Spectrum) (f : float) :
  is_finite f = false -> countHarmonics spectrum f = 0%nat.
Proof.
  intros F. unfold countHarmonics.
  rewrite filter_none; [reflexivity |].
  intros h Hh. apply in_seq in Hh.
  apply harmonicFound_not_finite, not_finite_times; [exact F | lia].
Qed.

(** The sum of zeros is a zero. *)
Lemma sum_of_zeros (l : list float) : forall acc,
  is_zero acc = true ->
  Forall (fun x => is_zero x = true) l ->
  is_zero (fold_left (fun a b => a + b) l acc) = true.
Proof.
  induction l as [| x l IH]; intros acc Ha Hl; simpl; [exact Ha |].
  inversion Hl as [| ? ? Hx Hl']; subst.
  apply IH; [| exact Hl'].
  apply is_zero_sf in Ha, Hx. destruct Ha as [sa Ha], Hx as [sx Hx].
  apply is_zero_sf. rewrite add_spec, Ha, Hx.
  destruct sa, sx; simpl; eauto.
Qed.

(** No bin of a spectrum of zeros is above the threshold. *)
Lemma max_of_zeros (l : list float) : forall acc,
  is_zero acc = true \/ (acc = neg_infinity /\ l <> []) ->
  Forall (fun x => is_zero x = true) l ->
  is_zero (fold_left Math_max l acc) = true.
Proof.
  induction l as [| x l IH]; intros acc Ha Hl; simpl.
  - destruct Ha as [Ha | [_ Ha]]; [exact Ha | contradiction].
  - inversion Hl as [| ? ? Hx Hl']; subst.
    apply IH; [left | exact Hl'].
    destruct Ha as [Ha | [-> _]].
    + unfold Math_max.
      rewrite (is_zero_not_nan _ Ha), (is_zero_not_nan _ Hx). simpl.
      destruct (acc <? x); [exact Hx |].
      destruct (x <? acc); [exact Ha |].
      destruct (get_sign acc); assumption.
    + unfold Math_max. rewrite (is_zero_not_nan _ Hx). simpl.
      assert ((neg_infinity <? x) = true) as ->; [| exact Hx].
      apply is_zero_sf in Hx. destruct Hx as [s Hx].
      rewrite ltb_spec, Hx. reflexivity.
Qed.

Lemma zero_not_below (t m : float) :
  is_zero t = true -> is_zero m = true \/ is_nan m = true ->
  (t <? m) = false.
Proof.
  rewrite !is_zero_sf, is_nan_sf, ltb_spec. intros [s ->] [[s' ->] | ->];
    reflexivity.
Qed.

Lemma get_of_zeros (l : list float) (i : nat) :
  Forall (fun x => is_zero x = true) l ->
  is_zero (get l i) = true \/ is_nan (get l i) = true.
Proof.
  intros H. unfold get. destruct (Nat.ltb_spec i (List.length l)) as [Hi | Hi].
  - left. apply (proj1 (Forall_forall _ l) H), nth_In, Hi.
  - right. rewrite nth_overflow by exact Hi. reflexivity.
Qed.

Lemma countHarmonics_of_zeros (spectrum : Spectrum) (f : float) :
  Forall (fun x => is_zero x = true) (magnitudes spectrum) ->
  countHarmonics spectrum f = 0%nat.
Proof.
  intros H. unfold countHarmonics.
  rewrite filter_none; [reflexivity |].
  intros h _. unfold harmonicFound.
  destruct (existsb _ _) eqn:E; [| reflexivity].
  apply existsb_exists in E. destruct E as [i [_ E]].
  apply andb_true_iff in E. destruct E as [_ E].
  destruct (magnitudes spectrum) as [| x l] eqn:Em.
  - unfold get in E. destruct i; simpl in E; vm_compute in E; discriminate.
  - rewrite <- Em in *.
    assert (is_zero (fold_left Math_max (magnitudes spectrum) neg_infinity * 0.1)
            = true) as Ht.
    { assert (is_zero (fold_left Math_max (magnitudes spectrum) neg_infinity)
              = true) as Hm.
      { apply max_of_zeros; [right; split; [reflexivity | congruence] | exact H]. }
      apply is_zero_sf in Hm. destruct Hm as [s Hm].
      apply is_zero_sf. rewrite mul_spec, Hm.
      change (Prim2SF 0.1) with (S754_finite false 7205759403792794 (-56)).
      simpl. eauto. }
    rewrite (zero_not_below _ _ Ht (get_of_zeros _ i H)) in E. discriminate.
Qed.

End FeatureFacts.

From Stdlib Require Import Sorted Permutation.

(* ================================================================== *)
(** * Facts about the window levels *)
(* ================================================================== *)

Module LevelFacts.

Import FloatFacts Numbers NumberFacts DifferenceFacts AudioEngine Analyzer.
Import Features FeatureFacts.
Local Open Scope float_scope.

(** ** Levels are numbers that are not negative *)

Lemma square_unsigned (x : float) :
  is_nan x = false -> unsigned_number_sf (Prim2SF (x * x)).
Proof.
  intros N. apply unsigned_number. split; [apply square_not_negative |].
  revert N. rewrite !is_nan_false_sf, mul_spec. unfold SF64mul, SFmul.
  destruct (Prim2SF x) as [s | s | | s m e]; try discriminate; try congruence.
  intros _. apply binary_round_aux_not_nan. lia.
Qed.

Lemma add_unsigned (a b : float) :
  unsigned_number_sf (Prim2SF a) -> unsigned_number_sf (Prim2SF b) ->
  unsigned_number_sf (Prim2SF (a + b)).
Proof.
  intros Ha Hb. apply unsigned_number.
  split; [apply add_not_negative; apply unsigned_number; assumption |].
  revert Ha Hb. rewrite is_nan_false_sf, add_spec. unfold SF64add, SFadd.
  destruct (Prim2SF a) as [s | s | | s m e], (Prim2SF b) as [s' | s' | | s' m' e'];
    simpl; try contradiction; intros -> ->; try discriminate.
  apply binary_normalize_not_nan.
Qed.

Lemma div_unsigned (a b : float) :
  unsigned_number_sf (Prim2SF a) -> nonzero_sf (Prim2SF b) ->
  not_negative_sf (Prim2SF b) ->
  unsigned_number_sf (Prim2SF (a / b)).
Proof.
  intros Ha Hb Hb'. apply unsigned_number. split.
  - apply div_not_negative; [apply unsigned_number, Ha | exact Hb'].
  - apply div_not_nan; [apply unsigned_number, Ha | |].
    + apply is_finite_sf. destruct (Prim2SF b); simpl in *; tauto.
    + destruct (is_zero b) eqn:Z; [| reflexivity].
      apply is_zero_sf in Z. destruct Z as [s Z]. rewrite Z in Hb. contradiction.
Qed.

Lemma sqrt_unsigned (a : float) :
  unsigned_number_sf (Prim2SF a) -> unsigned_number_sf (Prim2SF (Math_sqrt a)).
Proof.
  unfold Math_sqrt. rewrite sqrt_spec. unfold SF64sqrt, SFsqrt.
  destruct (Prim2SF a) as [s | s | | s m e]; simpl; try contradiction;
    intros ->; try reflexivity.
  destruct (SFsqrt_core_binary prec emax (Zpos m) e) as [[mz ez] lz] eqn:C.
  assert (0 <= mz)%Z as Hm.
  { revert C. unfold SFsqrt_core_binary.
    set (m' := match _ with Zpos _ => _ | Z0 => _ | Zneg _ => _ end).
    assert (0 <= m')%Z as Hm'.
    { subst m'. destruct (_ - _)%Z; try lia. apply Z.shiftl_nonneg. lia. }
    pose proof (Z.sqrtrem_spec m' Hm') as S.
    destruct (Z.sqrtrem m') as [q r]. intros [= <- _ _]. nia. }
  pose proof (binary_round_aux_sign false mz ez lz) as S.
  pose proof (binary_round_aux_not_nan prec emax false mz ez lz Hm) as N.
  destruct (binary_round_aux prec emax false mz ez lz); simpl; congruence.
Qed.

Lemma sum_squares_unsigned (channelData : list float) (i : nat) (js : list nat) :
  (forall j, In j js -> is_nan (get channelData (i + j)) = false) ->
  forall acc,
    unsigned_number_sf (Prim2SF acc) ->
    unsigned_number_sf
      (Prim2SF
         (fold_left
            (fun windowRms j =>
               windowRms + get channelData (i + j) * get channelData (i + j))
            js acc)).
Proof.
  induction js as [| j js IH]; intros H acc Ha; simpl; [exact Ha |].
  apply IH; [intros k Hk; apply H; now right |].
  apply add_unsigned; [exact Ha |]. apply square_unsigned, H. now left.
Qed.

Lemma windowRms_unsigned (channelData : list float) (i : nat) :
  Forall (fun x => is_nan x = false) channelData ->
  (i + 512 <= List.length channelData)%nat ->
  unsigned_number_sf (Prim2SF (windowRms channelData i 512 512)).
Proof.
  intros N L. unfold windowRms. apply sqrt_unsigned.
  apply div_unsigned; [| vm_compute; exact I | vm_compute; reflexivity].
  apply sum_squares_unsigned; [| reflexivity].
  intros j Hj. apply in_seq in Hj.
  apply (proj1 (Forall_forall _ channelData) N), nth_In. lia.
Qed.

Lemma windowLevels_unsigned (channelData : list float) :
  Forall (fun x => is_nan x = false) channelData ->
  forall fuel i amplitudes,
    Forall (fun v => unsigned_number_sf (Prim2SF v)) amplitudes ->
    Forall (fun v => unsigned_number_sf (Prim2SF v))
           (windowLevels fuel channelData i amplitudes).
Proof.
  intros N. induction fuel as [| fuel IH]; intros i acc Ha; simpl; [exact Ha |].
  destruct (Nat.ltb_spec i (List.length channelData - 512)); [| exact Ha].
  apply IH. apply Forall_app. split; [exact Ha |].
  constructor; [| constructor]. apply windowRms_unsigned; [exact N | lia].
Qed.

(** Past the length of the array, more fuel changes nothing. *)
Lemma windowLevels_fuel (channelData : list float) :
  forall fuel fuel' i amplitudes,
    (List.length channelData - i <= fuel)%nat ->
    (List.length channelData - i <= fuel')%nat ->
    windowLevels fuel channelData i amplitudes
    = windowLevels fuel' channelData i amplitudes.
Proof.
  induction fuel as [| fuel IH]; intros fuel' i acc H H'.
  - destruct fuel' as [| fuel']; simpl; [reflexivity |].
    destruct (Nat.ltb_spec i (List.length channelData - 512)); [lia | reflexivity].
  - simpl. destruct (Nat.ltb_spec i (List.length channelData - 512)) as [Hi | Hi].
    + destruct fuel' as [| fuel']; [lia |]. simpl.
      destruct (Nat.ltb_spec i (List.length channelData - 512)); [| lia].
      apply IH; lia.
    + destruct fuel' as [| fuel']; simpl; [reflexivity |].
      destruct (Nat.ltb_spec i (List.length channelData - 512)); [lia | reflexivity].
Qed.

(** ** The sort *)

Section Sorting.

Let le (a b : float) : Prop := (a <=? b) = true.
Let number (v : float) : Prop := unsigned_number_sf (Prim2SF v).

Lemma insertSorted_Permutation (x : float) (l : list float) :
  Permutation (x :: l) (insertSorted x l).
Proof.
  induction l as [| h t IH]; simpl; [reflexivity |].
  destruct (0 <? h - x); [reflexivity |].
  rewrite perm_swap. apply perm_skip, IH.
Qed.

Lemma sort_fold_Permutation (l : list float) : forall acc,
  Permutation (l ++ acc) (fold_left (fun s x => insertSorted x s) l acc).
Proof.
  induction l as [| x l IH]; intros acc; simpl; [reflexivity |].
  rewrite <- IH. rewrite <- insertSorted_Permutation.
  apply Permutation_middle.
Qed.

Lemma sortAscending_Permutation (l : list float) :
  Permutation l (sortAscending l).
Proof.
  unfold sortAscending. rewrite <- sort_fold_Permutation, app_nil_r.
  reflexivity.
Qed.

Lemma insertSorted_HdRel (a x : float) (l : list float) :
  HdRel le a l -> le a x -> HdRel le a (insertSorted x l).
Proof.
  intros H Hx. destruct l as [| h t]; simpl; [constructor; exact Hx |].
  destruct (0 <? h - x); constructor; [exact Hx |].
  inversion H; assumption.
Qed.

Lemma insertSorted_Sorted (x : float) (l : list float) :
  number x -> Forall number l -> Sorted le l -> Sorted le (insertSorted x l).
Proof.
  intros Nx Nl S. induction S as [| h t St IH Hd]; simpl.
  - constructor; constructor.
  - inversion Nl as [| ? ? Nh Nt]; subst.
    rewrite (difference_sign h x Nh Nx).
    destruct (x <? h) eqn:L.
    + constructor; [constructor; assumption |].
      constructor. apply ltb_leb, L.
    + constructor; [apply IH, Nt |].
      apply insertSorted_HdRel; [exact Hd |].
      apply not_ltb_leb; [apply unsigned_leb_zero, Nx
                         | apply unsigned_leb_zero, Nh | exact L].
Qed.

Lemma sort_fold_Sorted (l : list float) : forall acc,
  Forall number l -> Forall number acc -> Sorted le acc ->
  Sorted le (fold_left (fun s x => insertSorted x s) l acc).
Proof.
  induction l as [| x l IH]; intros acc Nl Na S; simpl; [exact S |].
  inversion Nl as [| ? ? Nx Nl']; subst.
  apply IH; [exact Nl' | | apply insertSorted_Sorted; assumption].
  apply (Permutation_Forall (insertSorted_Permutation x acc)).
  constructor; assumption.
Qed.

Lemma sortAscending_Sorted (l : list float) :
  Forall number l -> Sorted le (sortAscending l).
Proof.
  intros N. apply sort_fold_Sorted; [exact N | constructor | constructor].
Qed.

End Sorting.

End LevelFacts.

(* ================================================================== *)
(** * Further properties of the analyzer *)
(* ================================================================== *)

Module AnalyzerProperties.

Import FloatFacts NumberFacts DifferenceFacts.
Import AudioEngine Analyzer Inputs AnalyzerFacts.
Import Features FeatureFacts LevelFacts Samples.
Local Open Scope float_scope.

(** X12.  [normalizeBuffer] throws its silence error exactly when every
    sample of every channel is zero, whether the analyzer has its context
    or not.  Its only other error is the [TypeError] of a [null] context,
    thrown exactly when the buffer is not silent and [initialize] has not
    run.  When it returns, the buffer has the channels, the channel
    lengths and the sample rate of the input. *)
Theorem normalize_rejects_exactly_silence
    (this : AnalyzerObject.AnalyzerState) (M : MathLib)
    (audioBuffer : AudioBuffer) (targetDb : float) :
  let silent :=
    Forall (Forall (fun x => is_zero x = true)) (channels audioBuffer) in
  let call := AnalyzerObject.normalizeBuffer this M audioBuffer targetDb in
  (call = Throw appearsSilent <-> silent)
  /\ (call = Throw TypeError
      <-> ~ silent /\ AnalyzerObject.audioContext this = None)
  /\ (forall e, call = Throw e -> e = appearsSilent \/ e = TypeError)
  /\ (forall out, call = Return out ->
        AnalyzerObject.audioContext this <> None
        /\ numberOfChannels out = numberOfChannels audioBuffer
        /\ map (@List.length float) (channels out)
           = map (@List.length float) (channels audioBuffer)
        /\ buf_sampleRate out = buf_sampleRate audioBuffer).
Proof.
  intros silent call. subst silent call.
  unfold AnalyzerObject.normalizeBuffer.
  destruct (peakAmplitude (channels audioBuffer) =? 0) eqn:E.
  - assert (Forall (Forall (fun x => is_zero x = true)) (channels audioBuffer))
      as S by (apply (peak_zero_all _ 0); [right; reflexivity | exact E]).
    split; [split; [intros _; exact S | reflexivity] |].
    split; [split; [discriminate | intros [N _]; contradiction] |].
    split; [intros e [= <-]; left; reflexivity | discriminate].
  - assert (~ Forall (Forall (fun x => is_zero x = true)) (channels audioBuffer))
      as S.
    { intros H. rewrite (peak_of_zeros _ H) in E. discriminate. }
    destruct (AnalyzerObject.audioContext this) as [context |].
    + split; [split; [discriminate | intros H; contradiction] |].
      split; [split; [discriminate | intros [_ H]; discriminate] |].
      split; [discriminate |].
      intros out [= <-]. split; [discriminate |].
      unfold numberOfChannels. simpl.
      rewrite length_map, map_map. repeat split.
      apply map_ext. intros c. apply length_map.
    + split; [split; [discriminate | intros H; contradiction] |].
      split; [split; [intros _; split; [exact S | reflexivity] | reflexivity] |].
      split; [intros e [= <-]; right; reflexivity | discriminate].
Qed.

(** X13.  [detectPitch] interpolates around the first bin that holds the
    largest magnitude among the candidates: the bins [1 .. length - 2]
    with a frequency inside (50, 2000) Hz.  That peak is above 0, no
    candidate is above it, and every candidate before it is strictly
    below it (or holds no number).  When no candidate is above 0 (an
    empty or silent spectrum, or one with fewer than three bins), it
    returns [frequencies[0]] instead. *)
Theorem detectPitch_interpolates_the_peak (spectrum : Spectrum) :
  let mags := magnitudes spectrum in
  let inner i := (1 <= i)%nat /\ (i + 1 < List.length mags)%nat in
  (exists p,
     inner p /\ pitchCandidate spectrum p = true
     /\ (0 <? get mags p) = true
     /\ (forall i, inner i -> pitchCandidate spectrum i = true ->
           (get mags p <? get mags i) = false)
     /\ (forall i, inner i -> (i < p)%nat ->
           pitchCandidate spectrum i = true ->
           is_nan (get mags i) = false ->
           (get mags i <? get mags p) = true)
     /\ detectPitch spectrum = interpolatedPitch spectrum p)
  \/ ((forall i, inner i -> pitchCandidate spectrum i = true ->
         (0 <? get mags i) = false)
      /\ detectPitch spectrum = get (frequencies spectrum) 0).
Proof.
  intros mags inner. rewrite detectPitch_search.
  destruct (peakSearch spectrum) as [m p] eqn:E. unfold peakSearch in E.
  assert (forall i, inner i <-> In i (seq 1 (List.length mags - 2))) as Hin.
  { intros i. rewrite in_seq. unfold inner. lia. }
  destruct (peak_fold spectrum _ _ _ _ _ E)
    as [(-> & -> & H) | (Hp & Cp & -> & Lt & H)].
  - right. split; [| reflexivity].
    intros i Hi. apply H, Hin, Hi.
  - left. exists p. apply Hin in Hp. split; [exact Hp |].
    split; [exact Cp |]. split; [exact Lt |].
    split; [intros i Hi; apply H, Hin, Hi |].
    split.
    { intros i [Hi _] Hip Ci Ni.
      assert (is_nan 0 = false) as N0 by reflexivity.
      apply (peak_first spectrum _ _ _ _ _ _ N0 E Lt i); auto. }
    destruct Hp as [H1 H2]. fold mags.
    destruct (Nat.ltb_spec 0 p); [| lia].
    destruct (Nat.ltb_spec p (List.length mags - 1)); [reflexivity | lia].
Qed.

(** X14.  Without a peak the pitch is 0 Hz and the octave is 2: for a
    spectrum with the frequencies that [computeFFT] assigns (at least two
    samples, a positive sample rate) in which no candidate bin has a
    magnitude above 0, [detectPitch] returns [frequencies[0]], which is
    0, and [frequencyToOctave] maps it to its default, 2. *)
Theorem no_peak_means_octave_2 (M : MathLib) (mags : list float)
    (sampleRate : float) (fftSize : nat) :
  (2 <= fftSize)%nat -> (Z.of_nat fftSize < 2 ^ 53)%Z ->
  is_finite sampleRate = true -> (0 <? sampleRate) = true ->
  (forall i, (1 <= i)%nat -> (i + 1 < List.length mags)%nat ->
     pitchCandidate (spectrumOf mags sampleRate fftSize) i = true ->
     (0 <? get mags i) = false) ->
  detectPitch (spectrumOf mags sampleRate fftSize) = 0
  /\ frequencyToOctave M (detectPitch (spectrumOf mags sampleRate fftSize)) = 2.
Proof.
  intros Hn Hbound Hf Hpos Hc.
  set (spectrum := spectrumOf mags sampleRate fftSize) in *.
  assert (detectPitch spectrum = 0) as ->; [| split; reflexivity].
  rewrite detectPitch_search.
  destruct (peakSearch spectrum) as [m p] eqn:E. unfold peakSearch in E.
  destruct (peak_fold spectrum _ _ _ _ _ E)
    as [(_ & -> & _) | (Hp & Cp & -> & Lt & _)].
  - simpl. unfold binFrequencies.
    destruct (fftSize / 2)%nat as [| h] eqn:Eh.
    + pose proof (Nat.div_str_pos fftSize 2 ltac:(lia)). lia.
    + simpl. unfold get. simpl.
      assert (Js.of_nat 0 * sampleRate / Js.of_nat fftSize = 0) as ->;
        [| reflexivity].
      assert (Prim2SF (Js.of_nat 0 * sampleRate) = S754_zero false) as Z.
      { rewrite mul_spec. change (Prim2SF (Js.of_nat 0)) with (S754_zero false).
        apply is_finite_sf in Hf. rewrite ltb_spec in Hpos.
        change (Prim2SF 0) with (S754_zero false) in Hpos.
        destruct (Prim2SF sampleRate) as [s | s | | s ms es];
          simpl in *; try contradiction; try discriminate;
          destruct s; try discriminate; reflexivity. }
      apply zero_eq. rewrite div_spec, Z.
      destruct (of_nat_finite_pos fftSize ltac:(lia) Hbound) as [mn [en ->]].
      reflexivity.
  - apply in_seq in Hp. simpl in Hp.
    pose proof (Hc p ltac:(lia) ltac:(lia) Cp) as Hx.
    change (get mags p) with (get (magnitudes spectrum) p) in Hx. congruence.
Qed.

(** X14 at 8 bins of silence at 48 kHz. *)
Lemma no_peak_means_octave_2_witness :
  detectPitch (spectrumOf (repeat 0 8) 48000 16) = 0
  /\ frequencyToOctave sampleMath
       (detectPitch (spectrumOf (repeat 0 8) 48000 16)) = 2.
Proof.
  apply no_peak_means_octave_2;
    [lia | vm_compute; reflexivity | reflexivity | reflexivity |].
  intros i H1 H2 _. simpl in H2.
  do 7 (destruct i as [| i]; [reflexivity |]). lia.
Defined.

(** X15.  [linearToDb] has a floor: every number up to 1e-10 (zero and
    the negative numbers included) has the level of 1e-10, so the
    logarithm is never taken of zero or of a negative number. *)
Theorem level_has_a_floor (M : MathLib) (linear : float) :
  is_nan linear = false ->
  (linear <=? 1e-10) = true ->
  linearToDb M linear = 20 * Math_log10 M 1e-10.
Proof.
  intros N L. unfold linearToDb.
  rewrite (Math_max_floor linear 1e-10); [reflexivity | | exact N | exact L].
  vm_compute. exact I.
Qed.

(** X15 at a level of zero. *)
Lemma level_has_a_floor_witness :
  linearToDb tableMath 0 = 20 * Math_log10 tableMath 1e-10.
Proof.
  apply level_has_a_floor; reflexivity.
Defined.

(** X16.  What [analyze] returns is within its ranges.  For a file
    within the size limit whose decoded buffer passes the silence check
    and has a window of 10 ms of at least one sample, [analyze] -- on
    any analyzer, a new one included, since it calls [initialize] first
    -- returns a descriptor and stores it, so that [getResults] returns
    it and [getSpectrum] its early pitch spectrum.  The release of the
    descriptor is within [0.01, 5] seconds, its amplitude is neither 0
    nor NaN, and its buffer is the normalized buffer, with the channel
    lengths and the sample rate of the decoded one. *)
Theorem analyze_results_are_in_range (M : MathLib)
    (getDualSnapshots : AudioBuffer -> Snapshots)
    (this : AnalyzerObject.AnalyzerState) (file : File)
    (buf : AudioBuffer) (dbLevel : float) (z : Z) :
  (size file <= MAX_FILE_SIZE)%N ->
  decoded file = Return buf ->
  wellFormed buf = true ->
  (20 * Math_log10 M 1e-10 <? -60) = true ->
  checkSilence M buf = Return dbLevel ->
  array_index (Math_floor (buf_sampleRate buf * 0.01)) = Some z ->
  (1 <= z)%Z ->
  AnalyzerObject.ReturnsInRange M getDualSnapshots this file buf.
Proof.
  intros Hsize Hdec Hwf Hlog Hcheck A Hz.
  pose proof (checked_not_silent M buf dbLevel Hwf Hlog Hcheck) as Hpeak.
  assert (exists channelData rest,
            channels buf = channelData :: rest
            /\ (Z.of_nat (List.length channelData) < 2 ^ 53)%Z)
    as (channelData & rest & Hch & H2).
  { unfold wellFormed in Hwf.
    destruct (channels buf) as [| channelData rest]; [discriminate |].
    apply andb_true_iff in Hwf. destruct Hwf as [_ H2]. apply Z.ltb_lt in H2.
    eauto. }
  assert (validateFile file = Return true) as Hval.
  { unfold validateFile. destruct (N.ltb_spec MAX_FILE_SIZE (size file));
      [lia | reflexivity]. }
  assert (exists context,
            AnalyzerObject.audioContext (AnalyzerObject.initialize this)
            = Some context) as [context Hctx].
  { unfold AnalyzerObject.initialize. simpl.
    destruct (AnalyzerObject.audioContext this); eexists; reflexivity. }
  set (gain := dbToLinear M NORMALIZE_TARGET_DB / peakAmplitude (channels buf)).
  set (out := {| channels :=
                   map (map (fun x => Math_fround (x * gain))) (channels buf);
                 buf_sampleRate := buf_sampleRate buf |}).
  assert (AnalyzerObject.normalizeBuffer (AnalyzerObject.initialize this) M buf
            NORMALIZE_TARGET_DB = Return out) as Hnorm.
  { unfold AnalyzerObject.normalizeBuffer. rewrite Hpeak, Hctx. reflexivity. }
  set (data := map (fun x => Math_fround (x * gain)) channelData).
  assert (getChannelData out 0 = Return data) as Hget.
  { unfold getChannelData, out. simpl. rewrite Hch. reflexivity. }
  assert (List.length data = List.length channelData) as Hlen
    by apply length_map.
  (* the release *)
  assert (exists t,
            Features.measureRelease M out = Return (Some t)
            /\ (0.01 <=? t) = true /\ (t <=? 5) = true) as (t & Hrel & T1 & T2).
  { unfold Features.measureRelease. rewrite Hget. simpl.
    destruct (peakIndex data) as [maxAmplitude maxIdx].
    rewrite A. destruct (Z.leb_spec 1 z); [| lia].
    eexists. split; [reflexivity |].
    destruct (window_rate _ _ A Hz) as [Fr Zr].
    apply releaseTime_bounds; [exact Fr | exact Zr |].
    intros s e E.
    assert (forall s0 : nat, @None nat = Some s0 ->
              (s0 < List.length data)%nat) as H0 by discriminate.
    destruct (releaseScan_indices _ _ _ _ _ _ _ _ s e H0 E).
    lia. }
  (* the amplitude *)
  assert (exists amplitude,
            Features.get90thPercentileAmplitude out = Return amplitude
            /\ truthy amplitude = true) as (amplitude & Hamp & Ta).
  { unfold Features.get90thPercentileAmplitude. rewrite Hget. simpl.
    eexists. split; [reflexivity | apply truthy_or_half]. }
  destruct (Features.computeGatekeepers M (getDualSnapshots out))
    as [[isFM isOrganic] isWide] eqn:G.
  unfold AnalyzerObject.ReturnsInRange, AnalyzerObject.analyze.
  rewrite Hval. cbn [bind]. rewrite Hdec. cbn [bind].
  rewrite Hcheck. cbn [bind]. rewrite Hnorm. cbn [bind].
  rewrite Hrel. cbn [bind]. rewrite Hamp. cbn [bind]. rewrite G.
  eexists. eexists. split; [reflexivity |].
  split; [rewrite Hctx; discriminate |].
  split; [reflexivity |]. split; [reflexivity |].
  split; [exact T1 |]. split; [exact T2 |]. split; [exact Ta |].
  split; [reflexivity |].
  split; [| reflexivity].
  unfold out. cbn [channels d_audioBuffer]. rewrite map_map.
  apply map_ext. intros c. apply length_map.
Qed.

(** X16 at a new analyzer and a burst that decays within 10 ms: the
    release is 0.01 s and the amplitude is 0.5. *)
Lemma analyze_results_are_in_range_witness :
  (exists this' d,
     AnalyzerObject.analyze sampleMath (fun _ => snapshotsOf silentSpectrum)
       AnalyzerObject.constructor decayFile = (this', Return (Some d))
     /\ d_detectedRelease d = 0.01 /\ d_amplitude d = 0.5)
  /\ AnalyzerObject.ReturnsInRange sampleMath
       (fun _ => snapshotsOf silentSpectrum)
       AnalyzerObject.constructor decayFile decayBuffer.
Proof.
  split.
  - eexists. eexists. split; [vm_compute; reflexivity |].
    split; vm_compute; reflexivity.
  - eapply (analyze_results_are_in_range sampleMath _ _ decayFile decayBuffer
              _ 10);
      [ vm_compute; discriminate | reflexivity | reflexivity
      | vm_compute; reflexivity | vm_compute; reflexivity
      | vm_compute; reflexivity | lia ].
Defined.

(** X17.  [measureRelease] ends and returns a time within [0.01, 5]
    seconds whenever the window of 10 ms, [floor(sampleRate * 0.01)]
    samples, holds at least one sample and the channel has fewer than
    2^53 samples: the clamped time from the -6 dB window to the -60 dB
    window, or 0.5 when one of them is not found. *)
Theorem release_is_within_bounds (M : MathLib) (audioBuffer : AudioBuffer)
    (channelData : list float) (z : Z) :
  getChannelData audioBuffer 0 = Return channelData ->
  (Z.of_nat (List.length channelData) < 2 ^ 53)%Z ->
  array_index (Math_floor (buf_sampleRate audioBuffer * 0.01)) = Some z ->
  (1 <= z)%Z ->
  exists t,
    Features.measureRelease M audioBuffer = Return (Some t)
    /\ (0.01 <=? t) = true /\ (t <=? 5) = true.
Proof.
  intros C L A Hz. unfold Features.measureRelease. rewrite C. simpl.
  destruct (peakIndex channelData) as [maxAmplitude maxIdx].
  rewrite A. destruct (Z.leb_spec 1 z); [| lia].
  eexists. split; [reflexivity |].
  destruct (window_rate _ _ A Hz) as [Fr Zr].
  apply releaseTime_bounds; [exact Fr | exact Zr |].
  intros s e E.
  assert (forall s0 : nat, @None nat = Some s0 ->
            (s0 < List.length channelData)%nat) as H0 by discriminate.
  destruct (releaseScan_indices _ _ _ _ _ _ _ _ s e H0 E).
  lia.
Qed.

(** X17 at a burst that decays within 10 ms: the release is the
    shortest one, 0.01 s. *)
Lemma release_is_within_bounds_witness :
  Features.measureRelease sampleMath decayBuffer = Return (Some 0.01)
  /\ exists t,
       Features.measureRelease sampleMath decayBuffer = Return (Some t)
       /\ (0.01 <=? t) = true /\ (t <=? 5) = true.
Proof.
  split; [vm_compute; reflexivity |].
  apply (release_is_within_bounds sampleMath decayBuffer
           (repeat 1 10 ++ repeat 0.1 10 ++ repeat 0 30) 10);
    [reflexivity | vm_compute; reflexivity | vm_compute; reflexivity | lia].
Defined.

(** X18.  The block of samples that a snapshot transforms has exactly
    [fftSize] samples, wherever the position lies: it holds the samples
    of the channel from [position - fftSize / 2] on (from 0 if that is
    negative), and zeros past the end of the channel. *)
Theorem snapshot_block_is_padded (channelData : list float)
    (position fftSize : nat) :
  let start := (position - fftSize / 2)%nat in
  let block := getSpectrumBlock channelData position fftSize in
  List.length block = fftSize
  /\ forall i, (i < fftSize)%nat ->
       get block i
       = if (start + i <? List.length channelData)%nat
         then get channelData (start + i) else 0.
Proof.
  intros start block. subst block. unfold getSpectrumBlock. fold start.
  pose proof (slice_length channelData start fftSize) as Hl.
  set (slice := firstn _ (skipn start channelData)) in *.
  assert (forall i, (i < List.length slice)%nat ->
            get slice i = get channelData (start + i)) as Hs.
  { intros i Hi. unfold get, slice. rewrite nth_firstn, nth_skipn.
    destruct (Nat.ltb_spec i
                (Nat.min (List.length channelData) (start + fftSize) - start));
      [reflexivity | lia]. }
  destruct (Nat.ltb_spec (List.length slice) fftSize) as [Short | Full].
  - split; [rewrite length_app, repeat_length; lia |].
    intros i Hi. unfold get at 1.
    destruct (Nat.ltb_spec i (List.length slice)) as [Hi' | Hi'].
    + rewrite app_nth1 by exact Hi'. fold (get slice i). rewrite Hs by exact Hi'.
      destruct (Nat.ltb_spec (start + i) (List.length channelData));
        [reflexivity | lia].
    + rewrite app_nth2 by exact Hi'.
      rewrite nth_repeat_lt by lia.
      destruct (Nat.ltb_spec (start + i) (List.length channelData));
        [lia | reflexivity].
  - split; [lia |].
    intros i Hi. rewrite Hs by lia.
    destruct (Nat.ltb_spec (start + i) (List.length channelData));
      [reflexivity | lia].
Qed.

(** X19.  [get90thPercentileAmplitude] never returns 0 or NaN: it
    returns the level of one of the windows of 512 samples, or 0.5 when
    the level it picked is 0 or NaN or when there is no window, as for
    every channel of 512 samples or fewer. *)
Theorem percentile_is_never_zero (audioBuffer : AudioBuffer)
    (channelData : list float) :
  getChannelData audioBuffer 0 = Return channelData ->
  exists amplitude,
    Features.get90thPercentileAmplitude audioBuffer = Return amplitude
    /\ truthy amplitude = true
    /\ (amplitude = 0.5
        \/ In amplitude
             (windowLevels (List.length channelData) channelData 0 []))
    /\ ((List.length channelData <= 512)%nat -> amplitude = 0.5).
Proof.
  intros C. unfold Features.get90thPercentileAmplitude. rewrite C. simpl.
  eexists. split; [reflexivity |].
  split; [apply truthy_or_half |]. split.
  - destruct (truthy (elementAt _ _)) eqn:T; [right | left; reflexivity].
    apply sortAscending_In, elementAt_In, T.
  - intros Short.
    assert (windowLevels (List.length channelData) channelData 0 [] = []) as ->.
    { destruct (List.length channelData) as [| n] eqn:E; [reflexivity |].
      simpl. rewrite E.
      destruct (Nat.ltb_spec 0 (S n - 512)); [lia | reflexivity]. }
    reflexivity.
Qed.

(** X19 at two windows, at 0.125 and at 0.25: the index is
    [floor(2 * 0.9) = 1], the louder one. *)
Lemma percentile_is_never_zero_witness :
  Features.get90thPercentileAmplitude twoWindows = Return 0.25
  /\ exists amplitude,
       Features.get90thPercentileAmplitude twoWindows = Return amplitude
       /\ truthy amplitude = true
       /\ (amplitude = 0.5
           \/ In amplitude
                (windowLevels (List.length twoWindowsData) twoWindowsData 0 []))
       /\ ((List.length twoWindowsData <= 512)%nat -> amplitude = 0.5).
Proof.
  split; [vm_compute; reflexivity |].
  apply (percentile_is_never_zero twoWindows twoWindowsData). reflexivity.
Defined.

(** X20.  The amplitude is picked from the levels in ascending order:
    when no sample of channel 0 is NaN, every window level is a number
    that is at least 0, the comparator [(a, b) => a - b] orders them as
    [<=] does, and the level picked is the element at index
    [floor(0.9 * n)] of the [n] levels sorted in ascending order. *)
Theorem percentile_picks_from_sorted (audioBuffer : AudioBuffer)
    (channelData : list float) :
  getChannelData audioBuffer 0 = Return channelData ->
  Forall (fun x => is_nan x = false) channelData ->
  let levels := windowLevels (List.length channelData) channelData 0 [] in
  let sorted := sortAscending levels in
  Forall (fun v => is_nan v = false /\ (0 <=? v) = true) levels
  /\ Permutation levels sorted
  /\ Sorted (fun a b => (a <=? b) = true) sorted
  /\ Features.get90thPercentileAmplitude audioBuffer
     = Return
         (let picked :=
            elementAt sorted (Math_floor (of_nat (List.length sorted) * 0.9)) in
          if truthy picked then picked else 0.5).
Proof.
  intros C N levels sorted.
  assert (Forall (fun v => Numbers.unsigned_number_sf (Prim2SF v)) levels) as U
    by (apply windowLevels_unsigned; [exact N | constructor]).
  split; [| split; [| split]].
  - apply (Forall_impl _ unsigned_leb_zero U).
  - apply sortAscending_Permutation.
  - apply sortAscending_Sorted, U.
  - unfold Features.get90thPercentileAmplitude. rewrite C. reflexivity.
Qed.

(** X20 at two windows, at 0.125 and at 0.25. *)
Lemma percentile_picks_from_sorted_witness :
  let levels := windowLevels (List.length twoWindowsData) twoWindowsData 0 [] in
  let sorted := sortAscending levels in
  Forall (fun v => is_nan v = false /\ (0 <=? v) = true) levels
  /\ Permutation levels sorted
  /\ Sorted (fun a b => (a <=? b) = true) sorted
  /\ Features.get90thPercentileAmplitude twoWindows
     = Return
         (let picked :=
            elementAt sorted (Math_floor (of_nat (List.length sorted) * 0.9)) in
          if truthy picked then picked else 0.5).
Proof.
  apply (percentile_picks_from_sorted twoWindows twoWindowsData);
    [reflexivity |].
  apply Forall_forall. intros x Hx.
  apply (proj1 (forallb_forall (fun x => negb (is_nan x)) twoWindowsData)
           ltac:(vm_compute; reflexivity)) in Hx.
  destruct (is_nan x); [discriminate | reflexivity].
Defined.

(** X21.  A pitch that is not finite never makes a sound FM: when
    [detectPitch] returns NaN or an infinity, no harmonic is found and
    [isFM] is false. *)
Theorem broken_pitch_is_not_fm (M : MathLib) (snapshots : Snapshots) :
  is_finite (detectPitch (pitch (early snapshots))) = false ->
  countHarmonics (pitch (early snapshots))
    (detectPitch (pitch (early snapshots))) = 0%nat
  /\ fst (fst (Features.computeGatekeepers M snapshots)) = false.
Proof.
  intros F. unfold Features.computeGatekeepers. simpl.
  rewrite (countHarmonics_not_finite _ _ F). split; reflexivity.
Qed.

(** X21 at the flat spectrum, whose pitch is NaN. *)
Lemma broken_pitch_is_not_fm_witness :
  countHarmonics flatSpectrum (detectPitch flatSpectrum) = 0%nat
  /\ fst (fst (Features.computeGatekeepers sampleMath (snapshotsOf flatSpectrum)))
     = false.
Proof.
  apply (broken_pitch_is_not_fm sampleMath (snapshotsOf flatSpectrum)).
  vm_compute. reflexivity.
Defined.

(** X22.  Silence is neither FM nor wide: when all magnitudes of the
    early spectra are zero, no harmonic is above the threshold, the
    spread is 0 (the division by the total is guarded), and [isFM] and
    [isWide] are false. *)
Theorem silence_is_neither_fm_nor_wide (M : MathLib) (snapshots : Snapshots) :
  Forall (fun x => is_zero x = true) (magnitudes (pitch (early snapshots))) ->
  Forall (fun x => is_zero x = true) (magnitudes (texture (early snapshots))) ->
  computeSpread M (texture (early snapshots)) = 0
  /\ fst (fst (Features.computeGatekeepers M snapshots)) = false
  /\ snd (Features.computeGatekeepers M snapshots) = false.
Proof.
  intros Hp Ht.
  assert (computeSpread M (texture (early snapshots)) = 0) as Hs.
  { unfold computeSpread.
    pose proof (sum_of_zeros _ 0 eq_refl Ht) as Z. unfold is_zero in Z.
    change zero with 0 in Z. rewrite Z. reflexivity. }
  unfold Features.computeGatekeepers. simpl.
  rewrite Hs, (countHarmonics_of_zeros _ _ Hp). repeat split.
Qed.

(** X22 at the spectrum of silence. *)
Lemma silence_is_neither_fm_nor_wide_witness :
  computeSpread sampleMath silentSpectrum = 0
  /\ fst (fst (Features.computeGatekeepers sampleMath
                 (snapshotsOf silentSpectrum))) = false
  /\ snd (Features.computeGatekeepers sampleMath (snapshotsOf silentSpectrum))
     = false.
Proof.
  apply (silence_is_neither_fm_nor_wide sampleMath (snapshotsOf silentSpectrum));
    repeat constructor.
Defined.

End AnalyzerProperties.
